(** * Cycles CPU path tracer: path state, closure aggregation, texture
      upload and CPU task dispatch

    A shallow embedding of
      - intern/cycles/kernel/kernel_path_state.h
      - intern/cycles/kernel/kernel_shader.h   (merge, BSDF sample/eval, alpha)
      - intern/cycles/render/image.cpp         (ImageManager::device_load_image)
      - intern/cycles/device/device_cpu.cpp    (CPUDevice::task_add)

    Conventions.
      - C [int] values are integers of [Z]; increments are written with the
        two's-complement wrap-around of a 32-bit [int] ([int_wrap]).  Bitwise
        operators on flags are [Z.land], [Z.lor], [Z.lnot], which agree with
        the C operators on two's-complement [int]s.
      - C [float] values are exact rationals of [Q]: rounding, infinities and
        NaN are not represented.  The concrete inputs that refute a
        statement are small numbers on which single-precision arithmetic
        gives the same values.
      - The kernel is the CPU build, where [__VOLUME__] is defined.
      - The enumerators and macros of kernel_types.h are fields of the class
        [kernel_types], so that every statement holds for any assignment of
        them; the closure functions of closure/bsdf.h and
        kernel_accumulate.h are fields of the class [closure_ops]. *)

From Stdlib Require Import ZArith QArith Qminmax Bool Lia Lqa.
From stdpp Require Import list strings gmap.

Local Open Scope Z_scope.

(* ===================================================================== *)
(** * Machine integers and floats *)
(* ===================================================================== *)

(** Two's-complement wrap-around of a 32-bit signed [int]. *)
Definition int_wrap (z : Z) : Z := (z + 2 ^ 31) mod 2 ^ 32 - 2 ^ 31.

(** [a + b] on [int]. *)
Definition int_add (a b : Z) : Z := int_wrap (a + b).

(** [a - b] on [int]. *)
Definition int_sub (a b : Z) : Z := int_wrap (a - b).

(** C truth value of an integer expression. *)
Definition truthy (z : Z) : bool := negb (z =? 0).

(** [float3] of util_types: three float channels. *)
Record float3 : Type := make_float3 { x : Q; y : Q; z : Q }.

(** [a == 0.0f] and [a != 0.0f] on floats. *)
Definition float_is_zero (a : Q) : bool := Qeq_bool a 0.
Definition float_nonzero (a : Q) : bool := negb (Qeq_bool a 0).

(** Component-wise float3 operators of util_math.h. *)
Definition float3_add (a b : float3) : float3 :=
  make_float3 (x a + x b)%Q (y a + y b)%Q (z a + z b)%Q.
Definition float3_sub (a b : float3) : float3 :=
  make_float3 (x a - x b)%Q (y a - y b)%Q (z a - z b)%Q.
Definition float3_mul (a b : float3) : float3 :=
  make_float3 (x a * x b)%Q (y a * y b)%Q (z a * z b)%Q.
Definition float3_max (a b : float3) : float3 :=
  make_float3 (Qmax (x a) (x b)) (Qmax (y a) (y b)) (Qmax (z a) (z b)).
Definition float3_min (a b : float3) : float3 :=
  make_float3 (Qmin (x a) (x b)) (Qmin (y a) (y b)) (Qmin (z a) (z b)).

(** Modelled from the spec: [average] of util_math.h is missing; the spec
    calls its result "the throughput's average channel value". *)
Definition average (a : float3) : Q := ((x a + y a + z a) / 3)%Q.

(** Channel-wise equality up to the equality of rationals. *)
Definition float3_eq (a b : float3) : Prop :=
  (x a == x b)%Q /\ (y a == y b)%Q /\ (z a == z b)%Q.

(* ===================================================================== *)
(** * kernel_types.h: enumerators used by the embedded functions *)
(* ===================================================================== *)

Class kernel_types : Type := {
  (* enum PathRayFlag *)
  PATH_RAY_CAMERA : Z;
  PATH_RAY_REFLECT : Z;
  PATH_RAY_TRANSMIT : Z;
  PATH_RAY_DIFFUSE : Z;
  PATH_RAY_GLOSSY : Z;
  PATH_RAY_SINGULAR : Z;
  PATH_RAY_TRANSPARENT : Z;
  PATH_RAY_VOLUME_SCATTER : Z;
  PATH_RAY_MIS_SKIP : Z;
  PATH_RAY_DIFFUSE_ANCESTOR : Z;
  PATH_RAY_STORE_SHADOW_INFO : Z;
  (* enum ClosureLabel *)
  LABEL_NONE : Z;
  LABEL_TRANSMIT : Z;
  LABEL_REFLECT : Z;
  LABEL_DIFFUSE : Z;
  LABEL_GLOSSY : Z;
  LABEL_SINGULAR : Z;
  LABEL_TRANSPARENT : Z;
  LABEL_VOLUME_SCATTER : Z;
  (* enum ShaderDataFlag *)
  SD_SHADER_OVERRIDE_BOUNCES : Z;
  SD_SHADER_HAS_ONLY_VOLUME : Z;
  (* random number dimensions consumed per bounce *)
  PRNG_BOUNCE_NUM : Z;
  (* enum ClosureType and its classification macro *)
  CLOSURE_BSDF_TRANSPARENT_ID : Z;
  CLOSURE_IS_BSDF : Z -> bool
}.

(** The path-ray flags that [path_state_next] clears somewhere. *)
Definition cleared_path_ray_flags `{kernel_types} : list Z :=
  [ PATH_RAY_REFLECT; PATH_RAY_TRANSMIT; PATH_RAY_CAMERA; PATH_RAY_TRANSPARENT;
    PATH_RAY_DIFFUSE; PATH_RAY_GLOSSY; PATH_RAY_SINGULAR; PATH_RAY_MIS_SKIP;
    PATH_RAY_VOLUME_SCATTER; PATH_RAY_STORE_SHADOW_INFO ].

(** The diffuse-ancestor flag shares no bit with any flag that
    [path_state_next] clears: the enumerators are distinct bits. *)
Definition diffuse_ancestor_distinct `{kernel_types} : Prop :=
  Forall (fun m => Z.land PATH_RAY_DIFFUSE_ANCESTOR m = 0) cleared_path_ray_flags.

(** One assignment of the enumerators, every flag and label a bit of its
    own, on which the definitions are evaluated for concrete inputs. *)
Definition sample_kernel_types : kernel_types := {|
  PATH_RAY_CAMERA := 1;
  PATH_RAY_REFLECT := 2;
  PATH_RAY_TRANSMIT := 4;
  PATH_RAY_DIFFUSE := 8;
  PATH_RAY_GLOSSY := 16;
  PATH_RAY_SINGULAR := 32;
  PATH_RAY_TRANSPARENT := 64;
  PATH_RAY_VOLUME_SCATTER := 1024;
  PATH_RAY_MIS_SKIP := 4096;
  PATH_RAY_DIFFUSE_ANCESTOR := 8192;
  PATH_RAY_STORE_SHADOW_INFO := 131072;
  LABEL_NONE := 0;
  LABEL_TRANSMIT := 1;
  LABEL_REFLECT := 2;
  LABEL_DIFFUSE := 4;
  LABEL_GLOSSY := 8;
  LABEL_SINGULAR := 16;
  LABEL_TRANSPARENT := 32;
  LABEL_VOLUME_SCATTER := 64;
  SD_SHADER_OVERRIDE_BOUNCES := 1;
  SD_SHADER_HAS_ONLY_VOLUME := 2;
  PRNG_BOUNCE_NUM := 8;
  CLOSURE_BSDF_TRANSPARENT_ID := 30;
  CLOSURE_IS_BSDF := fun t => t <=? 30
|}.

(* ===================================================================== *)
(** * kernel_types.h: closures and shading point *)
(* ===================================================================== *)

(** [ShaderClosure]: weight, type tag, sample weight and the defining
    parameters of the lobe. *)
Record ShaderClosure : Type := {
  weight : float3;
  type : Z;
  sample_weight : Q;
  data0 : Q;
  data1 : Q;
  data2 : Q;
  N : float3
}.

(** [ShaderData]: the fields read by the embedded functions.  The list
    [closure] is the live prefix [closure[0 .. num_closure)] of the
    fixed-capacity array, so that [num_closure] is its length. *)
Record ShaderData : Type := {
  shader_flag : Z;
  diffuse_bounces : Z;
  glossy_bounces : Z;
  transmission_bounces : Z;
  randb_closure : Q;
  closure : list ShaderClosure
}.

Definition num_closure (sd : ShaderData) : nat := length (closure sd).

Definition set_closure (sd : ShaderData) (cl : list ShaderClosure) : ShaderData :=
  {| shader_flag := shader_flag sd; diffuse_bounces := diffuse_bounces sd;
     glossy_bounces := glossy_bounces sd;
     transmission_bounces := transmission_bounces sd;
     randb_closure := randb_closure sd; closure := cl |}.

(** [differential3]: the two screen-space derivatives of a direction. *)
Record differential3 : Type := { dx : float3; dy : float3 }.

(** What a closure's [bsdf_sample] hands back: its return value and the
    values left in the out-parameters [eval], [omega_in], [domega_in], [pdf]. *)
Record BsdfSample : Type := {
  bs_label : Z;
  bs_eval : float3;
  bs_omega_in : float3;
  bs_domega_in : differential3;
  bs_pdf : Q
}.

(** closure/bsdf.h and kernel_accumulate.h: the closure functions called by
    kernel_shader.h.  [bsdf_eval] returns the evaluated colour and the value
    left in its [pdf] out-parameter, which the caller sets to 0 beforehand;
    [bsdf_sample] receives the current contents of [omega_in] and
    [domega_in]. *)
Class closure_ops : Type := {
  BsdfEval : Type;
  bsdf_eval_init : Z -> float3 -> Z -> BsdfEval;
  bsdf_eval_accum : BsdfEval -> Z -> float3 -> Q -> BsdfEval;
  bsdf_merge : ShaderClosure -> ShaderClosure -> bool;
  bsdf_eval : ShaderData -> ShaderClosure -> float3 -> float3 * Q;
  bsdf_sample :
    ShaderData -> ShaderClosure -> Q -> Q -> float3 -> differential3 -> BsdfSample
}.

(* ===================================================================== *)
(** * kernel_path_state.h *)
(* ===================================================================== *)

(** [kernel_data.integrator]: the fields read by the path state. *)
Record KernelIntegrator : Type := {
  min_bounce : Z;
  max_bounce : Z;
  max_diffuse_bounce : Z;
  max_glossy_bounce : Z;
  max_transmission_bounce : Z;
  max_volume_bounce : Z;
  transparent_min_bounce : Z;
  transparent_max_bounce : Z;
  transparent_shadows : Z
}.

(** [PathState]: flags, RNG cursor, bounce counters and the scalar trackers
    that [path_state_next] leaves alone. *)
Record PathState : Type := {
  flag : Z;
  rng_hash : Z;
  rng_offset : Z;
  sample : Z;
  num_samples : Z;
  bounce : Z;
  diffuse_bounce : Z;
  glossy_bounce : Z;
  transmission_bounce : Z;
  transparent_bounce : Z;
  volume_bounce : Z;
  volume_bounds_bounce : Z;
  denoising_feature_weight : Q;
  min_ray_pdf : Q;
  ray_pdf : Q;
  matte_weight : Q;
  written_aovs : Z
}.

(** Assignments to single fields of a [PathState]. *)
Definition set_flag (s : PathState) (v : Z) : PathState :=
  {| flag := v; rng_hash := rng_hash s; rng_offset := rng_offset s;
     sample := sample s; num_samples := num_samples s; bounce := bounce s;
     diffuse_bounce := diffuse_bounce s; glossy_bounce := glossy_bounce s;
     transmission_bounce := transmission_bounce s;
     transparent_bounce := transparent_bounce s;
     volume_bounce := volume_bounce s;
     volume_bounds_bounce := volume_bounds_bounce s;
     denoising_feature_weight := denoising_feature_weight s;
     min_ray_pdf := min_ray_pdf s; ray_pdf := ray_pdf s;
     matte_weight := matte_weight s; written_aovs := written_aovs s |}.

Definition set_rng_offset (s : PathState) (v : Z) : PathState :=
  {| flag := flag s; rng_hash := rng_hash s; rng_offset := v;
     sample := sample s; num_samples := num_samples s; bounce := bounce s;
     diffuse_bounce := diffuse_bounce s; glossy_bounce := glossy_bounce s;
     transmission_bounce := transmission_bounce s;
     transparent_bounce := transparent_bounce s;
     volume_bounce := volume_bounce s;
     volume_bounds_bounce := volume_bounds_bounce s;
     denoising_feature_weight := denoising_feature_weight s;
     min_ray_pdf := min_ray_pdf s; ray_pdf := ray_pdf s;
     matte_weight := matte_weight s; written_aovs := written_aovs s |}.

Definition set_bounce (s : PathState) (v : Z) : PathState :=
  {| flag := flag s; rng_hash := rng_hash s; rng_offset := rng_offset s;
     sample := sample s; num_samples := num_samples s; bounce := v;
     diffuse_bounce := diffuse_bounce s; glossy_bounce := glossy_bounce s;
     transmission_bounce := transmission_bounce s;
     transparent_bounce := transparent_bounce s;
     volume_bounce := volume_bounce s;
     volume_bounds_bounce := volume_bounds_bounce s;
     denoising_feature_weight := denoising_feature_weight s;
     min_ray_pdf := min_ray_pdf s; ray_pdf := ray_pdf s;
     matte_weight := matte_weight s; written_aovs := written_aovs s |}.

Definition set_diffuse_bounce (s : PathState) (v : Z) : PathState :=
  {| flag := flag s; rng_hash := rng_hash s; rng_offset := rng_offset s;
     sample := sample s; num_samples := num_samples s; bounce := bounce s;
     diffuse_bounce := v; glossy_bounce := glossy_bounce s;
     transmission_bounce := transmission_bounce s;
     transparent_bounce := transparent_bounce s;
     volume_bounce := volume_bounce s;
     volume_bounds_bounce := volume_bounds_bounce s;
     denoising_feature_weight := denoising_feature_weight s;
     min_ray_pdf := min_ray_pdf s; ray_pdf := ray_pdf s;
     matte_weight := matte_weight s; written_aovs := written_aovs s |}.

Definition set_glossy_bounce (s : PathState) (v : Z) : PathState :=
  {| flag := flag s; rng_hash := rng_hash s; rng_offset := rng_offset s;
     sample := sample s; num_samples := num_samples s; bounce := bounce s;
     diffuse_bounce := diffuse_bounce s; glossy_bounce := v;
     transmission_bounce := transmission_bounce s;
     transparent_bounce := transparent_bounce s;
     volume_bounce := volume_bounce s;
     volume_bounds_bounce := volume_bounds_bounce s;
     denoising_feature_weight := denoising_feature_weight s;
     min_ray_pdf := min_ray_pdf s; ray_pdf := ray_pdf s;
     matte_weight := matte_weight s; written_aovs := written_aovs s |}.

Definition set_transmission_bounce (s : PathState) (v : Z) : PathState :=
  {| flag := flag s; rng_hash := rng_hash s; rng_offset := rng_offset s;
     sample := sample s; num_samples := num_samples s; bounce := bounce s;
     diffuse_bounce := diffuse_bounce s; glossy_bounce := glossy_bounce s;
     transmission_bounce := v;
     transparent_bounce := transparent_bounce s;
     volume_bounce := volume_bounce s;
     volume_bounds_bounce := volume_bounds_bounce s;
     denoising_feature_weight := denoising_feature_weight s;
     min_ray_pdf := min_ray_pdf s; ray_pdf := ray_pdf s;
     matte_weight := matte_weight s; written_aovs := written_aovs s |}.

Definition set_transparent_bounce (s : PathState) (v : Z) : PathState :=
  {| flag := flag s; rng_hash := rng_hash s; rng_offset := rng_offset s;
     sample := sample s; num_samples := num_samples s; bounce := bounce s;
     diffuse_bounce := diffuse_bounce s; glossy_bounce := glossy_bounce s;
     transmission_bounce := transmission_bounce s;
     transparent_bounce := v;
     volume_bounce := volume_bounce s;
     volume_bounds_bounce := volume_bounds_bounce s;
     denoising_feature_weight := denoising_feature_weight s;
     min_ray_pdf := min_ray_pdf s; ray_pdf := ray_pdf s;
     matte_weight := matte_weight s; written_aovs := written_aovs s |}.

Definition set_volume_bounce (s : PathState) (v : Z) : PathState :=
  {| flag := flag s; rng_hash := rng_hash s; rng_offset := rng_offset s;
     sample := sample s; num_samples := num_samples s; bounce := bounce s;
     diffuse_bounce := diffuse_bounce s; glossy_bounce := glossy_bounce s;
     transmission_bounce := transmission_bounce s;
     transparent_bounce := transparent_bounce s;
     volume_bounce := v;
     volume_bounds_bounce := volume_bounds_bounce s;
     denoising_feature_weight := denoising_feature_weight s;
     min_ray_pdf := min_ray_pdf s; ray_pdf := ray_pdf s;
     matte_weight := matte_weight s; written_aovs := written_aovs s |}.

(** [state->flag |= m] and [state->flag &= ~m]. *)
Definition flag_or (s : PathState) (m : Z) : PathState :=
  set_flag s (Z.lor (flag s) m).
Definition flag_clear (s : PathState) (m : Z) : PathState :=
  set_flag s (Z.land (flag s) (Z.lnot m)).

(** [a|b|...] over a list of masks. *)
Definition mask_of (ms : list Z) : Z := fold_right Z.lor 0 ms.

Section PathStateFunctions.
Context `{KT : kernel_types}.
Variable integrator : KernelIntegrator.

(** [path_state_next], kernel_path_state.h:78-150. *)
Definition path_state_next (state : PathState) (label : Z) : PathState :=
  if truthy (Z.land label LABEL_TRANSPARENT) then
    (* ray through transparent keeps same flags from previous ray and is
       not counted as a regular bounce *)
    let state := flag_or state PATH_RAY_TRANSPARENT in
    let state :=
      set_transparent_bounce state (int_add (transparent_bounce state) 1) in
    if negb (truthy (transparent_shadows integrator))
    then flag_or state PATH_RAY_MIS_SKIP
    else state
  else
    let state := set_bounce state (int_add (bounce state) 1) in
    let state :=
      if truthy (Z.land label LABEL_VOLUME_SCATTER) then
        (* volume scatter *)
        let state := flag_or state PATH_RAY_VOLUME_SCATTER in
        let state :=
          flag_clear state
            (mask_of [PATH_RAY_REFLECT; PATH_RAY_TRANSMIT; PATH_RAY_CAMERA;
                      PATH_RAY_TRANSPARENT; PATH_RAY_DIFFUSE;
                      PATH_RAY_GLOSSY; PATH_RAY_SINGULAR;
                      PATH_RAY_MIS_SKIP]) in
        set_volume_bounce state (int_add (volume_bounce state) 1)
      else
        (* surface reflection/transmission *)
        let state :=
          if truthy (Z.land label LABEL_REFLECT) then
            let state := flag_or state PATH_RAY_REFLECT in
            let state :=
              flag_clear state
                (mask_of [PATH_RAY_TRANSMIT; PATH_RAY_VOLUME_SCATTER;
                          PATH_RAY_CAMERA; PATH_RAY_TRANSPARENT]) in
            if truthy (Z.land label LABEL_DIFFUSE)
            then set_diffuse_bounce state (int_add (diffuse_bounce state) 1)
            else set_glossy_bounce state (int_add (glossy_bounce state) 1)
          else
            let state := flag_or state PATH_RAY_TRANSMIT in
            let state :=
              flag_clear state
                (mask_of [PATH_RAY_REFLECT; PATH_RAY_VOLUME_SCATTER;
                          PATH_RAY_CAMERA; PATH_RAY_TRANSPARENT]) in
            set_transmission_bounce state
              (int_add (transmission_bounce state) 1) in
        (* diffuse/glossy/singular *)
        if truthy (Z.land label LABEL_DIFFUSE) then
          let state :=
            flag_or state
              (mask_of [PATH_RAY_DIFFUSE; PATH_RAY_DIFFUSE_ANCESTOR]) in
          flag_clear state
            (mask_of [PATH_RAY_GLOSSY; PATH_RAY_SINGULAR; PATH_RAY_MIS_SKIP])
        else if truthy (Z.land label LABEL_GLOSSY) then
          let state := flag_or state PATH_RAY_GLOSSY in
          flag_clear state
            (mask_of [PATH_RAY_DIFFUSE; PATH_RAY_SINGULAR; PATH_RAY_MIS_SKIP])
        else
          let state :=
            flag_or state
              (mask_of [PATH_RAY_GLOSSY; PATH_RAY_SINGULAR;
                        PATH_RAY_MIS_SKIP]) in
          flag_clear state PATH_RAY_DIFFUSE in
    (* random number generator next bounce *)
    let state :=
      set_rng_offset state (int_add (rng_offset state) PRNG_BOUNCE_NUM) in
    if float_is_zero (denoising_feature_weight state)
    then flag_clear state PATH_RAY_STORE_SHADOW_INFO
    else state.

(** A path: [path_state_next] applied for each label of a bounce list. *)
Definition path_state_run (state : PathState) (labels : list Z) : PathState :=
  fold_left path_state_next labels state.

(** The three per-category maxima chosen at kernel_path_state.h:193-203:
    the material's when it overrides the bounces, the integrator's
    otherwise. *)
Definition max_diffuse_bounce_of (sd : ShaderData) : Z :=
  if truthy (Z.land (shader_flag sd) SD_SHADER_OVERRIDE_BOUNCES)
  then diffuse_bounces sd else max_diffuse_bounce integrator.
Definition max_glossy_bounce_of (sd : ShaderData) : Z :=
  if truthy (Z.land (shader_flag sd) SD_SHADER_OVERRIDE_BOUNCES)
  then glossy_bounces sd else max_glossy_bounce integrator.
Definition max_transmission_bounce_of (sd : ShaderData) : Z :=
  if truthy (Z.land (shader_flag sd) SD_SHADER_OVERRIDE_BOUNCES)
  then transmission_bounces sd else max_transmission_bounce integrator.

(** [path_state_terminate_probability], kernel_path_state.h:183-222. *)
Definition path_state_terminate_probability
    (state : PathState) (sd : ShaderData) (throughput : float3) : Q :=
  if truthy (Z.land (flag state) PATH_RAY_TRANSPARENT) then
    (* transparent rays treated separately *)
    if transparent_bounce state >=? transparent_max_bounce integrator then 0%Q
    else if transparent_bounce state <=? transparent_min_bounce integrator
    then 1%Q
    else average throughput
  else
    let max_diffuse_bounce := max_diffuse_bounce_of sd in
    let max_glossy_bounce := max_glossy_bounce_of sd in
    let max_transmission_bounce := max_transmission_bounce_of sd in
    (* other rays *)
    if (bounce state >=? max_bounce integrator)
       || (diffuse_bounce state >=? max_diffuse_bounce)
       || (glossy_bounce state >=? max_glossy_bounce)
       || (volume_bounce state >=? max_volume_bounce integrator)
       || (transmission_bounce state >=? max_transmission_bounce)
    then 0%Q
    else if bounce state <=? min_bounce integrator then 1%Q
    else (* probalistic termination *) average throughput.
End PathStateFunctions.

(* ===================================================================== *)
(** * kernel_shader.h *)
(* ===================================================================== *)

(** [sci->weight += scj->weight; sci->sample_weight += scj->sample_weight]. *)
Definition merge_into (sci scj : ShaderClosure) : ShaderClosure :=
  {| weight := float3_add (weight sci) (weight scj);
     type := type sci;
     sample_weight := (sample_weight sci + sample_weight scj)%Q;
     data0 := data0 sci; data1 := data1 sci; data2 := data2 sci;
     N := N sci |}.

(** The out-parameters and return value of [shader_bsdf_sample]. *)
Record ShaderSample `{closure_ops} : Type := {
  out_label : Z;
  out_bsdf_eval : BsdfEval;
  out_omega_in : float3;
  out_domega_in : differential3;
  out_pdf : Q
}.

Section ShaderFunctions.
Context `{KT : kernel_types} `{CO : closure_ops}.
(** [kernel_data.film.use_light_pass]. *)
Variable use_light_pass : Z.

(** The test that lets the scan of [shader_merge_closures] fall through
    both [continue]s: equal type, and [bsdf_merge] agrees. *)
Definition mergeable (sci scj : ShaderClosure) : bool :=
  (type sci =? type scj) && bsdf_merge sci scj.

(** The copy loop [for(k) scj[k] = scj[k+1]], kernel_shader.h:631-633, on
    the whole fixed-capacity array [arr], with [scj = &arr[j]]. *)
Fixpoint shift_down (arr : list ShaderClosure) (j size : nat)
    : list ShaderClosure :=
  match size with
  | O => arr
  | S size' =>
      match arr !! S j with
      | Some next => shift_down (<[j := next]> arr) (S j) size'
      | None => arr
      end
  end.

(** Lines 629-636 on the array and its [num_closure]: the closures behind
    [j] move down one slot and the count drops by one. *)
Definition remove_closure (arr : list ShaderClosure) (num j : nat)
    : list ShaderClosure * nat :=
  (shift_down arr j (num - (j + 1)), (num - 1)%nat).

(** The inner [for(j)] loop of [shader_merge_closures],
    kernel_shader.h:618-639.  On a merge the closures after [j] move down
    one slot and [num_closure] is decremented, which on the live prefix is
    the deletion of position [j] (lemma [remove_closure_live_prefix]);
    [j--] followed by [j++] leaves [j] as it is.  [fuel] bounds the number
    of iterations. *)
Fixpoint merge_scan_j (fuel : nat) (cl : list ShaderClosure) (i j : nat)
    : list ShaderClosure :=
  match fuel with
  | O => cl
  | S fuel' =>
      match cl !! i, cl !! j with
      | Some sci, Some scj =>
          if negb (type sci =? type scj) then merge_scan_j fuel' cl i (S j)
          else if negb (bsdf_merge sci scj) then merge_scan_j fuel' cl i (S j)
          else
            merge_scan_j fuel'
              (delete j (<[i := merge_into sci scj]> cl)) i j
      | _, _ => cl
      end
  end.

(** The outer [for(i)] loop, kernel_shader.h:615-640.  Every iteration of
    the inner loop either advances [j] or shortens the array, so
    [length cl] iterations are enough for it. *)
Fixpoint merge_scan_i (fuel : nat) (cl : list ShaderClosure) (i : nat)
    : list ShaderClosure :=
  match fuel with
  | O => cl
  | S fuel' =>
      if (i <? length cl)%nat
      then merge_scan_i fuel' (merge_scan_j (length cl) cl i (S i)) (S i)
      else cl
  end.

(** [shader_merge_closures], kernel_shader.h:612-641. *)
Definition shader_merge_closures (sd : ShaderData) : ShaderData :=
  set_closure sd (merge_scan_i (length (closure sd)) (closure sd) 0).

(** The loop of [_shader_bsdf_multi_eval], kernel_shader.h:651-668, from
    index [i] on; the accumulators are [result_eval], [sum_pdf] and
    [sum_sample_weight]. *)
Fixpoint multi_eval_loop (sd : ShaderData) (omega_in : float3) (skip_bsdf : Z)
    (cl : list ShaderClosure) (i : Z) (acc : BsdfEval * Q * Q)
    : BsdfEval * Q * Q :=
  match cl with
  | [] => acc
  | sc :: rest =>
      let '(result_eval, sum_pdf, sum_sample_weight) := acc in
      let acc' :=
        if i =? skip_bsdf then acc
        else if CLOSURE_IS_BSDF (type sc) then
          let '(eval, bsdf_pdf) := bsdf_eval sd sc omega_in in
          let '(result_eval, sum_pdf) :=
            if float_nonzero bsdf_pdf
            then (bsdf_eval_accum result_eval (type sc)
                    (float3_mul eval (weight sc)) 1,
                  (sum_pdf + bsdf_pdf * sample_weight sc)%Q)
            else (result_eval, sum_pdf) in
          (result_eval, sum_pdf, (sum_sample_weight + sample_weight sc)%Q)
        else acc in
      multi_eval_loop sd omega_in skip_bsdf rest (i + 1) acc'
  end.

(** [_shader_bsdf_multi_eval], kernel_shader.h:646-671: the accumulated
    [result_eval] and the value stored in [*pdf]. *)
Definition _shader_bsdf_multi_eval (sd : ShaderData) (omega_in : float3)
    (skip_bsdf : Z) (result_eval : BsdfEval) (sum_pdf sum_sample_weight : Q)
    : BsdfEval * Q :=
  let '(result_eval, sum_pdf, sum_sample_weight) :=
    multi_eval_loop sd omega_in skip_bsdf (closure sd) 0
      (result_eval, sum_pdf, sum_sample_weight) in
  (result_eval,
   if negb (Qle_bool sum_sample_weight 0)
   then (sum_pdf / sum_sample_weight)%Q else 0%Q).

(** First loop of [shader_bsdf_sample], kernel_shader.h:742-747: the sum
    of the sample weights of the BSDF closures. *)
Fixpoint bsdf_sample_weight_sum (cl : list ShaderClosure) (sum : Q) : Q :=
  match cl with
  | [] => sum
  | sc :: rest =>
      bsdf_sample_weight_sum rest
        (if CLOSURE_IS_BSDF (type sc) then (sum + sample_weight sc)%Q else sum)
  end.

(** Second loop, kernel_shader.h:752-761: the value of [sampled] when the
    loop ends, starting at index [sampled] with running sum [sum]; it is
    the array length when no closure was picked. *)
Fixpoint pick_closure (cl : list ShaderClosure) (r : Q) (sampled : nat)
    (sum : Q) : nat :=
  match cl with
  | [] => sampled
  | sc :: rest =>
      if CLOSURE_IS_BSDF (type sc) then
        let sum := (sum + sample_weight sc)%Q in
        if Qle_bool r sum then sampled
        else pick_closure rest r (S sampled) sum
      else pick_closure rest r (S sampled) sum
  end.

(** The index held by [sampled] at kernel_shader.h:763. *)
Definition sampled_index (sd : ShaderData) : nat :=
  if (1 <? num_closure sd)%nat then
    let sum := bsdf_sample_weight_sum (closure sd) 0 in
    let r := (randb_closure sd * sum)%Q in
    pick_closure (closure sd) r 0 0
  else 0%nat.

(** [shader_bsdf_sample], kernel_shader.h:728-787.  The arguments
    [bsdf_eval0], [omega_in0], [domega_in0] are what the out-parameters
    hold on entry.  The result is [None] only when [num_closure] is 0,
    where the C code reads [closure[0]] beyond the live prefix. *)
Definition shader_bsdf_sample (sd : ShaderData) (randu randv : Q)
    (bsdf_eval0 : BsdfEval) (omega_in0 : float3) (domega_in0 : differential3)
    : option ShaderSample :=
  let sampled := sampled_index sd in
  if (1 <? num_closure sd)%nat && (sampled =? num_closure sd)%nat then
    Some {| out_label := LABEL_NONE; out_bsdf_eval := bsdf_eval0;
            out_omega_in := omega_in0; out_domega_in := domega_in0;
            out_pdf := 0 |}
  else
    match closure sd !! sampled with
    | None => None
    | Some sc =>
        let s := bsdf_sample sd sc randu randv omega_in0 domega_in0 in
        if float_nonzero (bs_pdf s) then
          let bsdf_eval1 :=
            bsdf_eval_init (type sc) (float3_mul (bs_eval s) (weight sc))
              use_light_pass in
          if (1 <? num_closure sd)%nat then
            let sweight := sample_weight sc in
            let '(bsdf_eval2, pdf) :=
              _shader_bsdf_multi_eval sd (bs_omega_in s)
                (Z.of_nat sampled) bsdf_eval1
                (bs_pdf s * sweight)%Q sweight in
            Some {| out_label := bs_label s; out_bsdf_eval := bsdf_eval2;
                    out_omega_in := bs_omega_in s;
                    out_domega_in := bs_domega_in s; out_pdf := pdf |}
          else
            Some {| out_label := bs_label s; out_bsdf_eval := bsdf_eval1;
                    out_omega_in := bs_omega_in s;
                    out_domega_in := bs_domega_in s; out_pdf := bs_pdf s |}
        else
          Some {| out_label := bs_label s; out_bsdf_eval := bsdf_eval0;
                  out_omega_in := bs_omega_in s;
                  out_domega_in := bs_domega_in s; out_pdf := bs_pdf s |}
    end.

(** The single-closure sample drawn at kernel_shader.h:775 for the picked
    closure, when one is picked. *)
Definition single_closure_sample (sd : ShaderData) (randu randv : Q)
    (omega_in0 : float3) (domega_in0 : differential3) : option BsdfSample :=
  match closure sd !! sampled_index sd with
  | Some sc => Some (bsdf_sample sd sc randu randv omega_in0 domega_in0)
  | None => None
  end.

(** The loop of [shader_bsdf_transparency], kernel_shader.h:822-827. *)
Fixpoint transparency_sum (cl : list ShaderClosure) (eval : float3) : float3 :=
  match cl with
  | [] => eval
  | sc :: rest =>
      transparency_sum rest
        (if type sc =? CLOSURE_BSDF_TRANSPARENT_ID
         then float3_add eval (weight sc) else eval)
  end.

(** [shader_bsdf_transparency], kernel_shader.h:815-830. *)
Definition shader_bsdf_transparency (sd : ShaderData) : float3 :=
  if truthy (Z.land (shader_flag sd) SD_SHADER_HAS_ONLY_VOLUME)
  then make_float3 1 1 1
  else transparency_sum (closure sd) (make_float3 0 0 0).

(** [shader_bsdf_alpha], kernel_shader.h:844-852. *)
Definition shader_bsdf_alpha (sd : ShaderData) : float3 :=
  let alpha := float3_sub (make_float3 1 1 1) (shader_bsdf_transparency sd) in
  let alpha := float3_max alpha (make_float3 0 0 0) in
  let alpha := float3_min alpha (make_float3 1 1 1) in
  alpha.
End ShaderFunctions.

(* ===================================================================== *)
(** * render/image.cpp and the texture half of device/device_cpu.cpp *)
(* ===================================================================== *)

Inductive ImageDataType : Type :=
  | IMAGE_DATA_TYPE_FLOAT4
  | IMAGE_DATA_TYPE_BYTE4
  | IMAGE_DATA_TYPE_HALF4
  | IMAGE_DATA_TYPE_FLOAT
  | IMAGE_DATA_TYPE_BYTE
  | IMAGE_DATA_TYPE_HALF
  | IMAGE_DATA_TYPE_USHORT4
  | IMAGE_DATA_TYPE_USHORT.

(** [ImageManager::Image]: [builtin_data] is whether the pointer is set. *)
Record Image : Type := {
  filename : string;
  builtin_data : bool;
  need_load : bool;
  interpolation : Z;
  extension : Z
}.

Definition set_need_load (img : Image) (b : bool) : Image :=
  {| filename := filename img; builtin_data := builtin_data img;
     need_load := b; interpolation := interpolation img;
     extension := extension img |}.

(** [device_vector<T>]: dimensions, the host pixel channels in storage
    order, and whether [device_pointer] is set. *)
Record device_vector : Type := {
  data_width : Z;
  data_height : Z;
  data_depth : Z;
  data : list Q;
  device_pointer : bool
}.

(** [new device_vector<T>()]. *)
Definition new_device_vector : device_vector :=
  {| data_width := 0; data_height := 0; data_depth := 0; data := [];
     device_pointer := false |}.

(** [tex_img.resize(width, height, depth)] followed by the stores that fill
    [pixels]. *)
Definition resize_fill (v : device_vector) (w h d : Z) (pixels : list Q)
    : device_vector :=
  {| data_width := w; data_height := h; data_depth := d; data := pixels;
     device_pointer := device_pointer v |}.

Definition set_device_pointer (v : device_vector) (b : bool) : device_vector :=
  {| data_width := data_width v; data_height := data_height v;
     data_depth := data_depth v; data := data v; device_pointer := b |}.

(** A texture as [kernel_tex_copy] registers it with the CPU kernel. *)
Record KernelTexture : Type := {
  tex_width : Z;
  tex_height : Z;
  tex_depth : Z;
  tex_pixels : list Q;
  tex_interpolation : Z;
  tex_extension : Z
}.

(** The arguments of [string_printf("__tex_image_%s_%03d", ...)]: the type
    name and the flattened slot. *)
Definition TexName : Type := (string * Z)%type.

(** [CPUDevice]: the textures bound in [kernel_globals]. *)
Definition CPUDevice : Type := gmap (string * Z) KernelTexture.

(** [CPUDevice::tex_alloc], device_cpu.cpp:387-406. *)
Definition tex_alloc (device : CPUDevice) (name : TexName) (mem : device_vector)
    (interpolation extension : Z) : CPUDevice * device_vector :=
  (<[name := {| tex_width := data_width mem; tex_height := data_height mem;
                tex_depth := data_depth mem; tex_pixels := data mem;
                tex_interpolation := interpolation;
                tex_extension := extension |}]> device,
   set_device_pointer mem (negb (bool_decide (data mem = [])))).

(** [CPUDevice::tex_free], device_cpu.cpp:408-415. *)
Definition tex_free (device : CPUDevice) (mem : device_vector)
    : CPUDevice * device_vector :=
  if device_pointer mem then (device, set_device_pointer mem false)
  else (device, mem).

(** [ImageManager] with the [DeviceScene] image vectors, the device and
    the OIIO handle table it updates.  [oiio_texture_system] is whether the
    pointer is set; a [None] entry of [images] or [tex_image] is a null
    pointer. *)
Record ImageManager : Type := {
  images : ImageDataType -> list (option Image);
  pack_images : bool;
  oiio_texture_system : bool;
  cuda_fermi_limits : bool;
  tex_image : ImageDataType -> list (option device_vector);
  device : CPUDevice;
  oiio_textures : gmap Z bool
}.

Definition ImageDataType_eqb (a b : ImageDataType) : bool :=
  match a, b with
  | IMAGE_DATA_TYPE_FLOAT4, IMAGE_DATA_TYPE_FLOAT4
  | IMAGE_DATA_TYPE_BYTE4, IMAGE_DATA_TYPE_BYTE4
  | IMAGE_DATA_TYPE_HALF4, IMAGE_DATA_TYPE_HALF4
  | IMAGE_DATA_TYPE_FLOAT, IMAGE_DATA_TYPE_FLOAT
  | IMAGE_DATA_TYPE_BYTE, IMAGE_DATA_TYPE_BYTE
  | IMAGE_DATA_TYPE_HALF, IMAGE_DATA_TYPE_HALF
  | IMAGE_DATA_TYPE_USHORT4, IMAGE_DATA_TYPE_USHORT4
  | IMAGE_DATA_TYPE_USHORT, IMAGE_DATA_TYPE_USHORT => true
  | _, _ => false
  end.

(** [name_from_type], image.cpp:313-331. *)
Definition name_from_type (type : ImageDataType) : string :=
  match type with
  | IMAGE_DATA_TYPE_FLOAT4 => "float4"
  | IMAGE_DATA_TYPE_FLOAT => "float"
  | IMAGE_DATA_TYPE_BYTE => "byte"
  | IMAGE_DATA_TYPE_HALF4 => "half4"
  | IMAGE_DATA_TYPE_HALF => "half"
  | IMAGE_DATA_TYPE_USHORT => "ushort"
  | IMAGE_DATA_TYPE_USHORT4 => "ushort4"
  | IMAGE_DATA_TYPE_BYTE4 => "byte4"
  end.

(** Conversions of an integer constant to the storage types. *)
Definition to_float (v : Z) : Q := inject_Z v.
Definition to_uchar (v : Z) : Q := inject_Z (v mod 256).
Definition to_ushort (v : Z) : Q := inject_Z (v mod 65536).

Section ImageFunctions.
(** util_texture.h: the colour of a missing image. *)
Variables TEX_IMAGE_MISSING_R TEX_IMAGE_MISSING_G
          TEX_IMAGE_MISSING_B TEX_IMAGE_MISSING_A : Z.
(** The values of [enum ImageDataType]. *)
Variable image_type_value : ImageDataType -> Z.
(** The file system and image readers: [read_image img type limit] is
    [None] where [file_load_image_generic] fails and otherwise the
    dimensions and channels that [file_load_image] stores in [tex_img]. *)
Variable read_image : Image -> ImageDataType -> Z -> option (Z * Z * Z * list Q).
(** [tex_sys->good(handle)] for the handle of an image file. *)
Variable oiio_handle_good : Image -> bool.
(** [scene->params.texture_limit]. *)
Variable texture_limit : Z.

(** [type_index_to_flattened_slot], image.cpp:281-293. *)
Definition type_index_to_flattened_slot (mgr : ImageManager) (slot : Z)
    (type : ImageDataType) : Z :=
  if cuda_fermi_limits mgr then
    if ImageDataType_eqb type IMAGE_DATA_TYPE_BYTE4 then slot + 5 else slot
  else Z.lor (Z.shiftl slot 3) (image_type_value type).

(** [file_load_image], image.cpp:598-751: [false] leaves [tex_img] as it
    was (the only failing exit is the one of [file_load_image_generic] at
    its start). *)
Definition file_load_image (img : Image) (type : ImageDataType)
    (tex_img : device_vector) : bool * device_vector :=
  match read_image img type texture_limit with
  | None => (false, tex_img)
  | Some (w, h, d, pixels) => (true, resize_fill tex_img w h d pixels)
  end.

(** The pixel stored by the failure branches of [device_load_image],
    image.cpp:848-855, 883-887, 915-922, 949-953, 980-987, 1014-1018,
    1045-1052 and 1079-1083. *)
Definition missing_pixels (type : ImageDataType) : list Q :=
  match type with
  | IMAGE_DATA_TYPE_FLOAT4 | IMAGE_DATA_TYPE_HALF4 =>
      [to_float TEX_IMAGE_MISSING_R; to_float TEX_IMAGE_MISSING_G;
       to_float TEX_IMAGE_MISSING_B; to_float TEX_IMAGE_MISSING_A]
  | IMAGE_DATA_TYPE_FLOAT | IMAGE_DATA_TYPE_HALF =>
      [to_float TEX_IMAGE_MISSING_R]
  | IMAGE_DATA_TYPE_BYTE4 =>
      [to_uchar (TEX_IMAGE_MISSING_R * 255);
       to_uchar (TEX_IMAGE_MISSING_G * 255);
       to_uchar (TEX_IMAGE_MISSING_B * 255);
       to_uchar (TEX_IMAGE_MISSING_A * 255)]
  | IMAGE_DATA_TYPE_BYTE => [to_uchar (TEX_IMAGE_MISSING_R * 255)]
  | IMAGE_DATA_TYPE_USHORT4 =>
      [to_ushort (TEX_IMAGE_MISSING_R * 65535);
       to_ushort (TEX_IMAGE_MISSING_G * 65535);
       to_ushort (TEX_IMAGE_MISSING_B * 65535);
       to_ushort (TEX_IMAGE_MISSING_A * 65535)]
  | IMAGE_DATA_TYPE_USHORT => [to_ushort (TEX_IMAGE_MISSING_R * 65535)]
  end.

(** [tex_img.resize(1, 1)] and the stores of the missing colour. *)
Definition missing_image (type : ImageDataType) (tex_img : device_vector)
    : device_vector :=
  resize_fill tex_img 1 1 0 (missing_pixels type).

Definition update_slot {A : Type} (f : ImageDataType -> list A)
    (type : ImageDataType) (slot : nat) (v : A) : ImageDataType -> list A :=
  fun t => if ImageDataType_eqb t type then <[slot := v]> (f t) else f t.

(** [ImageManager::device_load_image], image.cpp:753-1094.  The eight
    branches on [type] differ in the pixel they store on failure
    ([missing_pixels]) and in that the [IMAGE_DATA_TYPE_FLOAT4] branch has
    no test of [slot] against the size of its vector.  The result is
    [None] where the C++ indexes a vector out of range. *)
Definition device_load_image (mgr : ImageManager) (type : ImageDataType)
    (slot : nat) (cancel : bool) : option ImageManager :=
  if cancel then Some mgr
  else
    match images mgr type !! slot with
    | None => None
    | Some None => Some mgr
    | Some (Some img) =>
        let flat_slot := type_index_to_flattened_slot mgr (Z.of_nat slot) type in
        if oiio_texture_system mgr && negb (builtin_data img) then
          (* the texture handle is kept for lookup at shading time; no
             pixels are loaded and no device texture is allocated *)
          Some {| images := update_slot (images mgr) type slot
                              (Some (set_need_load img false));
                  pack_images := pack_images mgr;
                  oiio_texture_system := oiio_texture_system mgr;
                  cuda_fermi_limits := cuda_fermi_limits mgr;
                  tex_image := tex_image mgr;
                  device := device mgr;
                  oiio_textures :=
                    <[flat_slot := oiio_handle_good img]> (oiio_textures mgr) |}
        else
          let name : TexName := (name_from_type type, flat_slot) in
          if negb (ImageDataType_eqb type IMAGE_DATA_TYPE_FLOAT4)
             && (length (tex_image mgr type) <=? slot)%nat
          then Some mgr
          else
            match tex_image mgr type !! slot with
            | None => None
            | Some entry =>
                let tex_img := default new_device_vector entry in
                let '(dev, tex_img) :=
                  if device_pointer tex_img
                  then tex_free (device mgr) tex_img
                  else (device mgr, tex_img) in
                let '(loaded, tex_img) := file_load_image img type tex_img in
                let tex_img :=
                  if negb loaded
                  then (* on failure to load, we set a 1x1 pixels pink image *)
                       missing_image type tex_img
                  else tex_img in
                let '(dev, tex_img) :=
                  if negb (pack_images mgr)
                  then tex_alloc dev name tex_img
                         (interpolation img) (extension img)
                  else (dev, tex_img) in
                Some {| images := update_slot (images mgr) type slot
                                    (Some (set_need_load img false));
                        pack_images := pack_images mgr;
                        oiio_texture_system := oiio_texture_system mgr;
                        cuda_fermi_limits := cuda_fermi_limits mgr;
                        tex_image := update_slot (tex_image mgr) type slot
                                       (Some tex_img);
                        device := dev;
                        oiio_textures := oiio_textures mgr |}
            end
    end.
End ImageFunctions.

(* ===================================================================== *)
(** * device/device_cpu.cpp: task submission *)
(* ===================================================================== *)

Module Task.

(** [DeviceTask::Type]. *)
Inductive Type_ : Type := PATH_TRACE | FILM_CONVERT | SHADER.

Definition is_shader (t : Type_) : bool :=
  match t with SHADER => true | _ => false end.

(** [DeviceTask]: the type tag, the tile rectangle, the shader range and
    the sample count. *)
Record DeviceTask : Type := {
  type : Type_;
  x : Z; y : Z; w : Z; h : Z;
  shader_x : Z;
  shader_w : Z;
  num_samples : Z
}.

(** [CPUDeviceTask], device_cpu.cpp:456-463: a copy of a [DeviceTask]
    whose [run] is bound to [CPUDevice::thread_run] of the device. *)
Record CPUDeviceTask : Type := { task : DeviceTask }.

(** Modelled from the spec: [DeviceTask::split] and
    [DeviceTask::get_subtask_count] (device/device_task.cpp) and the
    default of their [max_size] argument are missing.  The spec says:
    "split it into N sub-tasks (N = worker count, optionally capped
    per-unit e.g. 256 pixels per shading sub-task)".  The units of a shader
    task are the pixels of its shader range, those of any other task the
    rows of its rectangle; [max_size = 0] is the absent cap. *)
Definition units (t : DeviceTask) : Z :=
  if is_shader (type t) then shader_w t else h t.

(** Modelled from the spec: [DeviceTask::get_subtask_count] is missing.
    "N sub-tasks (N = worker count, optionally capped per-unit)": [num]
    sub-tasks, or as many more as the cap on the units of one sub-task
    requires. *)
Definition get_subtask_count (t : DeviceTask) (num max_size : Z) : Z :=
  if max_size =? 0 then num
  else Z.max num ((units t + max_size - 1) / max_size).

(** Modelled from the spec: the sub-tasks made by [DeviceTask::split] are
    missing.  The [i]-th of [num] sub-tasks takes the [i]-th of [num]
    nearly equal slices of the units of [t]. *)
Definition sub_task (t : DeviceTask) (num i : Z) : DeviceTask :=
  let lo := units t * i / num in
  let hi := units t * (i + 1) / num in
  if is_shader (type t) then
    {| type := type t; x := x t; y := y t; w := w t; h := h t;
       shader_x := shader_x t + lo; shader_w := hi - lo;
       num_samples := num_samples t |}
  else
    {| type := type t; x := x t; y := y t + lo; w := w t; h := hi - lo;
       shader_x := shader_x t; shader_w := shader_w t;
       num_samples := num_samples t |}.

(** Modelled from the spec: [DeviceTask::split] is missing.  "split it
    into N sub-tasks (N = worker count, optionally capped per-unit e.g. 256
    pixels per shading sub-task)". *)
Definition split (t : DeviceTask) (num max_size : Z) : list DeviceTask :=
  let n := get_subtask_count t num max_size in
  map (fun i => sub_task t n (Z.of_nat i)) (seq 0 (Z.to_nat n)).

Section CPUDevice.
(** [TaskScheduler::num_threads()]. *)
Variable num_threads : Z.

(** [CPUDevice::get_split_task_count], device_cpu.cpp:832-838. *)
Definition get_split_task_count (t : DeviceTask) : Z :=
  if is_shader (type t)
  then get_subtask_count t num_threads 256
  else get_subtask_count t num_threads 0.

(** [CPUDevice::task_add], device_cpu.cpp:840-852, on the queue of
    [task_pool]. *)
Definition task_add (task_pool : list CPUDeviceTask) (t : DeviceTask)
    : list CPUDeviceTask :=
  let tasks :=
    if is_shader (type t)
    then split t num_threads 256
    else split t num_threads 0 in
  fold_left (fun pool sub => pool ++ [ {| task := sub |} ]) tasks task_pool.
End CPUDevice.

End Task.

(* ===================================================================== *)
(** * Predicates used in the statements *)
(* ===================================================================== *)

(** All bits of the mask [m] are set in the flag word [f]. *)
Definition flag_set (f m : Z) : Prop := Z.land f m = m.

(** Every flag bit outside the mask [m] has the same value in [f] and [f']. *)
Definition flags_agree_outside (m f f' : Z) : Prop :=
  forall n, 0 <= n -> Z.testbit m n = false -> Z.testbit f' n = Z.testbit f n.

(** Every flag bit set in [f] is set in [f']. *)
Definition flags_kept (f f' : Z) : Prop :=
  forall n, 0 <= n -> Z.testbit f n = true -> Z.testbit f' n = true.

Section PathStatePredicates.
Context `{KT : kernel_types}.
Variable integrator : KernelIntegrator.

(** Some bounce counter of a non-transparent ray has reached its maximum:
    the material's maximum for diffuse, glossy and transmission bounces
    when the shader overrides them, the integrator's otherwise. *)
Definition bounce_limit_reached (state : PathState) (sd : ShaderData) : Prop :=
  let override := truthy (Z.land (shader_flag sd) SD_SHADER_OVERRIDE_BOUNCES) in
  bounce state >= max_bounce integrator
  \/ diffuse_bounce state >=
       (if override then diffuse_bounces sd else max_diffuse_bounce integrator)
  \/ glossy_bounce state >=
       (if override then glossy_bounces sd else max_glossy_bounce integrator)
  \/ transmission_bounce state >=
       (if override then transmission_bounces sd
        else max_transmission_bounce integrator)
  \/ volume_bounce state >= max_volume_bounce integrator.

(** No bounce counter of a non-transparent ray has reached its maximum. *)
Definition below_bounce_limits (state : PathState) (sd : ShaderData) : Prop :=
  let override := truthy (Z.land (shader_flag sd) SD_SHADER_OVERRIDE_BOUNCES) in
  bounce state < max_bounce integrator
  /\ diffuse_bounce state <
       (if override then diffuse_bounces sd else max_diffuse_bounce integrator)
  /\ glossy_bounce state <
       (if override then glossy_bounces sd else max_glossy_bounce integrator)
  /\ transmission_bounce state <
       (if override then transmission_bounces sd
        else max_transmission_bounce integrator)
  /\ volume_bounce state < max_volume_bounce integrator.

(** The state is at neither boundary: a transparent ray strictly between
    the transparent minimum and maximum, any other ray below every maximum
    and above the minimum bounce count. *)
Definition roulette_range (state : PathState) (sd : ShaderData) : Prop :=
  if truthy (Z.land (flag state) PATH_RAY_TRANSPARENT)
  then transparent_min_bounce integrator < transparent_bounce state
         < transparent_max_bounce integrator
  else below_bounce_limits state sd
       /\ min_bounce integrator < bounce state.
End PathStatePredicates.

Section ShaderPredicates.
Context `{KT : kernel_types} `{CO : closure_ops}.

(** The summed weight of the transparent closures of an array, in the
    words of the specification: the closures of type
    [CLOSURE_BSDF_TRANSPARENT_ID] are selected and their weights added. *)
Definition transparent_weight (cl : list ShaderClosure) : float3 :=
  fold_right float3_add (make_float3 0 0 0)
    (map weight
       (filter (fun sc => type sc = CLOSURE_BSDF_TRANSPARENT_ID) cl)).

(** The summed sample weight of the BSDF closures of an array. *)
Definition bsdf_weight (cl : list ShaderClosure) : Q :=
  fold_right Qplus 0%Q
    (map sample_weight
       (filter (fun sc => CLOSURE_IS_BSDF (type sc) = true) cl)).

(** The pdfs of the BSDF closures of an array in the direction [omega],
    each multiplied by the sample weight of its closure, summed. *)
Definition bsdf_pdf_weight (sd : ShaderData) (omega : float3)
    (cl : list ShaderClosure) : Q :=
  fold_right Qplus 0%Q
    (map (fun sc => ((bsdf_eval sd sc omega).2 * sample_weight sc)%Q)
       (filter (fun sc => CLOSURE_IS_BSDF (type sc) = true) cl)).

(** A channel clamped into [0, 1], and a colour clamped channel-wise. *)
Definition clamp_unit (q : Q) : Q :=
  if Qle_bool q 0 then 0%Q else if Qle_bool 1 q then 1%Q else q.
Definition clamp_unit3 (a : float3) : float3 :=
  make_float3 (clamp_unit (x a)) (clamp_unit (y a)) (clamp_unit (z a)).

(** Every channel lies in [0, 1]. *)
Definition in_unit_cube (a : float3) : Prop :=
  (0 <= x a <= 1 /\ 0 <= y a <= 1 /\ 0 <= z a <= 1)%Q.
End ShaderPredicates.

(** A closure whose sample weight is nonnegative and whose pdf, as
    [bsdf_eval] reports it at the shading point [sd], is nonnegative in
    every direction. *)
Definition nonneg_closure `{closure_ops} (sd : ShaderData) (c : ShaderClosure)
    : Prop :=
  (0 <= sample_weight c)%Q /\ forall omega, (0 <= (bsdf_eval sd c omega).2)%Q.

Section MergePredicates.
Context `{KT : kernel_types} `{CO : closure_ops}.

(** The effect of one inner scan on the closure [sci] at index [i] and on
    the closures [rest] from the scan position on: the closure with every
    absorbed weight added, and the closures left in place. *)
Fixpoint absorb (sci : ShaderClosure) (rest : list ShaderClosure)
    : ShaderClosure * list ShaderClosure :=
  match rest with
  | [] => (sci, [])
  | scj :: rest' =>
      if mergeable sci scj then absorb (merge_into sci scj) rest'
      else let '(s, r) := absorb sci rest' in (s, scj :: r)
  end.

(** The effect of the outer loop on the closures from index [i] on. *)
Fixpoint merge_all (fuel : nat) (cl : list ShaderClosure)
    : list ShaderClosure :=
  match fuel, cl with
  | S fuel', sci :: rest =>
      let '(s, r) := absorb sci rest in s :: merge_all fuel' r
  | _, _ => cl
  end.

(** The number of closures one inner scan merges into [sci], and the
    number of merges of the whole run. *)
Fixpoint absorb_count (sci : ShaderClosure) (rest : list ShaderClosure) : nat :=
  match rest with
  | [] => 0
  | scj :: rest' =>
      if mergeable sci scj then S (absorb_count (merge_into sci scj) rest')
      else absorb_count sci rest'
  end.

Fixpoint merge_count (fuel : nat) (cl : list ShaderClosure) : nat :=
  match fuel, cl with
  | S fuel', sci :: rest =>
      absorb_count sci rest + merge_count fuel' (absorb sci rest).2
  | _, _ => 0
  end.

(** No closure of the list merges with a later one. *)
Definition merge_free (cl : list ShaderClosure) : Prop :=
  ForallOrdPairs (fun sci scj => mergeable sci scj = false) cl.

(** In [pre ++ a :: mid ++ b :: post] the closures [a] and [b] are the one
    pair that the scan merges: [a] and [b] merge, no two of the other
    closures do, nothing before [a] merges with [b], and the merged closure
    merges with nothing after [b]. *)
Definition sole_mergeable_pair (pre : list ShaderClosure) (a : ShaderClosure)
    (mid : list ShaderClosure) (b : ShaderClosure) (post : list ShaderClosure)
    : Prop :=
  mergeable a b = true
  /\ merge_free (pre ++ a :: mid ++ post)
  /\ Forall (fun sc => mergeable sc b = false) pre
  /\ Forall (fun sc => mergeable (merge_into a b) sc = false) post.

(** Sums over a closure array. *)
Definition total_weight (cl : list ShaderClosure) : float3 :=
  fold_right float3_add (make_float3 0 0 0) (map weight cl).
Definition total_sample_weight (cl : list ShaderClosure) : Q :=
  fold_right Qplus 0%Q (map sample_weight cl).

(** The type and defining parameters of a closure, without its weights. *)
Definition lobe_of (sc : ShaderClosure) : Z * Q * Q * Q * float3 :=
  (type sc, data0 sc, data1 sc, data2 sc, N sc).
End MergePredicates.

(* ===================================================================== *)
(** * Concrete inputs *)
(* ===================================================================== *)

Definition sample_integrator : KernelIntegrator :=
  {| min_bounce := 1; max_bounce := 8; max_diffuse_bounce := 4;
     max_glossy_bounce := 4; max_transmission_bounce := 8;
     max_volume_bounce := 2; transparent_min_bounce := 2;
     transparent_max_bounce := 8; transparent_shadows := 0 |}.

(** A camera ray before its first bounce, as [path_state_init] leaves it
    when the denoising pass is off. *)
Definition camera_state : PathState :=
  {| flag := 1 + 4096 (* PATH_RAY_CAMERA|PATH_RAY_MIS_SKIP *); rng_hash := 0;
     rng_offset := 4;
     sample := 0; num_samples := 16; bounce := 0; diffuse_bounce := 0;
     glossy_bounce := 0; transmission_bounce := 0; transparent_bounce := 0;
     volume_bounce := 0; volume_bounds_bounce := 0;
     denoising_feature_weight := 0; min_ray_pdf := 1000; ray_pdf := 0;
     matte_weight := 1; written_aovs := 0 |}.

(** The ray after a first, diffuse reflection. *)
Definition first_diffuse_state : PathState :=
  {| flag := 2 + 8 + 8192
       (* PATH_RAY_REFLECT|PATH_RAY_DIFFUSE|PATH_RAY_DIFFUSE_ANCESTOR *);
     rng_hash := 0; rng_offset := 12; sample := 0; num_samples := 16;
     bounce := 1; diffuse_bounce := 1; glossy_bounce := 0;
     transmission_bounce := 0; transparent_bounce := 0; volume_bounce := 0;
     volume_bounds_bounce := 0; denoising_feature_weight := 0;
     min_ray_pdf := 1000; ray_pdf := 0; matte_weight := 1;
     written_aovs := 0 |}.

(** A reflected glossy ray after three bounces. *)
Definition third_bounce_state : PathState :=
  {| flag := 2 + 16 (* PATH_RAY_REFLECT|PATH_RAY_GLOSSY *); rng_hash := 0;
     rng_offset := 28; sample := 0; num_samples := 16; bounce := 3;
     diffuse_bounce := 1; glossy_bounce := 2; transmission_bounce := 0;
     transparent_bounce := 0; volume_bounce := 0; volume_bounds_bounce := 0;
     denoising_feature_weight := 0; min_ray_pdf := 1; ray_pdf := 1;
     matte_weight := 1; written_aovs := 0 |}.

(** A material that overrides the bounce limits: one diffuse bounce. *)
Definition override_shader_data : ShaderData :=
  {| shader_flag := 1 (* SD_SHADER_OVERRIDE_BOUNCES *); diffuse_bounces := 1;
     glossy_bounces := 4; transmission_bounces := 8; randb_closure := 0;
     closure := [] |}.

Definition plain_shader_data : ShaderData :=
  {| shader_flag := 0; diffuse_bounces := 0; glossy_bounces := 0;
     transmission_bounces := 0; randb_closure := 0; closure := [] |}.

Definition float3_eqb (a b : float3) : bool :=
  Qeq_bool (x a) (x b) && Qeq_bool (y a) (y b) && Qeq_bool (z a) (z b).

(** Closure functions for lobes of constant density: a closure keeps its
    density in [data0] and evaluates to it in every direction; sampling
    returns the lobe normal with that density; two lobes merge when their
    parameters agree; a [BsdfEval] is the accumulated colour. *)
Definition constant_density_ops : closure_ops := {|
  BsdfEval := float3;
  bsdf_eval_init := fun _ value _ => value;
  bsdf_eval_accum := fun result _ value mis_weight =>
    float3_add result
      (float3_mul value (make_float3 mis_weight mis_weight mis_weight));
  bsdf_merge := fun a b =>
    Qeq_bool (data0 a) (data0 b) && Qeq_bool (data1 a) (data1 b)
    && Qeq_bool (data2 a) (data2 b) && float3_eqb (N a) (N b);
  bsdf_eval := fun _ sc _ =>
    (make_float3 (data0 sc) (data0 sc) (data0 sc), data0 sc);
  bsdf_sample := fun _ sc _ _ _ domega_in =>
    {| bs_label := 2 + 4 (* LABEL_REFLECT|LABEL_DIFFUSE *);
       bs_eval := make_float3 (data0 sc) (data0 sc) (data0 sc);
       bs_omega_in := N sc; bs_domega_in := domega_in;
       bs_pdf := data0 sc |}
|}.

(** A closure of the given type, weight, sample weight and density. *)
Definition lobe (t : Z) (w sw density : Q) : ShaderClosure :=
  {| weight := make_float3 w w w; type := t; sample_weight := sw;
     data0 := density; data1 := 0; data2 := 0; N := make_float3 0 0 1 |}.

Definition shader_data_of (cl : list ShaderClosure) (randb : Q) : ShaderData :=
  {| shader_flag := 0; diffuse_bounces := 0; glossy_bounces := 0;
     transmission_bounces := 0; randb_closure := randb; closure := cl |}.

Definition zero_differential : differential3 :=
  {| dx := make_float3 0 0 0; dy := make_float3 0 0 0 |}.

(** [enum ImageDataType] numbered in the order of its declaration here. *)
Definition sample_image_type_value (type : ImageDataType) : Z :=
  match type with
  | IMAGE_DATA_TYPE_FLOAT4 => 0
  | IMAGE_DATA_TYPE_BYTE4 => 1
  | IMAGE_DATA_TYPE_HALF4 => 2
  | IMAGE_DATA_TYPE_FLOAT => 3
  | IMAGE_DATA_TYPE_BYTE => 4
  | IMAGE_DATA_TYPE_HALF => 5
  | IMAGE_DATA_TYPE_USHORT4 => 6
  | IMAGE_DATA_TYPE_USHORT => 7
  end.

(** A file image whose file cannot be read. *)
Definition missing_file_image : Image :=
  {| filename := "missing.png"; builtin_data := false; need_load := true;
     interpolation := 1; extension := 0 |}.

(** An image manager holding that image in slot 0 of the byte4 images,
    with a device scene vector of one null entry and nothing bound on the
    device. *)
Definition manager_with_missing_image (pack oiio : bool) : ImageManager :=
  {| images := fun t =>
       if ImageDataType_eqb t IMAGE_DATA_TYPE_BYTE4
       then [Some missing_file_image] else [];
     pack_images := pack;
     oiio_texture_system := oiio;
     cuda_fermi_limits := false;
     tex_image := fun t =>
       if ImageDataType_eqb t IMAGE_DATA_TYPE_BYTE4 then [None] else [];
     device := ∅;
     oiio_textures := ∅ |}.

(** No file can be read and no OIIO handle is good. *)
Definition unreadable : Image -> ImageDataType -> Z -> option (Z * Z * Z * list Q) :=
  fun _ _ _ => None.
Definition no_good_handle : Image -> bool := fun _ => false.

(** A shader evaluation task over 767 pixels and a film conversion task
    over a 64x48 rectangle. *)
Definition shader_task_767 : Task.DeviceTask :=
  {| Task.type := Task.SHADER; Task.x := 0; Task.y := 0; Task.w := 0;
     Task.h := 0; Task.shader_x := 0; Task.shader_w := 767;
     Task.num_samples := 1 |}.
Definition film_task_64x48 : Task.DeviceTask :=
  {| Task.type := Task.FILM_CONVERT; Task.x := 0; Task.y := 0; Task.w := 64;
     Task.h := 48; Task.shader_x := 0; Task.shader_w := 0;
     Task.num_samples := 1 |}.

(* ===================================================================== *)
(** * kernel_path_state.h: initialisation, volume bounds, visibility *)
(* ===================================================================== *)

(** Conversion of an [int] to [uint]: the value modulo 2^32. *)
Definition uint_wrap (z : Z) : Z := z mod 2 ^ 32.

Definition set_volume_bounds_bounce (s : PathState) (v : Z) : PathState :=
  {| flag := flag s; rng_hash := rng_hash s; rng_offset := rng_offset s;
     sample := sample s; num_samples := num_samples s; bounce := bounce s;
     diffuse_bounce := diffuse_bounce s; glossy_bounce := glossy_bounce s;
     transmission_bounce := transmission_bounce s;
     transparent_bounce := transparent_bounce s;
     volume_bounce := volume_bounce s;
     volume_bounds_bounce := v;
     denoising_feature_weight := denoising_feature_weight s;
     min_ray_pdf := min_ray_pdf s; ray_pdf := ray_pdf s;
     matte_weight := matte_weight s; written_aovs := written_aovs s |}.

Section PathStateSetup.
Context `{KT : kernel_types}.
(* kernel_types.h and util_types.h constants read here *)
Variable PRNG_BASE_NUM : Z.
Variable VOLUME_BOUNDS_MAX : Z.
Variable PATH_RAY_ALL_VISIBILITY : Z.
Variable FLT_MAX : Q.
(* kernel_data.integrator.aa_samples and kernel_data.film.pass_denoising *)
Variable aa_samples : Z.
Variable pass_denoising : Z.

(** [path_state_init], kernel_path_state.h:19-76, on the fields of
    [PathState]; the volume stack and the shadow-catcher object, which no
    function embedded here reads, are left out. *)
Definition path_state_init (rng_hash : Z) (sample : Z) : PathState :=
  let flag0 := Z.lor PATH_RAY_CAMERA PATH_RAY_MIS_SKIP in
  {| flag :=
       if truthy pass_denoising
       then Z.lor flag0 PATH_RAY_STORE_SHADOW_INFO else flag0;
     rng_hash := rng_hash;
     rng_offset := PRNG_BASE_NUM;
     sample := sample;
     num_samples := aa_samples;
     bounce := 0;
     diffuse_bounce := 0;
     glossy_bounce := 0;
     transmission_bounce := 0;
     transparent_bounce := 0;
     volume_bounce := 0;
     volume_bounds_bounce := 0;
     denoising_feature_weight := if truthy pass_denoising then 1%Q else 0%Q;
     min_ray_pdf := FLT_MAX;
     ray_pdf := 0;
     matte_weight := 1;
     written_aovs := 0 |}.

(** [path_state_volume_next], kernel_path_state.h:152-167: the return value
    and the state it leaves. *)
Definition path_state_volume_next (state : PathState) : bool * PathState :=
  let state :=
    set_volume_bounds_bounce state (int_add (volume_bounds_bounce state) 1) in
  if volume_bounds_bounce state >? VOLUME_BOUNDS_MAX then (false, state)
  else
    (* Random number generator next bounce. *)
    let state :=
      if volume_bounds_bounce state >? 1
      then set_rng_offset state (int_add (rng_offset state) PRNG_BOUNCE_NUM)
      else state in
    (true, state).

(** The loop of the path integrator over bounding meshes: [n] calls of
    [path_state_volume_next], given up at the first one that returns
    false. *)
Fixpoint path_state_volume_run (n : nat) (state : PathState)
    : option PathState :=
  match n with
  | O => Some state
  | S n' =>
      match path_state_volume_run n' state with
      | Some state' =>
          let '(ok, state'') := path_state_volume_next state' in
          if ok then Some state'' else None
      | None => None
      end
  end.

(** [path_state_ray_visibility], kernel_path_state.h:169-181. *)
Definition path_state_ray_visibility (state : PathState) : Z :=
  let flag0 := uint_wrap (Z.land (flag state) PATH_RAY_ALL_VISIBILITY) in
  (* for visibility, diffuse/glossy are for reflection only *)
  let flag1 :=
    if truthy (Z.land flag0 (uint_wrap PATH_RAY_TRANSMIT))
    then Z.land flag0
           (uint_wrap (Z.lnot (Z.lor PATH_RAY_DIFFUSE PATH_RAY_GLOSSY)))
    else flag0 in
  if truthy (Z.land (flag state) PATH_RAY_VOLUME_SCATTER)
  then Z.lor flag1 (uint_wrap PATH_RAY_DIFFUSE)
  else flag1.
End PathStateSetup.

(** [path_state_modify_bounce], kernel_path_state.h:225-232. *)
Definition path_state_modify_bounce (state : PathState) (increase : bool)
    : PathState :=
  if increase then set_bounce state (int_add (bounce state) 1)
  else set_bounce state (int_sub (bounce state) 1).

Section PathCounts.
Context `{KT : kernel_types}.

(** The labels of a path that pass through a transparent surface, and the
    other ones, which are scattering events. *)
Definition is_transparent_label (label : Z) : bool :=
  truthy (Z.land label LABEL_TRANSPARENT).
Definition transparent_passes (labels : list Z) : nat :=
  length (List.filter is_transparent_label labels).
Definition scatter_events (labels : list Z) : nat :=
  length (List.filter (fun l => negb (is_transparent_label l)) labels).

(** The flags that tell the type of a ray. *)
Definition ray_type_flags : list Z :=
  [ PATH_RAY_REFLECT; PATH_RAY_TRANSMIT; PATH_RAY_VOLUME_SCATTER;
    PATH_RAY_CAMERA; PATH_RAY_TRANSPARENT; PATH_RAY_DIFFUSE; PATH_RAY_GLOSSY;
    PATH_RAY_SINGULAR; PATH_RAY_MIS_SKIP ].

(** The flags that [path_state_next] sets somewhere, the camera flag not
    being one of them. *)
Definition set_path_ray_flags : list Z :=
  [ PATH_RAY_TRANSPARENT; PATH_RAY_MIS_SKIP; PATH_RAY_VOLUME_SCATTER;
    PATH_RAY_REFLECT; PATH_RAY_TRANSMIT; PATH_RAY_DIFFUSE;
    PATH_RAY_DIFFUSE_ANCESTOR; PATH_RAY_GLOSSY; PATH_RAY_SINGULAR ].

(** The camera flag shares no bit with a flag that [path_state_next] sets. *)
Definition camera_flag_distinct : Prop :=
  Forall (fun m => Z.land PATH_RAY_CAMERA m = 0) set_path_ray_flags.
End PathCounts.

(** The counters of a path that has made [nr] scattering events and [nt]
    transparent passes. *)
Definition counters_exact (s : PathState) (nr nt : Z) : Prop :=
  bounce s = nr /\ transparent_bounce s = nt
  /\ 0 <= diffuse_bounce s /\ 0 <= glossy_bounce s
  /\ 0 <= transmission_bounce s /\ 0 <= volume_bounce s
  /\ diffuse_bounce s + glossy_bounce s + transmission_bounce s
     + volume_bounce s = nr.

(* ===================================================================== *)
(** * kernel_shader.h: closure queries and light evaluation *)
(* ===================================================================== *)

(** svm_types.h: the closure classification macros of the colour queries,
    and the number of built-in closures. *)
Class closure_kinds : Type := {
  CLOSURE_IS_BSDF_DIFFUSE : Z -> bool;
  CLOSURE_IS_BSDF_GLOSSY : Z -> bool;
  CLOSURE_IS_BSDF_TRANSMISSION : Z -> bool;
  CLOSURE_IS_BSDF_BSSRDF : Z -> bool;
  CLOSURE_IS_BSSRDF : Z -> bool;
  CLOSURE_IS_HOLDOUT : Z -> bool;
  NBUILTIN_CLOSURES : Z
}.

(** kernel_montecarlo.h and kernel_accumulate.h: the MIS weight and its
    application to an accumulated evaluation. *)
Class mis_ops `{closure_ops} : Type := {
  power_heuristic : Q -> Q -> Q;
  bsdf_eval_mis : BsdfEval -> Q -> BsdfEval
}.

Section ShaderQueries.
Context `{KT : kernel_types} `{CO : closure_ops} `{CK : closure_kinds}.
Context `{MO : !mis_ops}.
(** [kernel_data.film.use_light_pass] and [kernel_data.integrator.branched]. *)
Variable use_light_pass : Z.
Variable branched : Z.

(** The loop shared by the colour queries, kernel_shader.h:858-863 and its
    copies: the weights of the closures whose type passes [is_kind], added
    to [eval] in array order. *)
Fixpoint closure_weight_sum (is_kind : Z -> bool) (cl : list ShaderClosure)
    (eval : float3) : float3 :=
  match cl with
  | [] => eval
  | sc :: rest =>
      closure_weight_sum is_kind rest
        (if is_kind (type sc) then float3_add eval (weight sc) else eval)
  end.

(** [shader_bsdf_diffuse], kernel_shader.h:854-866. *)
Definition shader_bsdf_diffuse (sd : ShaderData) : float3 :=
  closure_weight_sum CLOSURE_IS_BSDF_DIFFUSE (closure sd) (make_float3 0 0 0).

(** [shader_bsdf_glossy], kernel_shader.h:868-880. *)
Definition shader_bsdf_glossy (sd : ShaderData) : float3 :=
  closure_weight_sum CLOSURE_IS_BSDF_GLOSSY (closure sd) (make_float3 0 0 0).

(** [shader_bsdf_transmission], kernel_shader.h:882-894. *)
Definition shader_bsdf_transmission (sd : ShaderData) : float3 :=
  closure_weight_sum CLOSURE_IS_BSDF_TRANSMISSION (closure sd)
    (make_float3 0 0 0).

(** [shader_bsdf_subsurface], kernel_shader.h:896-908. *)
Definition shader_bsdf_subsurface (sd : ShaderData) : float3 :=
  closure_weight_sum
    (fun t => CLOSURE_IS_BSSRDF t || CLOSURE_IS_BSDF_BSSRDF t)
    (closure sd) (make_float3 0 0 0).

(** [shader_holdout_eval], kernel_shader.h:993-1005. *)
Definition shader_holdout_eval (sd : ShaderData) : float3 :=
  closure_weight_sum CLOSURE_IS_HOLDOUT (closure sd) (make_float3 0 0 0).

(** The loop body of [shader_bsdf_disable_transparency],
    kernel_shader.h:835-840, on one closure. *)
Definition disable_transparent (sc : ShaderClosure) : ShaderClosure :=
  if type sc =? CLOSURE_BSDF_TRANSPARENT_ID then
    {| weight := make_float3 0 0 0; type := type sc; sample_weight := 0;
       data0 := data0 sc; data1 := data1 sc; data2 := data2 sc; N := N sc |}
  else sc.

(** [shader_bsdf_disable_transparency], kernel_shader.h:832-842. *)
Definition shader_bsdf_disable_transparency (sd : ShaderData) : ShaderData :=
  set_closure sd (map disable_transparent (closure sd)).

(** [shader_bsdf_sample_closure], kernel_shader.h:789-803; the arguments
    [bsdf_eval0], [omega_in0], [domega_in0] are what the out-parameters
    hold on entry. *)
Definition shader_bsdf_sample_closure (sd : ShaderData) (sc : ShaderClosure)
    (randu randv : Q) (bsdf_eval0 : BsdfEval) (omega_in0 : float3)
    (domega_in0 : differential3) : ShaderSample :=
  let s := bsdf_sample sd sc randu randv omega_in0 domega_in0 in
  {| out_label := bs_label s;
     out_bsdf_eval :=
       if float_nonzero (bs_pdf s)
       then bsdf_eval_init (type sc) (float3_mul (bs_eval s) (weight sc))
              use_light_pass
       else bsdf_eval0;
     out_omega_in := bs_omega_in s;
     out_domega_in := bs_domega_in s;
     out_pdf := bs_pdf s |}.

(** [_shader_bsdf_multi_eval_branched], kernel_shader.h:674-695. *)
Fixpoint _shader_bsdf_multi_eval_branched (sd : ShaderData) (omega_in : float3)
    (cl : list ShaderClosure) (result_eval : BsdfEval) (light_pdf : Q)
    (use_mis : bool) : BsdfEval :=
  match cl with
  | [] => result_eval
  | sc :: rest =>
      let result_eval :=
        if CLOSURE_IS_BSDF (type sc) then
          let '(eval, bsdf_pdf) := bsdf_eval sd sc omega_in in
          if float_nonzero bsdf_pdf then
            let mis_weight :=
              if use_mis then power_heuristic light_pdf bsdf_pdf else 1%Q in
            bsdf_eval_accum result_eval (type sc)
              (float3_mul eval (weight sc)) mis_weight
          else result_eval
        else result_eval in
      _shader_bsdf_multi_eval_branched sd omega_in rest result_eval light_pdf
        use_mis
  end.

(** [shader_bsdf_eval], kernel_shader.h:704-726: the value left in [eval]. *)
Definition shader_bsdf_eval (sd : ShaderData) (omega_in : float3)
    (light_pdf : Q) (use_mis : bool) : BsdfEval :=
  let eval :=
    bsdf_eval_init NBUILTIN_CLOSURES (make_float3 0 0 0) use_light_pass in
  if truthy branched then
    _shader_bsdf_multi_eval_branched sd omega_in (closure sd) eval light_pdf
      use_mis
  else
    let '(eval, pdf) := _shader_bsdf_multi_eval sd omega_in (-1) eval 0 0 in
    if use_mis then bsdf_eval_mis eval (power_heuristic light_pdf pdf)
    else eval.
End ShaderQueries.

(** The weights of the closures whose type passes [is_kind], summed. *)
Definition kind_weight (is_kind : Z -> bool) (cl : list ShaderClosure)
    : float3 :=
  fold_right float3_add (make_float3 0 0 0)
    (map weight (List.filter (fun sc => is_kind (type sc)) cl)).

(* ===================================================================== *)
(** * render/image.cpp: the image registry *)
(* ===================================================================== *)

Module Registry.

(** [ImageManager::Image] with all its fields.  The pointers
    [builtin_data] and [generated_data] are addresses, 0 for null. *)
Record Image : Type := {
  filename : string;
  builtin_data : Z;
  generated_data : Z;
  need_load : bool;
  animated : bool;
  frame : Q;
  interpolation : Z;
  extension : Z;
  users : Z;
  use_alpha : bool;
  srgb : bool
}.

(** The members of [ImageManager] that registering and releasing images
    read and write.  A [None] entry of [images] is a null pointer. *)
Record ImageManager : Type := {
  images : ImageDataType -> list (option Image);
  tex_num_images : ImageDataType -> Z;
  need_update : bool;
  has_half_images : bool;
  cuda_fermi_limits : bool;
  max_num_images : Z
}.

(** [DeviceScene]: the per-type vectors of device images. *)
Definition DeviceImages : Type := ImageDataType -> list (option device_vector).

(** The arguments by which [image_equals] identifies an image. *)
Record ImageKey : Type := {
  key_filename : string;
  key_builtin_data : Z;
  key_generated_data : Z;
  key_interpolation : Z;
  key_extension : Z
}.

(** The enumerators of [ImageDataType], [IMAGE_DATA_NUM_TYPES] of them. *)
Definition all_image_types : list ImageDataType :=
  [ IMAGE_DATA_TYPE_FLOAT4; IMAGE_DATA_TYPE_BYTE4; IMAGE_DATA_TYPE_HALF4;
    IMAGE_DATA_TYPE_FLOAT; IMAGE_DATA_TYPE_BYTE; IMAGE_DATA_TYPE_HALF;
    IMAGE_DATA_TYPE_USHORT4; IMAGE_DATA_TYPE_USHORT ].

(** Conversion of an [int] to [size_t]. *)
Definition size_t_wrap (z : Z) : Z := z mod 2 ^ 64.

Definition set_images (mgr : ImageManager)
    (f : ImageDataType -> list (option Image)) : ImageManager :=
  {| images := f; tex_num_images := tex_num_images mgr;
     need_update := need_update mgr; has_half_images := has_half_images mgr;
     cuda_fermi_limits := cuda_fermi_limits mgr;
     max_num_images := max_num_images mgr |}.

Definition set_tex_num_images (mgr : ImageManager)
    (f : ImageDataType -> Z) : ImageManager :=
  {| images := images mgr; tex_num_images := f;
     need_update := need_update mgr; has_half_images := has_half_images mgr;
     cuda_fermi_limits := cuda_fermi_limits mgr;
     max_num_images := max_num_images mgr |}.

Definition set_need_update (mgr : ImageManager) (b : bool) : ImageManager :=
  {| images := images mgr; tex_num_images := tex_num_images mgr;
     need_update := b; has_half_images := has_half_images mgr;
     cuda_fermi_limits := cuda_fermi_limits mgr;
     max_num_images := max_num_images mgr |}.

Definition set_users (img : Image) (n : Z) : Image :=
  {| filename := filename img; builtin_data := builtin_data img;
     generated_data := generated_data img; need_load := need_load img;
     animated := animated img; frame := frame img;
     interpolation := interpolation img; extension := extension img;
     users := n; use_alpha := use_alpha img; srgb := srgb img |}.

(** [img->frame = frame; img->need_load = true]. *)
Definition set_frame_reload (img : Image) (f : Q) : Image :=
  {| filename := filename img; builtin_data := builtin_data img;
     generated_data := generated_data img; need_load := true;
     animated := animated img; frame := f;
     interpolation := interpolation img; extension := extension img;
     users := users img; use_alpha := use_alpha img; srgb := srgb img |}.

(** [img->use_alpha = use_alpha; img->need_load = true]. *)
Definition set_use_alpha_reload (img : Image) (a : bool) : Image :=
  {| filename := filename img; builtin_data := builtin_data img;
     generated_data := generated_data img; need_load := true;
     animated := animated img; frame := frame img;
     interpolation := interpolation img; extension := extension img;
     users := users img; use_alpha := a; srgb := srgb img |}.

(** [image_equals], image.cpp:333-345. *)
Definition image_equals (image : Image) (key : ImageKey) : bool :=
  bool_decide (filename image = key_filename key)
  && (builtin_data image =? key_builtin_data key)
  && (generated_data image =? key_generated_data key)
  && (interpolation image =? key_interpolation key)
  && (extension image =? key_extension key).

(** The loop "Find existing image", image.cpp:385-405: the first slot from
    [slot] on whose image is set and equals the key, with that image. *)
Fixpoint find_existing (imgs : list (option Image)) (slot : nat)
    (key : ImageKey) : option (nat * Image) :=
  match imgs with
  | [] => None
  | entry :: rest =>
      match entry with
      | Some img =>
          if image_equals img key then Some (slot, img)
          else find_existing rest (S slot) key
      | None => find_existing rest (S slot) key
      end
  end.

(** The loop "Find free slot", image.cpp:408-411: the value of [slot] when
    the loop ends, which is the size of the vector when no slot is free. *)
Fixpoint find_free_slot (imgs : list (option Image)) (slot : nat) : nat :=
  match imgs with
  | [] => slot
  | None :: _ => slot
  | Some _ :: rest => find_free_slot rest (S slot)
  end.

(** [ImageManager::device_free_image], image.cpp:1096-1182, with the
    manager's [oiio_texture_system] pointer as a flag.  The eight branches
    on [type] are the same code on the vector of their type.  The result is
    [None] where the C++ indexes [images] out of range. *)
Definition device_free_image (oiio_texture_system : bool) (mgr : ImageManager)
    (dscene : DeviceImages) (device : CPUDevice) (type : ImageDataType)
    (slot : nat) : option (ImageManager * DeviceImages * CPUDevice) :=
  match images mgr type !! slot with
  | None => None
  | Some None => Some (mgr, dscene, device)
  | Some (Some img) =>
      let '(dscene, device) :=
        if oiio_texture_system && (builtin_data img =? 0) then (dscene, device)
        else
          match dscene type !! slot with
          | None => (dscene, device)
          | Some tex_img =>
              let dscene := update_slot dscene type slot None in
              match tex_img with
              | Some v =>
                  if device_pointer v then (dscene, (tex_free device v).1)
                  else (dscene, device)
              | None => (dscene, device)
              end
          end in
      let mgr := set_images mgr (update_slot (images mgr) type slot None) in
      let mgr :=
        set_tex_num_images mgr
          (fun t => if ImageDataType_eqb t type
                    then int_sub (tex_num_images mgr t) 1
                    else tex_num_images mgr t) in
      Some (mgr, dscene, device)
  end.

(** [DeviceType] and [DeviceInfo] of device.h, as the constructor reads
    them. *)
Inductive DeviceType : Type :=
  | DEVICE_NONE | DEVICE_CPU | DEVICE_OPENCL | DEVICE_CUDA | DEVICE_NETWORK
  | DEVICE_MULTI.

#[warnings="-register-all"] Inductive DeviceInfo : Type :=
  Build_DeviceInfo (type : DeviceType) (has_bindless_textures : bool)
    (multi_devices : list DeviceInfo).

Definition info_type (info : DeviceInfo) : DeviceType :=
  let 'Build_DeviceInfo type _ _ := info in type.
Definition info_has_bindless_textures (info : DeviceInfo) : bool :=
  let 'Build_DeviceInfo _ b _ := info in b.
Definition info_multi_devices (info : DeviceInfo) : list DeviceInfo :=
  let 'Build_DeviceInfo _ _ l := info in l.

(** [ImageManager::ImageManager], image.cpp:36-72, with [TEX_NUM_MAX] of
    util_texture.h; [None] where [multi_devices[0]] does not exist. *)
Definition new_ImageManager (TEX_NUM_MAX : Z) (info : DeviceInfo)
    : option ImageManager :=
  let device_type :=
    match info_type info with
    | DEVICE_MULTI =>
        match info_multi_devices info with
        | first :: _ => Some (info_type first)
        | [] => None
        end
    | t => Some t
    end in
  match device_type with
  | None => None
  | Some device_type =>
      let '(has_half_images, cuda_fermi_limits) :=
        match device_type with
        | DEVICE_CUDA =>
            if negb (info_has_bindless_textures info) then (false, true)
            else (true, false)
        | DEVICE_OPENCL => (false, false)
        | _ => (true, false)
        end in
      Some {| images := fun _ => [];
              tex_num_images := fun _ => 0;
              need_update := true;
              has_half_images := has_half_images;
              cuda_fermi_limits := cuda_fermi_limits;
              max_num_images := TEX_NUM_MAX |}
  end.

(** The arguments of one call of [add_image]. *)
Record AddRequest : Type := {
  req_key : ImageKey;
  req_animated : bool;
  req_frame : Q;
  req_use_alpha : bool;
  req_srgb : bool
}.

Section RegistryFunctions.
(** The values of [enum ImageDataType], and the enumerator that
    [static_cast<ImageDataType>] gives for a value, if there is one. *)
Variable image_type_value : ImageDataType -> Z.
Variable image_type_of_value : Z -> option ImageDataType.
(** [get_image_metadata], image.cpp:147-251, which asks the file system
    and the image readers: the type found and the value left in
    [is_linear]. *)
Variable get_image_metadata : string -> Z -> Z -> ImageDataType * bool.
(** util_texture.h: the CUDA Fermi limits. *)
Variables TEX_NUM_BYTE4_CUDA TEX_NUM_FLOAT4_CUDA : Z.

(** [type_index_to_flattened_slot], image.cpp:282-294. *)
Definition type_index_to_flattened_slot (mgr : ImageManager) (slot : Z)
    (type : ImageDataType) : Z :=
  if cuda_fermi_limits mgr then
    if ImageDataType_eqb type IMAGE_DATA_TYPE_BYTE4 then slot + 5 else slot
  else Z.lor (Z.shiftl slot 3) (image_type_value type).


(** The type under which [add_image] files an image of the type the
    metadata report, image.cpp:369-382. *)
Definition filed_type (mgr : ImageManager) (type : ImageDataType)
    : ImageDataType :=
  let type :=
    if ImageDataType_eqb type IMAGE_DATA_TYPE_HALF4
       && negb (has_half_images mgr)
    then IMAGE_DATA_TYPE_FLOAT4
    else if ImageDataType_eqb type IMAGE_DATA_TYPE_HALF
            && negb (has_half_images mgr)
    then IMAGE_DATA_TYPE_FLOAT
    else type in
  if ImageDataType_eqb type IMAGE_DATA_TYPE_FLOAT && cuda_fermi_limits mgr
  then IMAGE_DATA_TYPE_FLOAT4
  else if ImageDataType_eqb type IMAGE_DATA_TYPE_BYTE && cuda_fermi_limits mgr
  then IMAGE_DATA_TYPE_BYTE4
  else type.

(** The type under which [add_image] files the image of a key. *)
Definition key_type (mgr : ImageManager) (key : ImageKey) : ImageDataType :=
  filed_type mgr
    (get_image_metadata (key_filename key) (key_builtin_data key)
       (key_generated_data key)).1.

(** "Count if we're over the limit", image.cpp:413-434. *)
Definition over_limit (mgr : ImageManager) : bool :=
  if cuda_fermi_limits mgr then
    (tex_num_images mgr IMAGE_DATA_TYPE_BYTE4 =? TEX_NUM_BYTE4_CUDA)
    || (tex_num_images mgr IMAGE_DATA_TYPE_FLOAT4 =? TEX_NUM_FLOAT4_CUDA)
  else
    let tex_count :=
      fold_left (fun count type => int_add count (tex_num_images mgr type))
        all_image_types 0 in
    tex_count >? max_num_images mgr.

(** What [add_image] returns: the flattened slot or -1, and the values
    left in [is_float] and [is_linear]. *)
Record AddResult : Type := {
  flat_slot : Z;
  is_float : bool;
  is_linear : bool
}.

(** [ImageManager::add_image], image.cpp:347-461. *)
Definition add_image (mgr : ImageManager) (key : ImageKey) (animated : bool)
    (frame : Q) (use_alpha srgb : bool) : AddResult * ImageManager :=
  let '(type, is_linear) :=
    get_image_metadata (key_filename key) (key_builtin_data key)
      (key_generated_data key) in
  (* Check whether it's a float texture. *)
  let is_float :=
    ImageDataType_eqb type IMAGE_DATA_TYPE_FLOAT
    || ImageDataType_eqb type IMAGE_DATA_TYPE_FLOAT4 in
  let type := filed_type mgr type in
  match find_existing (images mgr type) 0 key with
  | Some (slot, img) =>
      let img :=
        if negb (Qeq_bool (Registry.frame img) frame)
        then set_frame_reload img frame else img in
      let img :=
        if negb (eqb (Registry.use_alpha img) use_alpha)
        then set_use_alpha_reload img use_alpha else img in
      let img := set_users img (int_add (users img) 1) in
      ({| flat_slot := type_index_to_flattened_slot mgr (Z.of_nat slot) type;
          is_float := is_float; is_linear := is_linear |},
       set_images mgr (update_slot (images mgr) type slot (Some img)))
  | None =>
      let slot := find_free_slot (images mgr type) 0 in
      if over_limit mgr then
        ({| flat_slot := -1; is_float := is_float; is_linear := is_linear |},
         mgr)
      else
        let imgs :=
          if (slot =? length (images mgr type))%nat
          then images mgr type ++ [None] else images mgr type in
        (* Add new image. *)
        let img :=
          {| filename := key_filename key;
             builtin_data := key_builtin_data key;
             generated_data := key_generated_data key;
             need_load := true;
             animated := animated;
             frame := frame;
             interpolation := key_interpolation key;
             extension := key_extension key;
             users := 1;
             use_alpha := use_alpha;
             srgb := srgb && negb is_linear |} in
        let mgr' :=
          set_images mgr
            (fun t => if ImageDataType_eqb t type
                      then <[slot := Some img]> imgs else images mgr t) in
        let mgr' :=
          set_tex_num_images mgr'
            (fun t => if ImageDataType_eqb t type
                      then int_add (tex_num_images mgr t) 1
                      else tex_num_images mgr t) in
        let mgr' := set_need_update mgr' true in
        ({| flat_slot := type_index_to_flattened_slot mgr (Z.of_nat slot) type;
            is_float := is_float; is_linear := is_linear |},
         mgr')
  end.


(** [ImageManager::device_prepare_update], image.cpp:1184-1224, on the
    vectors of the device scene. *)
Definition device_prepare_update (mgr : ImageManager) (dscene : DeviceImages)
    : DeviceImages :=
  fun type =>
    if Z.of_nat (length (dscene type)) <=? size_t_wrap (tex_num_images mgr type)
    then resize (Z.to_nat (size_t_wrap (tex_num_images mgr type))) None
           (dscene type)
    else dscene type.
(** A sequence of [add_image] calls, the returned slots dropped. *)
Definition add_images (mgr : ImageManager) (reqs : list AddRequest)
    : ImageManager :=
  fold_left
    (fun mgr req =>
       (add_image mgr (req_key req) (req_animated req) (req_frame req)
          (req_use_alpha req) (req_srgb req)).2)
    reqs mgr.
End RegistryFunctions.

(** The number of images set in a vector. *)
Definition images_set (imgs : list (option Image)) : nat :=
  length (List.filter (fun entry => bool_decide (is_Some entry)) imgs).

(** The counters of the manager are the numbers of images set. *)
Definition counts_consistent (mgr : ImageManager) : Prop :=
  forall type,
    tex_num_images mgr type = Z.of_nat (images_set (images mgr type)).

(** Every vector of images is at most as long as the longer of the device
    vector of its type and the count of its type. *)
Definition slots_covered (mgr : ImageManager) (dscene : DeviceImages) : Prop :=
  forall type,
    Z.of_nat (length (images mgr type))
    <= Z.max (Z.of_nat (length (dscene type))) (tex_num_images mgr type).

(** No vector of images has a free slot. *)
Definition no_free_slot (mgr : ImageManager) : Prop :=
  forall type, Forall is_Some (images mgr type).

(** Every vector of images is at most as long as the device vector of its
    type: every slot that holds an image is a slot of the device vector. *)
Definition slots_inside (mgr : ImageManager) (dscene : DeviceImages) : Prop :=
  forall type, (length (images mgr type) <= length (dscene type))%nat.

End Registry.

(** Concrete inputs for the image registry: metadata that report float4
    for generated images and byte4 for files (as [get_image_metadata] does
    for a file that does not exist), the decoding of the enumerator values
    [sample_image_type_value], a CPU device, the manager its constructor
    leaves, and requests for a file image and a generated image. *)
Definition sample_metadata : string -> Z -> Z -> ImageDataType * bool :=
  fun _ _ generated_data =>
    if negb (generated_data =? 0) then (IMAGE_DATA_TYPE_FLOAT4, true)
    else (IMAGE_DATA_TYPE_BYTE4, false).


Definition cpu_info : Registry.DeviceInfo :=
  Registry.Build_DeviceInfo Registry.DEVICE_CPU false [].

Definition fresh_cpu_manager : Registry.ImageManager :=
  {| Registry.images := fun _ => [];
     Registry.tex_num_images := fun _ => 0;
     Registry.need_update := true;
     Registry.has_half_images := true;
     Registry.cuda_fermi_limits := false;
     Registry.max_num_images := 1024 |}.

Definition wood_key : Registry.ImageKey :=
  {| Registry.key_filename := "wood.png"; Registry.key_builtin_data := 0;
     Registry.key_generated_data := 0; Registry.key_interpolation := 1;
     Registry.key_extension := 0 |}.

Definition wood_request : Registry.AddRequest :=
  {| Registry.req_key := wood_key; Registry.req_animated := false;
     Registry.req_frame := 1; Registry.req_use_alpha := true;
     Registry.req_srgb := true |}.

Definition noise_request : Registry.AddRequest :=
  {| Registry.req_key :=
       {| Registry.key_filename := "noise"; Registry.key_builtin_data := 0;
          Registry.key_generated_data := 4096;
          Registry.key_interpolation := 1; Registry.key_extension := 0 |};
     Registry.req_animated := false; Registry.req_frame := 1;
     Registry.req_use_alpha := false; Registry.req_srgb := false |}.

(** No device images yet. *)
Definition no_device_images : Registry.DeviceImages := fun _ => [].

(* ===================================================================== *)
(** * device/device_cpu.cpp: cryptomatte slots and the sample loops *)
(* ===================================================================== *)

Module Cryptomatte.

(** One cryptomatte slot of a pixel: [buffer[slot*ID_SLOT_SIZE + 0]] is the
    id and [buffer[slot*ID_SLOT_SIZE + 1]] the weight, [ID_SLOT_SIZE]
    being 2. *)
Definition Slot : Type := (Q * Q)%type.


Section Slots.
(** kernel_types.h: the id of an empty slot. *)
Variable ID_NONE : Q.
(** [sort(..., crypomatte_comp)] of the C++ library on (weight, id)
    pairs. *)
Variable sort : list (Q * Q) -> list (Q * Q).

(** The second loop of [kernel_write_id_slots], device_cpu.cpp:82-98, over
    the slots from the current one on. *)
Fixpoint write_slot (buffer : list Slot) (id weight : Q) : list Slot :=
  match buffer with
  | [] => []
  | (slot_id, slot_weight) :: rest =>
      (* If the loop reaches an empty slot, the ID isn't in any slot yet *)
      if float_is_zero slot_weight then (id, weight) :: rest
      (* If there already is a slot for that ID, add the weight. *)
      else if Qeq_bool slot_id id then (slot_id, (slot_weight + weight)%Q) :: rest
      else (slot_id, slot_weight) :: write_slot rest id weight
  end.

(** [kernel_write_id_slots], device_cpu.cpp:65-99, on the [num_slots]
    slots of the pass. *)
Definition kernel_write_id_slots (buffer : list Slot) (id weight : Q)
    (init : bool) : list Slot :=
  if float_is_zero weight then buffer
  else
    let buffer :=
      if init then map (fun _ => (ID_NONE, 0%Q)) buffer else buffer in
    write_slot buffer id weight.

(** The loop of device_cpu.cpp:131-134 over the entries of
    [sorted_pixel] from index [i] on. *)
Fixpoint write_sorted (sorted_pixel : list (Q * Q)) (i : nat)
    (buffer : list Slot) : list Slot :=
  match sorted_pixel with
  | [] => buffer
  | (weight, id) :: rest =>
      write_sorted rest (S i)
        (kernel_write_id_slots buffer id weight (i =? 0)%nat)
  end.

(** The body of [flatten_coverage] for one pixel, device_cpu.cpp:110-135:
    [pixel] is the coverage map as its iteration gives it, pairs of id and
    weight, and [buffer] the [num_slots] slots of the pass in the render
    buffer.  The result is [None] where the C++ indexes [sorted_pixel] at
    -1. *)
Definition flatten_pixel (num_slots : nat) (pixel : list (Q * Q))
    (buffer : list Slot) : option (list Slot) :=
  match pixel with
  | [] => Some buffer
  | _ =>
      (* sort the cryptomatte pixel *)
      let sorted_pixel := sort (map (fun it => (it.2, it.1)) pixel) in
      let sorted_pixel :=
        if (num_slots <? length sorted_pixel)%nat then
          let leftover :=
            fold_left (fun leftover it => (leftover + it.1)%Q)
              (drop num_slots sorted_pixel) 0%Q in
          match num_slots with
          | O => None
          | S last =>
              Some (alter (fun it => ((it.1 + leftover)%Q, it.2)) last
                      sorted_pixel)
          end
        else Some sorted_pixel in
      match sorted_pixel with
      | None => None
      | Some sorted_pixel =>
          let limit := Nat.min num_slots (length sorted_pixel) in
          Some (write_sorted (take limit sorted_pixel) 0 buffer)
      end
  end.
End Slots.

(** The sum of the weights of a list of (weight, id) pairs. *)
Definition entry_weight (entries : list (Q * Q)) : Q :=
  fold_right Qplus 0%Q (map fst entries).



(** Insertion into a list of (weight, id) pairs by descending weight, and
    the sort it gives. *)
Fixpoint insert_desc (e : Q * Q) (l : list (Q * Q)) : list (Q * Q) :=
  match l with
  | [] => [e]
  | h :: t => if Qle_bool h.1 e.1 then e :: h :: t else h :: insert_desc e t
  end.

Definition insertion_sort (l : list (Q * Q)) : list (Q * Q) :=
  fold_right insert_desc [] l.

End Cryptomatte.

Module SampleLoops.

(** [RenderTile]: the rectangle, the sample range and the sample counter. *)
Record RenderTile : Type := {
  x : Z;
  y : Z;
  w : Z;
  h : Z;
  start_sample : Z;
  num_samples : Z;
  sample : Z
}.

Definition set_sample (tile : RenderTile) (s : Z) : RenderTile :=
  {| x := x tile; y := y tile; w := w tile; h := h tile;
     start_sample := start_sample tile; num_samples := num_samples tile;
     sample := s |}.

(** One call of the path trace kernel: its [sample], [x] and [y]. *)
Definition KernelCall : Type := (Z * Z * Z)%type.

(** The pixels of the two inner loops of device_cpu.cpp:555-577 in the
    order they are traced. *)
Definition tile_pixels (tile : RenderTile) : list (Z * Z) :=
  flat_map
    (fun py => map (fun px => (px, py)) (seqZ (x tile) (w tile)))
    (seqZ (y tile) (h tile)).

Section PathTrace.
(** What [task.get_cancel() || task_pool.canceled()] gives when it is asked
    at the start of the iteration for a sample. *)
Variable cancelled : Z -> bool.
(** [task.need_finish_queue]. *)
Variable need_finish_queue : bool.

(** The sample loop of [thread_path_trace], device_cpu.cpp:549-603, as the
    kernel calls it makes and the tile it leaves; the cryptomatte
    bookkeeping and the progress update are left out.  [fuel] bounds the
    number of iterations. *)
Fixpoint sample_loop (fuel : nat) (sample end_sample : Z) (tile : RenderTile)
    (calls : list KernelCall) : RenderTile * list KernelCall :=
  match fuel with
  | O => (tile, calls)
  | S fuel' =>
      if sample <? end_sample then
        if cancelled sample && negb need_finish_queue then (tile, calls)
        else
          let calls :=
            calls ++ map (fun p => (sample, p.1, p.2)) (tile_pixels tile) in
          let tile := set_sample tile (int_add sample 1) in
          sample_loop fuel' (int_add sample 1) end_sample tile calls
      else (tile, calls)
  end.

(** The body of the tile loop of [thread_path_trace] for one acquired
    tile, device_cpu.cpp:544-603. *)
Definition trace_tile (tile : RenderTile) : RenderTile * list KernelCall :=
  let start_sample := start_sample tile in
  let end_sample := int_add (start_sample) (num_samples tile) in
  sample_loop (Z.to_nat (end_sample - start_sample)) start_sample end_sample
    tile [].
End PathTrace.

Section Shader.
(** What [task.get_cancel() || task_pool.canceled()] gives when it is asked
    after the evaluation of a sample. *)
Variable cancelled : Z -> bool.

(** The loop of [thread_shader], device_cpu.cpp:804-821, as the kernel
    calls it makes, pairs of [x] and [sample]. *)
Fixpoint shader_loop (fuel : nat) (sample num_samples shader_x shader_w : Z)
    (calls : list (Z * Z)) : list (Z * Z) :=
  match fuel with
  | O => calls
  | S fuel' =>
      if sample <? num_samples then
        let calls :=
          calls ++ map (fun px => (px, sample)) (seqZ shader_x shader_w) in
        if cancelled sample then calls
        else shader_loop fuel' (int_add sample 1) num_samples shader_x
               shader_w calls
      else calls
  end.

(** [thread_shader] on a task, device_cpu.cpp:748-830. *)
Definition thread_shader (task : Task.DeviceTask) : list (Z * Z) :=
  shader_loop (Z.to_nat (Task.num_samples task)) 0 (Task.num_samples task)
    (Task.shader_x task) (Task.shader_w task) [].
End Shader.

(** The number of samples from [start] on, out of [n], that begin before
    the first cancellation; and the number that are evaluated when the
    cancellation is looked at after each sample. *)
Fixpoint uncancelled_prefix (cancelled : Z -> bool) (start : Z) (n : nat)
    : nat :=
  match n with
  | O => O
  | S n' =>
      if cancelled start then O
      else S (uncancelled_prefix cancelled (start + 1) n')
  end.

Fixpoint evaluated_samples (cancelled : Z -> bool) (start : Z) (n : nat)
    : nat :=
  match n with
  | O => O
  | S n' =>
      if cancelled start then 1%nat
      else S (evaluated_samples cancelled (start + 1) n')
  end.

(** The kernel calls of the samples [start .. start + n) over the pixels
    of a tile, sample by sample. *)
Definition calls_of (tile : RenderTile) (start : Z) (n : nat)
    : list KernelCall :=
  flat_map (fun s => map (fun p => (s, p.1, p.2)) (tile_pixels tile))
    (seqZ start (Z.of_nat n)).

(** A tile of 4x2 pixels to be rendered from sample 8 to sample 12. *)
Definition sample_tile : RenderTile :=
  {| x := 16; y := 32; w := 4; h := 2; start_sample := 8; num_samples := 4;
     sample := 8 |}.

End SampleLoops.

(* ===================================================================== *)
(** * compositor/operations/COM_MultiAddOperation.cpp *)
(* ===================================================================== *)

Module MultiAdd.

(** A [float[4]] colour. *)
Record Color : Type := { red : Q; green : Q; blue : Q; alpha : Q }.

Section Operation.
(** [clampIfNeeded] of COM_MultiAddOperation.h. *)
Variable clampIfNeeded : Color -> Color.

(** The loop of [MultiAddOperation::executePixelSampled],
    COM_MultiAddOperation.cpp:54-67, from input [i] on; [inputs] are the
    colours the input readers give at the sampled position. *)
Fixpoint add_inputs (inputs : list Color) (i : nat) (output : Color) : Color :=
  match inputs with
  | [] => output
  | inputColor :: rest =>
      let output :=
        if (i =? 0)%nat then
          {| red := red inputColor; green := green inputColor;
             blue := blue inputColor; alpha := alpha inputColor |}
        else
          {| red := (red output + red inputColor)%Q;
             green := (green output + green inputColor)%Q;
             blue := (blue output + blue inputColor)%Q;
             alpha := alpha output |} in
      add_inputs rest (S i) output
  end.

(** [MultiAddOperation::executePixelSampled],
    COM_MultiAddOperation.cpp:48-70: the contents of [output] on return. *)
Definition executePixelSampled (inputs : list Color) (output : Color) : Color :=
  clampIfNeeded (add_inputs inputs 0 output).
End Operation.

(** The sum of one channel over a list of colours. *)
Definition channel_sum (channel : Color -> Q) (colors : list Color) : Q :=
  fold_right Qplus 0%Q (map channel colors).

(** Equality of the red, green and blue channels as rationals, and of the
    alpha channel. *)
Definition same_color (c1 c2 : Color) : Prop :=
  (red c1 == red c2)%Q /\ (green c1 == green c2)%Q /\ (blue c1 == blue c2)%Q
  /\ alpha c1 = alpha c2.

End MultiAdd.

(* ===================================================================== *)
(** * kernel/bvh/bvh_embree_traversal.h *)
(* ===================================================================== *)

Module Embree.

(** [CCLRay]: the fields of the Embree hit that [isect_to_ccl] reads. *)
Record CCLRay : Type := {
  geomID : Z;
  primID : Z;
  instID : Z;
  u : Q;
  v : Q;
  tfar : Q;
  Ng : float3
}.

(** [ccl::Intersection]. *)
Record Intersection : Type := {
  isect_u : Q;
  isect_v : Q;
  isect_t : Q;
  isect_Ng : float3;
  isect_prim : Z;
  isect_object : Z;
  isect_type : Z
}.

Section Conversion.
(** embree2/rtcore and kernel_types.h constants. *)
Variables RTC_INVALID_GEOMETRY_ID OBJECT_NONE : Z.
(** [(intptr_t)rtcGetUserData(kernel_data.bvh.scene, geomID)], and the same
    on the scene [rtcGetUserData(kernel_data.bvh.scene, instID)] of an
    instance. *)
Variable scene_user_data : Z -> Z.
Variable instance_user_data : Z -> Z -> Z.
(** [kernel_tex_fetch(__object_node, .)] and
    [kernel_tex_fetch(__prim_type, .)]. *)
Variable object_node : Z -> Z.
Variable prim_type : Z -> Z.

(** [CCLRay::isect_to_ccl], bvh_embree_traversal.h:83-99. *)
Definition isect_to_ccl (ray : CCLRay) : Intersection :=
  let is_hair := truthy (Z.land (geomID ray) 1) in
  let prim :=
    if negb (instID ray =? RTC_INVALID_GEOMETRY_ID) then
      int_wrap (primID ray + instance_user_data (instID ray) (geomID ray)
                + object_node (instID ray / 2))
    else int_wrap (primID ray + scene_user_data (geomID ray)) in
  {| isect_u := if is_hair then u ray else (1 - v ray - u ray)%Q;
     isect_v := if is_hair then v ray else u ray;
     isect_t := tfar ray;
     isect_Ng := make_float3 (x (Ng ray)) (y (Ng ray)) (z (Ng ray));
     isect_prim := prim;
     isect_object :=
       if negb (instID ray =? RTC_INVALID_GEOMETRY_ID)
       then instID ray / 2 else OBJECT_NONE;
     isect_type := prim_type prim |}.
End Conversion.

(** A point given by two barycentric coordinates lies in the triangle. *)
Definition in_triangle (a b : Q) : Prop := (0 <= a /\ 0 <= b /\ a + b <= 1)%Q.

End Embree.

(* ===================================================================== *)
(** * modifiers/intern/MOD_openvdb.c *)
(* ===================================================================== *)

Module OpenVDB.

(** [OpenVDBModifierData]: the fields the modifier callbacks read and
    write; [grids] is the list of grid names, empty for a null pointer. *)
Record OpenVDBModifierData : Type := {
  filepath : string;
  flags : Z;
  simplify : Z;
  frame_last : Z;
  numgrids : Z;
  grids : list string;
  up_axis : Z;
  front_axis : Z
}.

Definition set_flags (vdbmd : OpenVDBModifierData) (f : Z)
    : OpenVDBModifierData :=
  {| filepath := filepath vdbmd; flags := f; simplify := simplify vdbmd;
     frame_last := frame_last vdbmd; numgrids := numgrids vdbmd;
     grids := grids vdbmd; up_axis := up_axis vdbmd;
     front_axis := front_axis vdbmd |}.

Definition set_simplify (vdbmd : OpenVDBModifierData) (s : Z)
    : OpenVDBModifierData :=
  {| filepath := filepath vdbmd; flags := flags vdbmd; simplify := s;
     frame_last := frame_last vdbmd; numgrids := numgrids vdbmd;
     grids := grids vdbmd; up_axis := up_axis vdbmd;
     front_axis := front_axis vdbmd |}.

Definition set_frame_last (vdbmd : OpenVDBModifierData) (f : Z)
    : OpenVDBModifierData :=
  {| filepath := filepath vdbmd; flags := flags vdbmd;
     simplify := simplify vdbmd; frame_last := f;
     numgrids := numgrids vdbmd; grids := grids vdbmd;
     up_axis := up_axis vdbmd; front_axis := front_axis vdbmd |}.

Definition set_grids (vdbmd : OpenVDBModifierData) (n : Z) (g : list string)
    : OpenVDBModifierData :=
  {| filepath := filepath vdbmd; flags := flags vdbmd;
     simplify := simplify vdbmd; frame_last := frame_last vdbmd;
     numgrids := n; grids := g; up_axis := up_axis vdbmd;
     front_axis := front_axis vdbmd |}.

Section Modifier.
(** DNA_modifier_types.h, DNA_object_types.h and BKE_modifier.h: the flag
    bits read here. *)
Variables MOD_APPLY_RENDER MOD_OPENVDB_SPARSE_RENDER MOD_OPENVDB_HIDE_VOLUME
          MOD_OPENVDB_SIMPLIFY_RENDER MOD_OPENVDB_IS_RENDER
          MOD_OPENVDB_NOW_RENDERING MOD_OPENVDB_HIDE_UNSELECTED SELECT : Z.
(** [G.is_rendering]. *)
Variable is_rendering : bool.
(** The file system and the OpenVDB reader: the grid names of the file at
    the absolute path of [filepath], [None] when [BLI_exists] fails. *)
Variable read_grid_names : string -> option (list string).
(** The type of derived meshes, and [modwrap_applyModifier] on the smoke
    modifier, the object and the input mesh of the call; it reaches the
    OpenVDB modifier data through [smd->domain->vdb]: the data it leaves
    and the mesh it returns. *)
Variable DerivedMesh : Type.
Variable modwrap_applyModifier :
  OpenVDBModifierData -> Z -> OpenVDBModifierData * DerivedMesh.

(** [applyModifier], MOD_openvdb.c:127-215, built with OpenVDB, on the
    modifier data; [ob_flag] is [ob->flag].  The writes to the object and
    to the smoke domain are left out. *)
Definition applyModifier (vdbmd : OpenVDBModifierData) (ob_flag : Z)
    (flag : Z) : OpenVDBModifierData * DerivedMesh :=
  let vdbflags := flags vdbmd in
  let vdbsimplify := simplify vdbmd in
  let vdbmd := set_grids vdbmd 0 [] in
  let vdbmd :=
    match read_grid_names (filepath vdbmd) with
    | Some names => set_grids vdbmd (Z.of_nat (length names)) names
    | None => vdbmd
    end in
  (* XXX Hack to avoid passing stuff all over the place. *)
  let '(vdbmd, vdbflags) :=
    if truthy (Z.land flag MOD_APPLY_RENDER) then
      let vdbmd :=
        if truthy (Z.land (flags vdbmd) MOD_OPENVDB_SPARSE_RENDER)
        then set_flags vdbmd (Z.lor (flags vdbmd) MOD_OPENVDB_HIDE_VOLUME)
        else set_flags vdbmd
               (Z.land (flags vdbmd) (Z.lnot MOD_OPENVDB_HIDE_VOLUME)) in
      let vdbmd :=
        if negb (truthy (Z.land (flags vdbmd) MOD_OPENVDB_SIMPLIFY_RENDER))
        then set_simplify vdbmd 0 else vdbmd in
      if negb (truthy (Z.land (flags vdbmd) MOD_OPENVDB_IS_RENDER))
      then (set_frame_last vdbmd (-1), Z.lor vdbflags MOD_OPENVDB_IS_RENDER)
      else (vdbmd, vdbflags)
    else
      let vdbmd :=
        if is_rendering
        then set_flags vdbmd (Z.lor (flags vdbmd) MOD_OPENVDB_NOW_RENDERING)
        else vdbmd in
      let vdbmd :=
        if truthy (Z.land (flags vdbmd) MOD_OPENVDB_HIDE_UNSELECTED)
           && negb (truthy (Z.land ob_flag SELECT))
        then set_flags vdbmd (Z.lor (flags vdbmd) MOD_OPENVDB_HIDE_VOLUME)
        else vdbmd in
      if truthy (Z.land (flags vdbmd) MOD_OPENVDB_IS_RENDER)
      then (set_frame_last vdbmd (-1),
            Z.land vdbflags (Z.lnot MOD_OPENVDB_IS_RENDER))
      else (vdbmd, vdbflags) in
  let '(vdbmd, r_dm) := modwrap_applyModifier vdbmd flag in
  (set_simplify (set_flags vdbmd vdbflags) vdbsimplify, r_dm).
End Modifier.

(** Modifier data with the sparse-render flag (bit 1) set, a simplify
    level of 3 and no file; a smoke modifier that sets every flag. *)
Definition sample_vdbmd : OpenVDBModifierData :=
  {| filepath := ""; flags := 2; simplify := 3; frame_last := 10;
     numgrids := 0; grids := []; up_axis := 2; front_axis := 4 |}.

Definition scrambling_smoke (vdbmd : OpenVDBModifierData) (flag : Z)
    : OpenVDBModifierData * unit :=
  (set_simplify (set_flags vdbmd (-1)) 7, tt).

End OpenVDB.

(* ===================================================================== *)
(** * Properties of kernel_path_state.h *)
(* ===================================================================== *)

Lemma land_lor_keep f m a : Z.land f a = a -> Z.land (Z.lor f m) a = a.
Proof.
  intros H. apply Z.bits_inj'. intros n Hn.
  rewrite Z.land_spec, Z.lor_spec.
  assert (Hb : Z.testbit (Z.land f a) n = Z.testbit a n) by (rewrite H; reflexivity).
  rewrite Z.land_spec in Hb.
  destruct (Z.testbit f n), (Z.testbit m n), (Z.testbit a n); simpl in *; congruence.
Qed.

Lemma land_clear_keep f m a :
  Z.land f a = a -> Z.land a m = 0 -> Z.land (Z.land f (Z.lnot m)) a = a.
Proof.
  intros H H0. apply Z.bits_inj'. intros n Hn.
  rewrite !Z.land_spec, Z.lnot_spec by lia.
  assert (Hb : Z.testbit (Z.land f a) n = Z.testbit a n) by (rewrite H; reflexivity).
  assert (Hc : Z.testbit (Z.land a m) n = false) by (rewrite H0; apply Z.bits_0).
  rewrite Z.land_spec in Hb, Hc.
  destruct (Z.testbit f n), (Z.testbit m n), (Z.testbit a n); simpl in *; congruence.
Qed.

Lemma land_mask_of a ms :
  Forall (fun m => Z.land a m = 0) ms -> Z.land a (mask_of ms) = 0.
Proof.
  induction 1 as [|m ms Hm _ IH]; simpl.
  - apply Z.land_0_r.
  - rewrite Z.land_lor_distr_r, Hm, IH. reflexivity.
Qed.

Lemma truthy_true z : truthy z = true <-> z <> 0.
Proof. unfold truthy. destruct (Z.eqb_spec z 0); simpl; split; congruence. Qed.

Lemma truthy_false z : truthy z = false <-> z = 0.
Proof. unfold truthy. destruct (Z.eqb_spec z 0); simpl; split; congruence. Qed.

(** C1: for a non-transparent path state, [path_state_terminate_probability]
    returns 0 as soon as one bounce counter (total, diffuse, glossy,
    transmission or volume) has reached its maximum, where the diffuse,
    glossy and transmission maxima are the material's when the shader sets
    [SD_SHADER_OVERRIDE_BOUNCES] and the integrator's otherwise; it returns 1
    when no maximum is reached and the total bounce count is at most the
    integrator's minimum. *)
Theorem terminate_probability_bounce_limits `{KT : kernel_types}
    (integrator : KernelIntegrator) (state : PathState) (sd : ShaderData)
    (throughput : float3) :
  Z.land (flag state) PATH_RAY_TRANSPARENT = 0 ->
  (bounce_limit_reached integrator state sd ->
   path_state_terminate_probability integrator state sd throughput = 0%Q)
  /\ (below_bounce_limits integrator state sd ->
      bounce state <= min_bounce integrator ->
      path_state_terminate_probability integrator state sd throughput = 1%Q).
Proof.
  intros Hopaque.
  unfold path_state_terminate_probability, bounce_limit_reached,
    below_bounce_limits, max_diffuse_bounce_of, max_glossy_bounce_of,
    max_transmission_bounce_of.
  rewrite Hopaque. change (truthy 0) with false. cbv iota.
  destruct (truthy (Z.land (shader_flag sd) SD_SHADER_OVERRIDE_BOUNCES));
    cbv zeta; cbv iota; rewrite !Z.geb_leb; split.
  all: try (intros Hmax;
            repeat match goal with
                   | |- context [Z.leb ?a ?b] => destruct (Z.leb_spec a b)
                   end; simpl; try reflexivity; exfalso; lia).
  all: intros (H1 & H2 & H3 & H4 & H5) Hmin;
       repeat match goal with
              | |- context [Z.leb ?a ?b] => destruct (Z.leb_spec a b)
              end; simpl; try reflexivity; exfalso; lia.
Qed.

(** The statement of C1 at a ray that has used up its glossy bounces under
    the integrator's limits, at a camera ray, and at a ray after one diffuse
    bounce on a material that allows one. *)
Lemma terminate_probability_bounce_limits_witness :
  path_state_terminate_probability (KT := sample_kernel_types) sample_integrator
    {| flag := 2 + 16; rng_hash := 0; rng_offset := 36; sample := 0;
       num_samples := 16; bounce := 4; diffuse_bounce := 0; glossy_bounce := 4;
       transmission_bounce := 0; transparent_bounce := 0; volume_bounce := 0;
       volume_bounds_bounce := 0; denoising_feature_weight := 0;
       min_ray_pdf := 1; ray_pdf := 1; matte_weight := 1; written_aovs := 0 |}
    plain_shader_data (make_float3 (1 # 2) (1 # 2) (1 # 2)) = 0%Q
  /\ path_state_terminate_probability (KT := sample_kernel_types)
       sample_integrator camera_state plain_shader_data
       (make_float3 (1 # 2) (1 # 2) (1 # 2)) = 1%Q
  /\ path_state_terminate_probability (KT := sample_kernel_types)
       sample_integrator first_diffuse_state override_shader_data
       (make_float3 (1 # 2) (1 # 2) (1 # 2)) = 0%Q.
Proof.
  split; [|split].
  - apply (terminate_probability_bounce_limits (KT := sample_kernel_types));
      [reflexivity|].
    unfold bounce_limit_reached; simpl. right. right. left. lia.
  - apply (terminate_probability_bounce_limits (KT := sample_kernel_types));
      [reflexivity| |simpl; lia].
    unfold below_bounce_limits; simpl. lia.
  - apply (terminate_probability_bounce_limits (KT := sample_kernel_types));
      [reflexivity|].
    unfold bounce_limit_reached; simpl. right. left. lia.
Defined.

(** C2 as stated fails: with transparent shadows disabled, a transparent
    pass-through of a ray that has made a diffuse bounce changes a flag
    other than [PATH_RAY_TRANSPARENT], namely [PATH_RAY_MIS_SKIP] (bit 12),
    which the diffuse bounce had cleared. *)
Lemma path_state_next_transparent_changes_mis_skip :
  first_diffuse_state
  = path_state_next (KT := sample_kernel_types) sample_integrator
      camera_state (2 + 4)
  /\ Z.land 32 (LABEL_TRANSPARENT (kernel_types := sample_kernel_types)) <> 0
  /\ ~ flags_agree_outside
         (PATH_RAY_TRANSPARENT (kernel_types := sample_kernel_types))
         (flag first_diffuse_state)
         (flag (path_state_next (KT := sample_kernel_types) sample_integrator
                  first_diffuse_state 32)).
Proof.
  split; [reflexivity|].
  split; [discriminate|].
  intros H. specialize (H 12 ltac:(lia) eq_refl). vm_compute in H. discriminate.
Qed.

(** C2 (amended): [path_state_next] with a label that has the transparent
    bit increments [transparent_bounce] and changes no other counter and not
    the RNG offset; it sets [PATH_RAY_TRANSPARENT] and, when transparent
    shadows are disabled, also [PATH_RAY_MIS_SKIP]; no flag that was set is
    cleared, every flag outside these two is unchanged, and with transparent
    shadows enabled every flag outside [PATH_RAY_TRANSPARENT] is unchanged. *)
Theorem path_state_next_transparent `{KT : kernel_types}
    (integrator : KernelIntegrator) (state : PathState) (label : Z) :
  Z.land label LABEL_TRANSPARENT <> 0 ->
  let state' := path_state_next integrator state label in
  state' =
    set_transparent_bounce
      (set_flag state
         (Z.lor (Z.lor (flag state) PATH_RAY_TRANSPARENT)
            (if truthy (transparent_shadows integrator) then 0
             else PATH_RAY_MIS_SKIP)))
      (int_add (transparent_bounce state) 1)
  /\ transparent_bounce state' = int_add (transparent_bounce state) 1
  /\ bounce state' = bounce state
  /\ diffuse_bounce state' = diffuse_bounce state
  /\ glossy_bounce state' = glossy_bounce state
  /\ transmission_bounce state' = transmission_bounce state
  /\ volume_bounce state' = volume_bounce state
  /\ rng_offset state' = rng_offset state
  /\ flags_kept (flag state) (flag state')
  /\ flags_agree_outside (Z.lor PATH_RAY_TRANSPARENT PATH_RAY_MIS_SKIP)
       (flag state) (flag state')
  /\ (transparent_shadows integrator <> 0 ->
      flags_agree_outside PATH_RAY_TRANSPARENT (flag state) (flag state')).
Proof.
  intros Hl%truthy_true state'. subst state'.
  unfold path_state_next. rewrite Hl.
  unfold flags_kept, flags_agree_outside.
  destruct (truthy (transparent_shadows integrator)) eqn:Hts; simpl.
  - rewrite Z.lor_0_r.
    repeat split; try reflexivity.
    + intros n Hn Hb. rewrite Z.lor_spec, Hb. reflexivity.
    + intros n Hn Hb. rewrite Z.lor_spec in Hb |- *.
      apply orb_false_elim in Hb as [-> _]. apply orb_false_r.
    + intros _ n Hn Hb. rewrite Z.lor_spec, Hb. apply orb_false_r.
  - repeat split; try reflexivity.
    + intros n Hn Hb. rewrite !Z.lor_spec, Hb. reflexivity.
    + intros n Hn Hb. rewrite !Z.lor_spec in *.
      apply orb_false_elim in Hb as [-> ->]. rewrite !orb_false_r. reflexivity.
    + intros Hne. apply truthy_false in Hts. contradiction.
Qed.

(** The statement of C2 (amended) at a camera ray. *)
Lemma path_state_next_transparent_witness :
  transparent_bounce
    (path_state_next (KT := sample_kernel_types) sample_integrator
       camera_state 32) = 1
  /\ bounce
       (path_state_next (KT := sample_kernel_types) sample_integrator
          camera_state 32) = 0
  /\ rng_offset
       (path_state_next (KT := sample_kernel_types) sample_integrator
          camera_state 32) = 4.
Proof.
  pose proof (path_state_next_transparent (KT := sample_kernel_types)
                sample_integrator camera_state 32 ltac:(discriminate)) as H.
  cbv zeta in H.
  destruct H as (_ & Ht & Hb & _ & _ & _ & _ & Hr & _).
  rewrite Ht, Hb, Hr. repeat split; reflexivity.
Defined.

(** C5 as stated fails: a ray after three bounces, below every maximum and
    above the minimum bounce count, with throughput (2, 2, 2) gets the
    value 2, which is not inside (0, 1). *)
Lemma terminate_probability_not_in_unit_interval :
  roulette_range (KT := sample_kernel_types) sample_integrator
    third_bounce_state plain_shader_data
  /\ ~ (0 < path_state_terminate_probability (KT := sample_kernel_types)
              sample_integrator third_bounce_state plain_shader_data
              (make_float3 2 2 2)
        /\ path_state_terminate_probability (KT := sample_kernel_types)
              sample_integrator third_bounce_state plain_shader_data
              (make_float3 2 2 2) < 1)%Q.
Proof.
  split.
  - unfold roulette_range, below_bounce_limits; simpl. lia.
  - intros [_ H]. vm_compute in H. discriminate.
Qed.

(** C5 (amended): away from the forced-termination and forced-continuation
    boundaries, [path_state_terminate_probability] returns the average of
    the three throughput channels, unclamped; the value lies strictly
    inside (0, 1) exactly when the channel sum lies strictly inside (0, 3). *)
Theorem terminate_probability_roulette `{KT : kernel_types}
    (integrator : KernelIntegrator) (state : PathState) (sd : ShaderData)
    (throughput : float3) :
  roulette_range integrator state sd ->
  path_state_terminate_probability integrator state sd throughput
    = average throughput
  /\ ((0 < path_state_terminate_probability integrator state sd throughput
       /\ path_state_terminate_probability integrator state sd throughput < 1)%Q
      <-> (0 < x throughput + y throughput + z throughput
           /\ x throughput + y throughput + z throughput < 3)%Q).
Proof.
  intros Hr.
  assert (He : path_state_terminate_probability integrator state sd throughput
               = average throughput).
  { unfold path_state_terminate_probability, roulette_range,
      below_bounce_limits, max_diffuse_bounce_of, max_glossy_bounce_of,
      max_transmission_bounce_of in *.
    destruct (truthy (Z.land (flag state) PATH_RAY_TRANSPARENT)).
    - rewrite Z.geb_leb.
      repeat match goal with
             | |- context [Z.leb ?a ?b] => destruct (Z.leb_spec a b)
             end; try reflexivity; exfalso; lia.
    - destruct Hr as ((H1 & H2 & H3 & H4 & H5) & Hmin).
      destruct (truthy (Z.land (shader_flag sd) SD_SHADER_OVERRIDE_BOUNCES));
        cbv zeta; rewrite !Z.geb_leb;
        repeat match goal with
               | |- context [Z.leb ?a ?b] => destruct (Z.leb_spec a b)
               end; simpl; try reflexivity; exfalso; lia. }
  split; [exact He|]. rewrite He. unfold average.
  set (s := (x throughput + y throughput + z throughput)%Q).
  clearbody s. destruct s as [n d].
  unfold Qlt, Qdiv, Qmult, Qinv; simpl. lia.
Qed.

(** The statement of C5 (amended) at a ray after three bounces with
    throughput (1/2, 1/4, 1/4). *)
Lemma terminate_probability_roulette_witness :
  path_state_terminate_probability (KT := sample_kernel_types)
    sample_integrator third_bounce_state plain_shader_data
    (make_float3 (1 # 2) (1 # 4) (1 # 4))
  = average (make_float3 (1 # 2) (1 # 4) (1 # 4)).
Proof.
  apply (terminate_probability_roulette (KT := sample_kernel_types)).
  unfold roulette_range, below_bounce_limits; simpl. lia.
Defined.

Ltac split_distinct H :=
  unfold diffuse_ancestor_distinct, cleared_path_ray_flags in H;
  repeat (apply Forall_cons in H; destruct H as [? H]).

Ltac keep_flag :=
  repeat first
    [ assumption
    | apply land_lor_keep
    | apply land_clear_keep
    | apply land_mask_of; repeat (constructor; [assumption|]); constructor ].

(** One transition never clears a diffuse-ancestor flag that is set. *)
Lemma path_state_next_keeps_diffuse_ancestor `{KT : kernel_types}
    (integrator : KernelIntegrator) (state : PathState) (label : Z) :
  diffuse_ancestor_distinct ->
  flag_set (flag state) PATH_RAY_DIFFUSE_ANCESTOR ->
  flag_set (flag (path_state_next integrator state label))
    PATH_RAY_DIFFUSE_ANCESTOR.
Proof.
  intros Hd Hs. split_distinct Hd. unfold flag_set in *.
  unfold path_state_next.
  repeat match goal with
         | |- context [if ?b then _ else _] => destruct b
         end;
    cbn [flag set_flag set_rng_offset set_bounce set_diffuse_bounce
         set_glossy_bounce set_transmission_bounce set_transparent_bounce
         set_volume_bounce flag_or flag_clear];
    keep_flag.
Qed.

(** No sequence of transitions clears it. *)
Lemma path_state_run_keeps_diffuse_ancestor `{KT : kernel_types}
    (integrator : KernelIntegrator) (labels : list Z) (state : PathState) :
  diffuse_ancestor_distinct ->
  flag_set (flag state) PATH_RAY_DIFFUSE_ANCESTOR ->
  flag_set (flag (path_state_run integrator state labels))
    PATH_RAY_DIFFUSE_ANCESTOR.
Proof.
  intros Hd. revert state.
  induction labels as [|l labels IH]; intros state Hs; simpl.
  - exact Hs.
  - apply IH. apply path_state_next_keeps_diffuse_ancestor; assumption.
Qed.

(** A diffuse-labelled surface bounce sets the diffuse-ancestor flag. *)
Lemma path_state_next_sets_diffuse_ancestor `{KT : kernel_types}
    (integrator : KernelIntegrator) (state : PathState) (label : Z) :
  diffuse_ancestor_distinct ->
  Z.land label LABEL_TRANSPARENT = 0 ->
  Z.land label LABEL_VOLUME_SCATTER = 0 ->
  Z.land label LABEL_DIFFUSE <> 0 ->
  flag_set (flag (path_state_next integrator state label))
    PATH_RAY_DIFFUSE_ANCESTOR.
Proof.
  intros Hd Ht%truthy_false Hv%truthy_false Hl%truthy_true.
  split_distinct Hd. unfold flag_set.
  unfold path_state_next. rewrite Ht, Hv, Hl.
  assert (Hset : forall f,
             Z.land (Z.lor f (mask_of [PATH_RAY_DIFFUSE; PATH_RAY_DIFFUSE_ANCESTOR]))
               PATH_RAY_DIFFUSE_ANCESTOR = PATH_RAY_DIFFUSE_ANCESTOR).
  { intros f. simpl. rewrite Z.lor_0_r. apply Z.bits_inj'. intros n Hn.
    rewrite Z.land_spec, !Z.lor_spec.
    destruct (Z.testbit PATH_RAY_DIFFUSE_ANCESTOR n);
      rewrite ?orb_true_r, ?andb_false_r; reflexivity. }
  repeat match goal with
         | |- context [if ?b then _ else _] => destruct b
         end; cbn [flag set_flag set_rng_offset set_bounce set_diffuse_bounce
                   set_glossy_bounce set_transmission_bounce flag_or flag_clear];
    repeat (apply land_clear_keep;
            [|first [assumption
                    | apply land_mask_of;
                      repeat (constructor; [assumption|]); constructor]]);
    apply Hset.
Qed.

(** C7: once a diffuse-labelled bounce has set [PATH_RAY_DIFFUSE_ANCESTOR]
    through [path_state_next], the flag is still set after any further
    sequence of [path_state_next] transitions, whatever their labels.  The
    enumerators of kernel_types.h enter through one assumption: the
    diffuse-ancestor flag shares no bit with the flags that
    [path_state_next] clears. *)
Theorem diffuse_ancestor_sticky `{KT : kernel_types}
    (integrator : KernelIntegrator) (state : PathState) (label : Z)
    (labels : list Z) :
  diffuse_ancestor_distinct ->
  Z.land label LABEL_TRANSPARENT = 0 ->
  Z.land label LABEL_VOLUME_SCATTER = 0 ->
  Z.land label LABEL_DIFFUSE <> 0 ->
  flag_set (flag (path_state_next integrator state label))
    PATH_RAY_DIFFUSE_ANCESTOR
  /\ flag_set
       (flag (path_state_run integrator
                (path_state_next integrator state label) labels))
       PATH_RAY_DIFFUSE_ANCESTOR.
Proof.
  intros Hd Ht Hv Hl.
  pose proof (path_state_next_sets_diffuse_ancestor integrator state label
                Hd Ht Hv Hl) as Hset.
  split; [exact Hset|].
  apply path_state_run_keeps_diffuse_ancestor; assumption.
Qed.

(** The statement of C7 along a path: a diffuse reflection, then a
    transparent pass-through, a glossy reflection, a volume scatter and a
    singular transmission. *)
Lemma diffuse_ancestor_sticky_witness :
  flag_set
    (flag (path_state_run (KT := sample_kernel_types) sample_integrator
             (path_state_next (KT := sample_kernel_types) sample_integrator
                camera_state (2 + 4))
             [32; 2 + 8; 64; 1 + 16]))
    (PATH_RAY_DIFFUSE_ANCESTOR (kernel_types := sample_kernel_types)).
Proof.
  apply (diffuse_ancestor_sticky (KT := sample_kernel_types) sample_integrator
           camera_state (2 + 4) [32; 2 + 8; 64; 1 + 16]).
  - unfold diffuse_ancestor_distinct, cleared_path_ray_flags.
    repeat (constructor; [reflexivity|]). constructor.
  - reflexivity.
  - reflexivity.
  - discriminate.
Defined.

(* ===================================================================== *)
(** * Properties of kernel_shader.h: alpha *)
(* ===================================================================== *)

Lemma float3_eq_refl a : float3_eq a a.
Proof. repeat split; reflexivity. Qed.

Lemma float3_eq_sym a b : float3_eq a b -> float3_eq b a.
Proof. intros (H1 & H2 & H3). repeat split; symmetry; assumption. Qed.

Lemma float3_eq_trans a b c : float3_eq a b -> float3_eq b c -> float3_eq a c.
Proof.
  intros (H1 & H2 & H3) (H4 & H5 & H6).
  repeat split; etransitivity; eassumption.
Qed.

Lemma clamp_unit_min_max q : (Qmin (Qmax (1 - q) 0) 1 == clamp_unit (1 - q))%Q.
Proof.
  unfold clamp_unit.
  destruct (Qle_bool (1 - q) 0) eqn:H0.
  - apply Qle_bool_iff in H0.
    rewrite (Q.max_r _ _ H0). apply Q.min_l. discriminate.
  - assert (H0' : (0 < 1 - q)%Q).
    { apply Qnot_le_lt. intros H. apply Qle_bool_iff in H. congruence. }
    rewrite (Q.max_l (1 - q) 0) by (apply Qlt_le_weak; exact H0').
    destruct (Qle_bool 1 (1 - q)) eqn:H1.
    + apply Qle_bool_iff in H1. apply Q.min_r. exact H1.
    + apply Q.min_l. apply Qlt_le_weak, Qnot_le_lt.
      intros H. apply Qle_bool_iff in H. congruence.
Qed.

Lemma clamp_in_unit q : (0 <= Qmin (Qmax q 0) 1 <= 1)%Q.
Proof.
  split.
  - apply Q.min_glb; [apply Q.le_max_r|discriminate].
  - apply Q.le_min_r.
Qed.

Lemma transparency_sum_spec `{KT : kernel_types} (cl : list ShaderClosure)
    (eval : float3) :
  float3_eq (transparency_sum cl eval) (float3_add eval (transparent_weight cl)).
Proof.
  revert eval. induction cl as [|sc cl IH]; intros eval.
  - unfold transparent_weight; simpl. repeat split; simpl; ring.
  - simpl. unfold transparent_weight in *. rewrite filter_cons.
    destruct (Z.eqb_spec (type sc) CLOSURE_BSDF_TRANSPARENT_ID) as [He|Hne].
    + rewrite decide_True by exact He. simpl.
      eapply float3_eq_trans; [apply IH|].
      repeat split; simpl; ring.
    + rewrite decide_False by exact Hne. apply IH.
Qed.

(** C10 as stated fails: for a shader flagged [SD_SHADER_HAS_ONLY_VOLUME]
    with no transparent closure the summed transparent weight is 0, so the
    claimed alpha is 1 in every channel, but [shader_bsdf_alpha] returns 0. *)
Lemma shader_bsdf_alpha_volume_only :
  ~ float3_eq
      (shader_bsdf_alpha (KT := sample_kernel_types)
         {| shader_flag := 2; diffuse_bounces := 0; glossy_bounces := 0;
            transmission_bounces := 0; randb_closure := 0; closure := [] |})
      (clamp_unit3
         (float3_sub (make_float3 1 1 1)
            (transparent_weight (KT := sample_kernel_types) []))).
Proof. intros (H & _). vm_compute in H. discriminate. Qed.

(** C10 (amended): every channel of the colour returned by
    [shader_bsdf_alpha] lies in [0, 1], whatever the closure weights.  For a
    shader not flagged [SD_SHADER_HAS_ONLY_VOLUME] the colour is one minus
    the summed weight of the transparent closures, clamped channel-wise into
    [0, 1]; for a shader flagged volume-only it is 0 in every channel. *)
Theorem shader_bsdf_alpha_clamped `{KT : kernel_types} (sd : ShaderData) :
  in_unit_cube (shader_bsdf_alpha sd)
  /\ (Z.land (shader_flag sd) SD_SHADER_HAS_ONLY_VOLUME = 0 ->
      float3_eq (shader_bsdf_alpha sd)
        (clamp_unit3
           (float3_sub (make_float3 1 1 1) (transparent_weight (closure sd)))))
  /\ (Z.land (shader_flag sd) SD_SHADER_HAS_ONLY_VOLUME <> 0 ->
      float3_eq (shader_bsdf_alpha sd) (make_float3 0 0 0)).
Proof.
  split; [|split].
  - unfold in_unit_cube, shader_bsdf_alpha; simpl.
    repeat split; apply clamp_in_unit.
  - intros H%truthy_false.
    unfold shader_bsdf_alpha, shader_bsdf_transparency. rewrite H.
    destruct (transparency_sum_spec (closure sd) (make_float3 0 0 0))
      as (Hx & Hy & Hz).
    simpl in Hx, Hy, Hz. rewrite Qplus_0_l in Hx, Hy, Hz.
    repeat split; simpl.
    + rewrite Hx. apply clamp_unit_min_max.
    + rewrite Hy. apply clamp_unit_min_max.
    + rewrite Hz. apply clamp_unit_min_max.
  - intros H%truthy_true.
    unfold shader_bsdf_alpha, shader_bsdf_transparency. rewrite H.
    repeat split; reflexivity.
Qed.

(** The statement of C10 (amended) at an array whose transparent closures
    weigh more than one in total, next to a diffuse closure. *)
Lemma shader_bsdf_alpha_clamped_witness :
  float3_eq
    (shader_bsdf_alpha (KT := sample_kernel_types)
       (shader_data_of [lobe 30 (3 # 4) 1 0; lobe 2 1 1 1; lobe 30 (3 # 4) 1 0] 0))
    (make_float3 0 0 0).
Proof.
  destruct (shader_bsdf_alpha_clamped (KT := sample_kernel_types)
              (shader_data_of
                 [lobe 30 (3 # 4) 1 0; lobe 2 1 1 1; lobe 30 (3 # 4) 1 0] 0))
    as (_ & H & _).
  eapply float3_eq_trans.
  - apply H. reflexivity.
  - vm_compute. repeat split; reflexivity.
Defined.

(* ===================================================================== *)
(** * Properties of kernel_shader.h: sampling *)
(* ===================================================================== *)

Section SamplingFacts.
Context `{KT : kernel_types} `{CO : closure_ops}.

Lemma bsdf_weight_cons sc cl :
  bsdf_weight (sc :: cl)
  = if CLOSURE_IS_BSDF (type sc)
    then (sample_weight sc + bsdf_weight cl)%Q else bsdf_weight cl.
Proof.
  unfold bsdf_weight. rewrite filter_cons.
  destruct (CLOSURE_IS_BSDF (type sc)) eqn:Hb.
  - rewrite decide_True by reflexivity. reflexivity.
  - rewrite decide_False by discriminate. reflexivity.
Qed.

Lemma bsdf_weight_app l1 l2 :
  (bsdf_weight (l1 ++ l2) == bsdf_weight l1 + bsdf_weight l2)%Q.
Proof.
  induction l1 as [|sc l1 IH].
  - simpl. unfold bsdf_weight at 2. simpl. ring.
  - rewrite <- app_comm_cons, !bsdf_weight_cons.
    destruct (CLOSURE_IS_BSDF (type sc)); rewrite IH; ring.
Qed.

Lemma bsdf_weight_nonneg cl :
  Forall (fun c => (0 <= sample_weight c)%Q) cl -> (0 <= bsdf_weight cl)%Q.
Proof.
  induction 1 as [|sc cl Hsc _ IH].
  - discriminate.
  - rewrite bsdf_weight_cons. destruct (CLOSURE_IS_BSDF (type sc)); [|exact IH].
    change 0%Q with (0 + 0)%Q. apply Qplus_le_compat; assumption.
Qed.

(** The first loop of [shader_bsdf_sample] adds the BSDF sample weights. *)
Lemma bsdf_sample_weight_sum_spec cl sum :
  (bsdf_sample_weight_sum cl sum == sum + bsdf_weight cl)%Q.
Proof.
  revert sum. induction cl as [|sc cl IH]; intros sum; simpl.
  - unfold bsdf_weight; simpl. ring.
  - rewrite IH, bsdf_weight_cons.
    destruct (CLOSURE_IS_BSDF (type sc)); ring.
Qed.

(** The second loop stops inside the array only at a BSDF closure. *)
Lemma pick_closure_range cl r sampled sum :
  (sampled <= pick_closure cl r sampled sum <= sampled + length cl)%nat.
Proof.
  revert sampled sum. induction cl as [|sc cl IH]; intros sampled sum; simpl.
  - lia.
  - destruct (CLOSURE_IS_BSDF (type sc)).
    + destruct (Qle_bool r (sum + sample_weight sc)); [lia|].
      specialize (IH (S sampled) (sum + sample_weight sc)%Q). lia.
    + specialize (IH (S sampled) sum). lia.
Qed.

Lemma pick_closure_is_bsdf cl r sampled sum sc :
  cl !! (pick_closure cl r sampled sum - sampled)%nat = Some sc ->
  CLOSURE_IS_BSDF (type sc) = true.
Proof.
  revert sampled sum. induction cl as [|c cl IH]; intros sampled sum; simpl.
  - rewrite Nat.sub_diag. discriminate.
  - destruct (CLOSURE_IS_BSDF (type c)) eqn:Hc.
    + destruct (Qle_bool r (sum + sample_weight c)).
      * rewrite Nat.sub_diag. simpl. intros [= <-]. exact Hc.
      * pose proof (pick_closure_range cl r (S sampled)
                      (sum + sample_weight c)%Q) as Hr.
        replace (pick_closure cl r (S sampled) (sum + sample_weight c) - sampled)%nat
          with (S (pick_closure cl r (S sampled) (sum + sample_weight c)
                   - S sampled)) by lia.
        simpl. apply IH.
    + pose proof (pick_closure_range cl r (S sampled) sum) as Hr.
      replace (pick_closure cl r (S sampled) sum - sampled)%nat
        with (S (pick_closure cl r (S sampled) sum - S sampled)) by lia.
      simpl. apply IH.
Qed.

(** No closure is picked from an array without BSDF closures. *)
Lemma pick_closure_none cl r sampled sum :
  Forall (fun c => CLOSURE_IS_BSDF (type c) = false) cl ->
  pick_closure cl r sampled sum = (sampled + length cl)%nat.
Proof.
  intros H. revert sampled sum.
  induction H as [|c cl Hc _ IH]; intros sampled sum; simpl.
  - lia.
  - rewrite Hc, IH. lia.
Qed.
End SamplingFacts.

Section MultiEvalFacts.
Context `{KT : kernel_types} `{CO : closure_ops}.
Variable sd : ShaderData.
Variable omega_in : float3.

Lemma bsdf_pdf_weight_cons sc cl :
  bsdf_pdf_weight sd omega_in (sc :: cl)
  = if CLOSURE_IS_BSDF (type sc)
    then ((bsdf_eval sd sc omega_in).2 * sample_weight sc
          + bsdf_pdf_weight sd omega_in cl)%Q
    else bsdf_pdf_weight sd omega_in cl.
Proof.
  unfold bsdf_pdf_weight. rewrite filter_cons.
  destruct (CLOSURE_IS_BSDF (type sc)) eqn:Hb.
  - rewrite decide_True by reflexivity. reflexivity.
  - rewrite decide_False by discriminate. reflexivity.
Qed.

Lemma bsdf_pdf_weight_app l1 l2 :
  (bsdf_pdf_weight sd omega_in (l1 ++ l2)
   == bsdf_pdf_weight sd omega_in l1 + bsdf_pdf_weight sd omega_in l2)%Q.
Proof.
  induction l1 as [|sc l1 IH].
  - simpl. unfold bsdf_pdf_weight at 2. simpl. ring.
  - rewrite <- app_comm_cons, !bsdf_pdf_weight_cons.
    destruct (CLOSURE_IS_BSDF (type sc)); rewrite IH; ring.
Qed.

Lemma bsdf_pdf_weight_nonneg cl :
  Forall (nonneg_closure sd) cl -> (0 <= bsdf_pdf_weight sd omega_in cl)%Q.
Proof.
  induction 1 as [|sc cl [Hsc Hpdf] _ IH].
  - discriminate.
  - rewrite bsdf_pdf_weight_cons.
    destruct (CLOSURE_IS_BSDF (type sc)); [|exact IH].
    change 0%Q with (0 + 0)%Q. apply Qplus_le_compat; [|exact IH].
    apply Qmult_le_0_compat; [apply Hpdf|exact Hsc].
Qed.

Lemma multi_eval_loop_app skip l1 l2 i acc :
  multi_eval_loop sd omega_in skip (l1 ++ l2) i acc
  = multi_eval_loop sd omega_in skip l2 (i + Z.of_nat (length l1))
      (multi_eval_loop sd omega_in skip l1 i acc).
Proof.
  revert i acc. induction l1 as [|sc l1 IH]; intros i acc.
  - simpl. rewrite Z.add_0_r. reflexivity.
  - destruct acc as [[e sp] ssw].
    cbn [app multi_eval_loop length]. rewrite IH.
    f_equal. lia.
Qed.

(** Away from the skipped index the loop adds, for every BSDF closure, its
    sample weight to [sum_sample_weight] and its pdf times its sample
    weight to [sum_pdf]. *)
Lemma multi_eval_loop_others skip cl :
  forall i acc,
    skip < i \/ i + Z.of_nat (length cl) <= skip ->
    ((multi_eval_loop sd omega_in skip cl i acc).1.2
     == acc.1.2 + bsdf_pdf_weight sd omega_in cl)%Q
    /\ ((multi_eval_loop sd omega_in skip cl i acc).2
        == acc.2 + bsdf_weight cl)%Q.
Proof.
  induction cl as [|sc cl IH]; intros i acc Hskip.
  - unfold bsdf_weight, bsdf_pdf_weight; simpl. split; ring.
  - destruct acc as [[e sp] ssw].
    cbn [multi_eval_loop]. rewrite bsdf_weight_cons, bsdf_pdf_weight_cons.
    assert (Hne : (i =? skip) = false).
    { apply Z.eqb_neq. rewrite length_cons in Hskip. lia. }
    rewrite Hne.
    assert (Hskip' : skip < i + 1 \/ i + 1 + Z.of_nat (length cl) <= skip).
    { rewrite length_cons in Hskip. lia. }
    destruct (CLOSURE_IS_BSDF (type sc)).
    + destruct (bsdf_eval sd sc omega_in) as [ev p]. cbn [snd].
      destruct (float_nonzero p) eqn:Hnz.
      * destruct (IH (i + 1) (bsdf_eval_accum e (type sc)
                                (float3_mul ev (weight sc)) 1,
                              (sp + p * sample_weight sc)%Q,
                              (ssw + sample_weight sc)%Q) Hskip') as [H1 H2].
        simpl in H1, H2 |- *. split; [rewrite H1|rewrite H2]; ring.
      * assert (Hp0 : (p == 0)%Q).
        { unfold float_nonzero in Hnz. apply negb_false_iff in Hnz.
          apply Qeq_bool_iff in Hnz. exact Hnz. }
        destruct (IH (i + 1) (e, sp, (ssw + sample_weight sc)%Q) Hskip')
          as [H1 H2].
        simpl in H1, H2 |- *. split; [rewrite H1, Hp0|rewrite H2]; ring.
    + apply (IH (i + 1) (e, sp, ssw) Hskip').
Qed.

(** With the picked closure at index [length pre] skipped, the loop adds
    the contributions of all other BSDF closures. *)
Lemma multi_eval_loop_skip pre sc post acc :
  ((multi_eval_loop sd omega_in (Z.of_nat (length pre))
      (pre ++ sc :: post) 0 acc).1.2
   == acc.1.2 + bsdf_pdf_weight sd omega_in (pre ++ post))%Q
  /\ ((multi_eval_loop sd omega_in (Z.of_nat (length pre))
         (pre ++ sc :: post) 0 acc).2
      == acc.2 + bsdf_weight (pre ++ post))%Q.
Proof.
  rewrite multi_eval_loop_app.
  destruct (multi_eval_loop_others (Z.of_nat (length pre)) pre 0 acc
              ltac:(lia)) as [H1 H2].
  set (acc1 := multi_eval_loop sd omega_in (Z.of_nat (length pre)) pre 0 acc) in *.
  destruct acc1 as [[e1 sp1] ssw1] eqn:Hacc1.
  cbn [multi_eval_loop]. rewrite Z.add_0_l, Z.eqb_refl.
  destruct (multi_eval_loop_others (Z.of_nat (length pre)) post
              (Z.of_nat (length pre) + 1) (e1, sp1, ssw1)
              ltac:(lia)) as [H3 H4].
  simpl in H1, H2, H3, H4.
  rewrite bsdf_pdf_weight_app, bsdf_weight_app. split.
  - rewrite H3, H1. ring.
  - rewrite H4, H2. ring.
Qed.
End MultiEvalFacts.

(** C6: when the array holds more than one closure and the cumulative
    sample-weight scan of [shader_bsdf_sample] runs off its end,
    the function returns [LABEL_NONE] with pdf 0; the out-parameters
    [omega_in], [domega_in] and [bsdf_eval] keep their contents, and no
    closure is sampled.  The scan runs off the end in particular when the
    array holds no BSDF closure. *)
Theorem shader_bsdf_sample_no_closure_picked
    `{KT : kernel_types} `{CO : closure_ops}
    (use_light_pass : Z) (sd : ShaderData) (randu randv : Q)
    (bsdf_eval0 : BsdfEval) (omega_in0 : float3) (domega_in0 : differential3) :
  (1 < num_closure sd)%nat ->
  (pick_closure (closure sd)
     (randb_closure sd * bsdf_sample_weight_sum (closure sd) 0)%Q 0 0
   = num_closure sd ->
   shader_bsdf_sample use_light_pass sd randu randv bsdf_eval0 omega_in0
     domega_in0
   = Some {| out_label := LABEL_NONE; out_bsdf_eval := bsdf_eval0;
             out_omega_in := omega_in0; out_domega_in := domega_in0;
             out_pdf := 0 |})
  /\ (Forall (fun sc => CLOSURE_IS_BSDF (type sc) = false) (closure sd) ->
      pick_closure (closure sd)
        (randb_closure sd * bsdf_sample_weight_sum (closure sd) 0)%Q 0 0
      = num_closure sd).
Proof.
  intros Hn. split.
  - intros Hpick.
    unfold shader_bsdf_sample, sampled_index.
    apply Nat.ltb_lt in Hn. rewrite Hn, Hpick, Nat.eqb_refl. reflexivity.
  - intros Hnone. rewrite pick_closure_none by exact Hnone. reflexivity.
Qed.

(** The statement of C6 at an array of an emission and a holdout closure. *)
Lemma shader_bsdf_sample_no_closure_picked_witness :
  shader_bsdf_sample (KT := sample_kernel_types) (CO := constant_density_ops)
    0 (shader_data_of [lobe 40 1 1 1; lobe 41 1 1 1] (1 # 2)) (1 # 4) (3 # 4)
    (make_float3 7 7 7) (make_float3 0 1 0) zero_differential
  = Some (Build_ShaderSample constant_density_ops 0 (make_float3 7 7 7)
            (make_float3 0 1 0) zero_differential 0).
Proof.
  apply (shader_bsdf_sample_no_closure_picked (KT := sample_kernel_types)
           (CO := constant_density_ops)).
  - unfold num_closure; simpl. lia.
  - reflexivity.
Defined.

(** C4 as stated fails: two diffuse lobes of equal sample weight, of
    density 1 and 1/2.  The first is picked and sampled with pdf 1; the
    pdf returned by [shader_bsdf_sample] is 3/4. *)
Lemma shader_bsdf_sample_pdf_below_single :
  match
    shader_bsdf_sample (KT := sample_kernel_types) (CO := constant_density_ops)
      0 (shader_data_of [lobe 2 1 1 1; lobe 2 1 1 (1 # 2)] 0) (1 # 4) (3 # 4)
      (make_float3 0 0 0) (make_float3 0 1 0) zero_differential,
    single_closure_sample (KT := sample_kernel_types)
      (CO := constant_density_ops)
      (shader_data_of [lobe 2 1 1 1; lobe 2 1 1 (1 # 2)] 0) (1 # 4) (3 # 4)
      (make_float3 0 1 0) zero_differential
  with
  | Some out, Some single =>
      (bs_pdf single == 1 /\ out_pdf out == 3 # 4
       /\ ~ bs_pdf single <= out_pdf out)%Q
  | _, _ => False
  end.
Proof.
  vm_compute. split; [reflexivity|]. split; [reflexivity|].
  intros H. apply H. reflexivity.
Qed.

Lemma Qle_bool_false a b : Qle_bool a b = false -> (b < a)%Q.
Proof.
  intros H. apply Qnot_le_lt. intros Hle. apply Qle_bool_iff in Hle. congruence.
Qed.

(** C4 (amended): when more than one closure is present, a closure is
    picked and its sample has a nonzero pdf, the pdf returned by
    [shader_bsdf_sample] is the sample-weight-normalised combination of the
    closure pdfs: the single-closure pdf times the picked closure's sample
    weight, plus the pdfs of the other BSDF closures at the sampled
    direction times their sample weights, divided by the total BSDF sample
    weight (and 0 when that total is not positive).  When the sample
    weights of the closures and the pdfs they evaluate to are nonnegative,
    it is nonnegative and at least the single-closure pdf scaled by the
    picked closure's share of the total BSDF sample weight, that is
    [single pdf * sample_weight <= returned pdf * total sample weight]. *)
Theorem shader_bsdf_sample_mis_pdf `{KT : kernel_types} `{CO : closure_ops}
    (use_light_pass : Z) (sd : ShaderData) (randu randv : Q)
    (bsdf_eval0 : BsdfEval) (omega_in0 : float3) (domega_in0 : differential3)
    (sc : ShaderClosure) :
  (1 < num_closure sd)%nat ->
  closure sd !! sampled_index sd = Some sc ->
  (~ bs_pdf (bsdf_sample sd sc randu randv omega_in0 domega_in0) == 0)%Q ->
  exists out,
    shader_bsdf_sample use_light_pass sd randu randv bsdf_eval0 omega_in0
      domega_in0 = Some out
    /\ out_label out
       = bs_label (bsdf_sample sd sc randu randv omega_in0 domega_in0)
    /\ out_omega_in out
       = bs_omega_in (bsdf_sample sd sc randu randv omega_in0 domega_in0)
    /\ ((0 < bsdf_sample_weight_sum (closure sd) 0)%Q ->
        (out_pdf out
         == (bs_pdf (bsdf_sample sd sc randu randv omega_in0 domega_in0)
               * sample_weight sc
             + bsdf_pdf_weight sd (out_omega_in out)
                 (delete (sampled_index sd) (closure sd)))
            / bsdf_sample_weight_sum (closure sd) 0)%Q)
    /\ ((bsdf_sample_weight_sum (closure sd) 0 <= 0)%Q ->
        out_pdf out = 0%Q)
    /\ ((0 <= bs_pdf (bsdf_sample sd sc randu randv omega_in0 domega_in0))%Q ->
        Forall (nonneg_closure sd) (closure sd) ->
        (0 <= out_pdf out)%Q
        /\ (bs_pdf (bsdf_sample sd sc randu randv omega_in0 domega_in0)
              * sample_weight sc
            <= out_pdf out * bsdf_sample_weight_sum (closure sd) 0)%Q).
Proof.
  intros Hn Hsc Hnz.
  set (s := bsdf_sample sd sc randu randv omega_in0 domega_in0) in *.
  pose proof (lookup_lt_Some _ _ _ Hsc) as Hlt.
  assert (Hbsdf : CLOSURE_IS_BSDF (type sc) = true).
  { revert Hsc. unfold sampled_index.
    apply Nat.ltb_lt in Hn. rewrite Hn.
    intros Hsc. eapply pick_closure_is_bsdf. rewrite Nat.sub_0_r. exact Hsc. }
  unfold shader_bsdf_sample.
  replace (sampled_index sd =? num_closure sd)%nat with false
    by (symmetry; apply Nat.eqb_neq; unfold num_closure; lia).
  rewrite andb_false_r, Hsc. fold s.
  assert (Hnzb : float_nonzero (bs_pdf s) = true).
  { unfold float_nonzero. destruct (Qeq_bool (bs_pdf s) 0) eqn:He; [|reflexivity].
    apply Qeq_bool_iff in He. contradiction. }
  rewrite Hnzb. apply Nat.ltb_lt in Hn. rewrite Hn.
  unfold _shader_bsdf_multi_eval.
  pose proof (take_drop_middle _ _ _ Hsc) as Hsplit.
  assert (Hlen : length (take (sampled_index sd) (closure sd)) = sampled_index sd).
  { rewrite length_take. lia. }
  set (pre := take (sampled_index sd) (closure sd)) in *.
  set (post := drop (S (sampled_index sd)) (closure sd)) in *.
  set (e1 := bsdf_eval_init (type sc) (float3_mul (bs_eval s) (weight sc))
               use_light_pass).
  destruct (multi_eval_loop_skip sd (bs_omega_in s) pre sc post
              (e1, (bs_pdf s * sample_weight sc)%Q, sample_weight sc))
    as [Hsp Hssw].
  assert (Hdel : delete (sampled_index sd) (closure sd) = pre ++ post).
  { rewrite <- Hsplit at 1. rewrite <- Hlen at 1. apply delete_middle. }
  rewrite Hlen, Hsplit in Hsp, Hssw.
  destruct (multi_eval_loop sd (bs_omega_in s) (Z.of_nat (sampled_index sd))
              (closure sd) 0
              (e1, (bs_pdf s * sample_weight sc)%Q, sample_weight sc))
    as [[e2 sp] ssw].
  cbn [fst snd] in Hsp, Hssw.
  assert (HW : (bsdf_sample_weight_sum (closure sd) 0 == ssw)%Q).
  { rewrite bsdf_sample_weight_sum_spec, Hssw, <- Hsplit, !bsdf_weight_app,
      bsdf_weight_cons, Hbsdf. ring. }
  eexists. split; [reflexivity|]. cbn [out_label out_omega_in out_pdf].
  split; [reflexivity|]. split; [reflexivity|].
  rewrite Hdel. split; [|split].
  - intros HWpos. rewrite HW in HWpos.
    replace (Qle_bool ssw 0) with false; cbn [negb].
    + rewrite HW, Hsp. reflexivity.
    + symmetry. destruct (Qle_bool ssw 0) eqn:Hz; [|reflexivity].
      apply Qle_bool_iff in Hz. exfalso. apply (Qlt_not_le _ _ HWpos Hz).
  - intros HWle. rewrite HW in HWle. apply Qle_bool_iff in HWle.
    rewrite HWle. reflexivity.
  - intros Hpos Hw.
    assert (Hsw : (0 <= sample_weight sc)%Q).
    { rewrite Forall_forall in Hw. apply Hw. eapply list_elem_of_lookup_2, Hsc. }
    assert (Hothers : Forall (nonneg_closure sd) (pre ++ post)).
    { rewrite <- Hsplit in Hw. apply Forall_app in Hw as [Hw1 Hw2].
      apply Forall_cons in Hw2 as [_ Hw2]. apply Forall_app. split; assumption. }
    pose proof (bsdf_pdf_weight_nonneg sd (bs_omega_in s) _ Hothers) as HP.
    assert (HWo : (0 <= bsdf_weight (pre ++ post))%Q).
    { apply bsdf_weight_nonneg. eapply Forall_impl; [exact Hothers|].
      intros c [Hc _]. exact Hc. }
    assert (Hge : (bs_pdf s * sample_weight sc <= sp)%Q).
    { rewrite Hsp. rewrite <- (Qplus_0_r (bs_pdf s * sample_weight sc)) at 1.
      apply Qplus_le_compat; [apply Qle_refl|exact HP]. }
    assert (Hsp0 : (0 <= sp)%Q).
    { eapply Qle_trans; [|exact Hge]. apply Qmult_le_0_compat; assumption. }
    destruct (Qle_bool ssw 0) eqn:Hz; cbn [negb].
    + split; [apply Qle_refl|].
      apply Qle_bool_iff in Hz. rewrite Qmult_0_l.
      assert (Hsw0 : (sample_weight sc == 0)%Q).
      { apply Qle_antisym; [|exact Hsw].
        eapply Qle_trans; [|exact Hz]. rewrite Hssw.
        rewrite <- (Qplus_0_r (sample_weight sc)) at 1.
        apply Qplus_le_compat; [apply Qle_refl|exact HWo]. }
      rewrite Hsw0, Qmult_0_r. apply Qle_refl.
    + apply Qle_bool_false in Hz. split.
      * apply Qle_shift_div_l; [exact Hz|]. rewrite Qmult_0_l. exact Hsp0.
      * rewrite HW. unfold Qdiv. rewrite <- Qmult_assoc.
        rewrite (Qmult_comm (/ ssw)), Qmult_inv_r, Qmult_1_r; [exact Hge|].
        intros H0. rewrite H0 in Hz. discriminate.
Qed.

(** The statement of C4 (amended) at the two lobes of density 1 and 1/2:
    the picked lobe has pdf 1 and half of the total sample weight 2. *)
Lemma shader_bsdf_sample_mis_pdf_witness :
  exists out,
    shader_bsdf_sample (KT := sample_kernel_types) (CO := constant_density_ops)
      0 (shader_data_of [lobe 2 1 1 1; lobe 2 1 1 (1 # 2)] 0) (1 # 4) (3 # 4)
      (make_float3 0 0 0) (make_float3 0 1 0) zero_differential = Some out
    /\ (1 * 1 <= out_pdf out * 2)%Q.
Proof.
  destruct (shader_bsdf_sample_mis_pdf (KT := sample_kernel_types)
              (CO := constant_density_ops) 0
              (shader_data_of [lobe 2 1 1 1; lobe 2 1 1 (1 # 2)] 0)
              (1 # 4) (3 # 4) (make_float3 0 0 0) (make_float3 0 1 0)
              zero_differential (lobe 2 1 1 1))
    as (out & Hout & _ & _ & _ & _ & Hpdf).
  - unfold num_closure; simpl. lia.
  - reflexivity.
  - intros H. vm_compute in H. discriminate.
  - exists out. split; [exact Hout|]. apply Hpdf.
    + vm_compute. discriminate.
    + unfold nonneg_closure; simpl.
      repeat (constructor; [split; [|intros _]; discriminate|]).
      constructor.
Defined.

(* ===================================================================== *)
(** * Properties of kernel_shader.h: merging *)
(* ===================================================================== *)

Section MergeFacts.
Context `{KT : kernel_types} `{CO : closure_ops}.

Lemma lookup_scan_i (pre : list ShaderClosure) sci tail :
  (pre ++ sci :: tail) !! length pre = Some sci.
Proof. apply list_lookup_middle. reflexivity. Qed.

Lemma lookup_scan_j (pre : list ShaderClosure) sci mid rest :
  (pre ++ sci :: mid ++ rest) !! (length pre + 1 + length mid)%nat
  = rest !! 0%nat.
Proof.
  rewrite lookup_app_r by lia.
  replace (length pre + 1 + length mid - length pre)%nat
    with (S (length mid)) by lia.
  simpl. rewrite lookup_app_r by lia. rewrite Nat.sub_diag. reflexivity.
Qed.

Lemma merge_step_shape (pre : list ShaderClosure) sci mid scj rest s :
  delete (length pre + 1 + length mid)%nat
    (<[length pre := s]> (pre ++ sci :: mid ++ scj :: rest))
  = pre ++ s :: mid ++ rest.
Proof.
  rewrite insert_app_r_alt by lia. rewrite Nat.sub_diag. simpl.
  replace (pre ++ s :: mid ++ scj :: rest)
    with ((pre ++ s :: mid) ++ scj :: rest)
    by (rewrite <- app_assoc; reflexivity).
  replace (length pre + 1 + length mid)%nat with (length (pre ++ s :: mid))
    by (rewrite length_app; simpl; lia).
  rewrite delete_middle. rewrite <- app_assoc. reflexivity.
Qed.

(** The copy loop moves the closures behind [j] down and leaves the last
    of them twice, once as the new last closure and once in the slot that
    falls out of the live prefix. *)
Lemma shift_down_spec (tail : list ShaderClosure) :
  forall pre scj stale,
    shift_down (pre ++ scj :: tail ++ stale) (length pre) (length tail)
    = pre ++ tail ++ default scj (last tail) :: stale.
Proof.
  induction tail as [|next tail IH]; intros pre scj stale.
  - reflexivity.
  - cbn [length shift_down].
    replace (S (length pre)) with (length (pre ++ [scj]))
      by (rewrite length_app; simpl; lia).
    replace (pre ++ scj :: (next :: tail) ++ stale)
      with ((pre ++ [scj]) ++ next :: tail ++ stale)
      by (rewrite <- app_assoc; reflexivity).
    rewrite list_lookup_middle by reflexivity.
    rewrite <- app_assoc. cbn [app].
    rewrite insert_app_r_alt by lia. rewrite Nat.sub_diag. cbn [insert list_insert].
    replace (pre ++ next :: next :: tail ++ stale)
      with ((pre ++ [next]) ++ next :: tail ++ stale)
      by (rewrite <- app_assoc; reflexivity).
    replace (length (pre ++ [scj])) with (length (pre ++ [next]))
      by (rewrite !length_app; reflexivity).
    rewrite IH. rewrite <- app_assoc. cbn [app].
    rewrite (last_cons next tail). destruct (last tail); reflexivity.
Qed.

(** On the live prefix the removal of lines 629-636 is the deletion of
    position [j]. *)
Lemma remove_closure_live_prefix (arr : list ShaderClosure) (num j : nat) :
  (j < num <= length arr)%nat ->
  take (remove_closure arr num j).2 (remove_closure arr num j).1
  = delete j (take num arr).
Proof.
  intros [Hj Hnum]. unfold remove_closure. cbn [fst snd].
  assert (Hsplit : exists pre scj tail stale,
             arr = pre ++ scj :: tail ++ stale
             /\ length pre = j /\ length tail = (num - (j + 1))%nat).
  { destruct (lookup_lt_is_Some_2 arr j ltac:(lia)) as [scj Hscj].
    exists (take j arr), scj, (take (num - (j + 1)) (drop (S j) arr)),
      (drop (num - (j + 1)) (drop (S j) arr)).
    split; [|split].
    - rewrite take_drop. symmetry. apply take_drop_middle. exact Hscj.
    - rewrite length_take. lia.
    - rewrite length_take, length_drop. lia. }
  destruct Hsplit as (pre & scj & tail & stale & -> & Hpre & Htail).
  subst j. rewrite <- Htail. rewrite shift_down_spec.
  replace (num - 1)%nat with (length (pre ++ tail))
    by (rewrite length_app; lia).
  rewrite app_assoc, take_app_length.
  replace num with (length (pre ++ scj :: tail))
    by (rewrite length_app; simpl; lia).
  replace (pre ++ scj :: tail ++ stale) with ((pre ++ scj :: tail) ++ stale)
    by (rewrite <- app_assoc; reflexivity).
  rewrite take_app_length. rewrite delete_middle.
  reflexivity.
Qed.

(** The inner loop, started at [j] behind the closures [mid] already
    scanned, computes [absorb]; [length rest] iterations are enough. *)
Lemma merge_scan_j_absorb rest :
  forall fuel pre sci mid,
    (length rest <= fuel)%nat ->
    merge_scan_j fuel (pre ++ sci :: mid ++ rest) (length pre)
      (length pre + 1 + length mid)
    = pre ++ (absorb sci rest).1 :: mid ++ (absorb sci rest).2.
Proof.
  induction rest as [|scj rest IH]; intros fuel pre sci mid Hfuel.
  - destruct fuel as [|fuel]; [reflexivity|].
    cbn [merge_scan_j]. rewrite lookup_scan_i, lookup_scan_j. reflexivity.
  - destruct fuel as [|fuel]; [simpl in Hfuel; lia|].
    simpl in Hfuel.
    cbn [merge_scan_j absorb]. rewrite lookup_scan_i, lookup_scan_j.
    cbn [lookup list_lookup]. unfold mergeable.
    assert (Hnext : pre ++ sci :: mid ++ scj :: rest
                    = pre ++ sci :: (mid ++ [scj]) ++ rest).
    { rewrite <- (app_assoc mid). reflexivity. }
    assert (Hj : S (length pre + 1 + length mid)
                 = (length pre + 1 + length (mid ++ [scj]))%nat).
    { rewrite length_app. simpl. lia. }
    destruct (type sci =? type scj); cbn [negb andb].
    + destruct (bsdf_merge sci scj); cbn [negb].
      * rewrite merge_step_shape. apply IH. lia.
      * rewrite Hnext, Hj, IH by lia.
        destruct (absorb sci rest) as [s r]. simpl.
        rewrite <- (app_assoc mid). reflexivity.
    + rewrite Hnext, Hj, IH by lia.
      destruct (absorb sci rest) as [s r]. simpl.
      rewrite <- (app_assoc mid). reflexivity.
Qed.

Lemma absorb_length sci rest : (length (absorb sci rest).2 <= length rest)%nat.
Proof.
  revert sci. induction rest as [|scj rest IH]; intros sci; simpl.
  - lia.
  - destruct (mergeable sci scj).
    + specialize (IH (merge_into sci scj)). lia.
    + specialize (IH sci). destruct (absorb sci rest). simpl in *. lia.
Qed.

(** The outer loop, started at [i] behind the closures [done] already
    processed, computes [merge_all]. *)
Lemma merge_scan_i_merge_all fuel :
  forall done todo,
    (length todo <= fuel)%nat ->
    merge_scan_i fuel (done ++ todo) (length done)
    = done ++ merge_all fuel todo.
Proof.
  induction fuel as [|fuel IH]; intros done todo Hfuel.
  - reflexivity.
  - cbn [merge_scan_i]. destruct todo as [|sci rest].
    + cbn [merge_all]. rewrite app_nil_r, Nat.ltb_irrefl. reflexivity.
    + replace (length done <? length (done ++ sci :: rest))%nat with true
        by (symmetry; apply Nat.ltb_lt; rewrite length_app; simpl; lia).
      pose proof (merge_scan_j_absorb rest (length (done ++ sci :: rest))
                    done sci []) as Hj.
      simpl in Hj. rewrite Nat.add_1_r, Nat.add_0_r in Hj.
      rewrite Hj by (rewrite length_app; simpl; lia).
      pose proof (absorb_length sci rest) as Hlen.
      cbn [merge_all]. destruct (absorb sci rest) as [s r]. simpl in *.
      replace (done ++ s :: r) with ((done ++ [s]) ++ r)
        by (rewrite <- app_assoc; reflexivity).
      replace (S (length done)) with (length (done ++ [s]))
        by (rewrite length_app; simpl; lia).
      rewrite IH by lia. rewrite <- app_assoc. reflexivity.
Qed.

(** [shader_merge_closures] leaves the array [merge_all] describes: the
    loops end by their own conditions within the iteration bounds. *)
Lemma shader_merge_closures_merge_all (sd : ShaderData) :
  closure (shader_merge_closures sd)
  = merge_all (length (closure sd)) (closure sd).
Proof.
  unfold shader_merge_closures. simpl.
  apply (merge_scan_i_merge_all (length (closure sd)) [] (closure sd)). lia.
Qed.
End MergeFacts.

Section MergeResults.
Context `{KT : kernel_types} `{CO : closure_ops}.

Lemma absorb_free sci rest :
  Forall (fun scj => mergeable sci scj = false) rest ->
  absorb sci rest = (sci, rest).
Proof.
  induction 1 as [|scj rest Hj _ IH]; simpl.
  - reflexivity.
  - rewrite Hj, IH. reflexivity.
Qed.

Lemma merge_all_free fuel cl : merge_free cl -> merge_all fuel cl = cl.
Proof.
  intros H. revert fuel. induction H as [|sci rest Hi _ IH]; intros fuel.
  - destruct fuel; reflexivity.
  - destruct fuel as [|fuel]; [reflexivity|].
    cbn [merge_all]. rewrite (absorb_free _ _ Hi), IH. reflexivity.
Qed.

Lemma merge_free_app_inv pre cl :
  merge_free (pre ++ cl) ->
  merge_free pre /\ merge_free cl
  /\ Forall (fun sci => Forall (fun scj => mergeable sci scj = false) cl) pre.
Proof.
  unfold merge_free. induction pre as [|sc pre IH]; simpl; intros H.
  - repeat split; [constructor|exact H|constructor].
  - inversion H as [|? ? Hsc Hrest]; subst.
    destruct (IH Hrest) as (H1 & H2 & H3).
    apply Forall_app in Hsc as [Hsc1 Hsc2].
    repeat split; [constructor; assumption|assumption|constructor; assumption].
Qed.

Lemma merge_all_prefix pre cl fuel :
  merge_free pre ->
  Forall (fun sci => Forall (fun scj => mergeable sci scj = false) cl) pre ->
  merge_all (length pre + fuel) (pre ++ cl) = pre ++ merge_all fuel cl.
Proof.
  unfold merge_free. induction pre as [|sc pre IH]; intros Hfree Hcl.
  - reflexivity.
  - inversion Hfree as [|? ? Hsc Hrest]; subst.
    apply Forall_cons in Hcl as [Hsc' Hcl].
    cbn [length Nat.add app merge_all].
    rewrite absorb_free by (apply Forall_app; split; assumption).
    rewrite IH by assumption. reflexivity.
Qed.

Lemma absorb_pair a mid b post :
  Forall (fun sc => mergeable a sc = false) mid ->
  mergeable a b = true ->
  Forall (fun sc => mergeable (merge_into a b) sc = false) post ->
  absorb a (mid ++ b :: post) = (merge_into a b, mid ++ post).
Proof.
  intros Hmid Hab Hpost.
  induction Hmid as [|sc mid Hsc _ IH]; simpl.
  - rewrite Hab. apply absorb_free. exact Hpost.
  - rewrite Hsc, IH. reflexivity.
Qed.

(** The array left by the scan when [a] and [b] are the one pair it merges. *)
Lemma merge_all_pair pre a mid b post :
  sole_mergeable_pair pre a mid b post ->
  merge_all (length (pre ++ a :: mid ++ b :: post))
    (pre ++ a :: mid ++ b :: post)
  = pre ++ merge_into a b :: mid ++ post.
Proof.
  intros (Hab & Hfree & Hpre & Hpost).
  apply merge_free_app_inv in Hfree as (Hfree_pre & Hfree_rest & Hcross).
  assert (Hfree_tail : merge_free (mid ++ post)).
  { unfold merge_free in Hfree_rest. inversion Hfree_rest; assumption. }
  assert (Ha_mid : Forall (fun sc => mergeable a sc = false) mid).
  { unfold merge_free in Hfree_rest. inversion Hfree_rest as [|? ? Ha _]; subst.
    apply Forall_app in Ha as [Ha _]. exact Ha. }
  rewrite length_app. rewrite merge_all_prefix; [|exact Hfree_pre|].
  - cbn [length merge_all]. rewrite (absorb_pair a mid b post Ha_mid Hab Hpost).
    rewrite merge_all_free by exact Hfree_tail. reflexivity.
  - rewrite Forall_forall in Hcross, Hpre. apply Forall_forall.
    intros sc Hsc. specialize (Hcross sc Hsc). specialize (Hpre sc Hsc).
    apply Forall_cons in Hcross as [Hsa Hrest].
    apply Forall_app in Hrest as [Hsmid Hspost].
    apply Forall_cons. split; [exact Hsa|].
    apply Forall_app. split; [exact Hsmid|].
    apply Forall_cons. split; assumption.
Qed.

(** Every scan conserves the summed weight and the summed sample weight. *)
Lemma absorb_total_weight sci rest :
  float3_eq
    (float3_add (weight (absorb sci rest).1) (total_weight (absorb sci rest).2))
    (float3_add (weight sci) (total_weight rest))
  /\ (sample_weight (absorb sci rest).1 + total_sample_weight (absorb sci rest).2
      == sample_weight sci + total_sample_weight rest)%Q.
Proof.
  revert sci. induction rest as [|scj rest IH]; intros sci.
  - simpl. split; [apply float3_eq_refl|reflexivity].
  - cbn [absorb]. destruct (mergeable sci scj).
    + destruct (IH (merge_into sci scj)) as ((Hx & Hy & Hz) & Hs).
      unfold total_weight, total_sample_weight in *. simpl in *.
      repeat split; simpl; lra.
    + destruct (IH sci) as ((Hx & Hy & Hz) & Hs).
      destruct (absorb sci rest) as [s r].
      unfold total_weight, total_sample_weight in *. simpl in *.
      repeat split; simpl; lra.
Qed.

Lemma merge_all_total_weight fuel cl :
  float3_eq (total_weight (merge_all fuel cl)) (total_weight cl)
  /\ (total_sample_weight (merge_all fuel cl) == total_sample_weight cl)%Q.
Proof.
  revert cl. induction fuel as [|fuel IH]; intros cl.
  - simpl. split; [apply float3_eq_refl|reflexivity].
  - destruct cl as [|sci rest].
    + simpl. split; [apply float3_eq_refl|reflexivity].
    + cbn [merge_all].
      destruct (absorb_total_weight sci rest) as ((Hx & Hy & Hz) & Hs).
      destruct (absorb sci rest) as [s r].
      destruct (IH r) as ((Ix & Iy & Iz) & Is).
      unfold total_weight, total_sample_weight in *. simpl in *.
      repeat split; simpl; lra.
Qed.

(** Every merge shortens the array by exactly one closure. *)
Lemma absorb_count_length sci rest :
  (length (absorb sci rest).2 + absorb_count sci rest = length rest)%nat.
Proof.
  revert sci. induction rest as [|scj rest IH]; intros sci.
  - reflexivity.
  - cbn [absorb absorb_count]. destruct (mergeable sci scj).
    + specialize (IH (merge_into sci scj)). simpl. lia.
    + specialize (IH sci). destruct (absorb sci rest) as [s r].
      simpl in *. lia.
Qed.

Lemma merge_count_length fuel cl :
  (length (merge_all fuel cl) + merge_count fuel cl = length cl)%nat.
Proof.
  revert cl. induction fuel as [|fuel IH]; intros cl.
  - simpl. lia.
  - destruct cl as [|sci rest]; [reflexivity|].
    cbn [merge_all merge_count].
    pose proof (absorb_count_length sci rest) as Ha.
    destruct (absorb sci rest) as [s r]. simpl in *.
    specialize (IH r). lia.
Qed.

(** Every scan keeps the closures it does not absorb, in their order, and
    changes nothing but the weights of the closure it merges into. *)
Lemma absorb_stable sci rest :
  lobe_of (absorb sci rest).1 = lobe_of sci
  /\ sublist (absorb sci rest).2 rest.
Proof.
  revert sci. induction rest as [|scj rest IH]; intros sci.
  - simpl. split; [reflexivity|constructor].
  - cbn [absorb]. destruct (mergeable sci scj).
    + destruct (IH (merge_into sci scj)) as [Hl Hs].
      split; [exact Hl|]. apply sublist_cons. exact Hs.
    + destruct (IH sci) as [Hl Hs]. destruct (absorb sci rest) as [s r].
      simpl in *. split; [exact Hl|]. apply sublist_skip. exact Hs.
Qed.

Lemma merge_all_stable fuel cl :
  sublist (map lobe_of (merge_all fuel cl)) (map lobe_of cl).
Proof.
  revert cl. induction fuel as [|fuel IH]; intros cl.
  - reflexivity.
  - destruct cl as [|sci rest]; [reflexivity|].
    cbn [merge_all]. destruct (absorb_stable sci rest) as [Hl Hs].
    destruct (absorb sci rest) as [s r]. simpl in *.
    rewrite Hl. apply sublist_skip.
    etransitivity; [apply IH|]. apply (fmap_sublist lobe_of). exact Hs.
Qed.
End MergeResults.

(** C3: when two closures [a] and [b] of an array have the same type and
    [bsdf_merge] accepts them, and they are the one pair the scan merges,
    [shader_merge_closures] leaves the array with [b] removed and [a]
    replaced by a closure of the same type and parameters whose weight is
    [a.weight + b.weight] and whose sample weight is
    [a.sample_weight + b.sample_weight]; the array is shorter by exactly
    one and all other closures keep their contents and relative order.
    For every array, whatever is merged, the summed weight and summed
    sample weight are conserved, the array is shorter by exactly the number
    of merges made, and the types and parameters of the remaining closures
    are a subsequence of the original ones. *)
Theorem shader_merge_closures_pair `{CO : closure_ops} (sd : ShaderData) :
  (float3_eq (total_weight (closure (shader_merge_closures sd)))
     (total_weight (closure sd))
   /\ (total_sample_weight (closure (shader_merge_closures sd))
       == total_sample_weight (closure sd))%Q
   /\ (num_closure (shader_merge_closures sd)
       + merge_count (num_closure sd) (closure sd) = num_closure sd)%nat
   /\ sublist (map lobe_of (closure (shader_merge_closures sd)))
        (map lobe_of (closure sd)))
  /\ forall pre a mid b post,
       closure sd = pre ++ a :: mid ++ b :: post ->
       sole_mergeable_pair pre a mid b post ->
       exists merged,
         closure (shader_merge_closures sd) = pre ++ merged :: mid ++ post
         /\ weight merged = float3_add (weight a) (weight b)
         /\ sample_weight merged = (sample_weight a + sample_weight b)%Q
         /\ lobe_of merged = lobe_of a
         /\ S (num_closure (shader_merge_closures sd)) = num_closure sd.
Proof.
  split.
  - unfold num_closure. rewrite shader_merge_closures_merge_all.
    destruct (merge_all_total_weight (length (closure sd)) (closure sd))
      as [Hw Hs].
    split; [exact Hw|]. split; [exact Hs|].
    split; [apply merge_count_length|apply merge_all_stable].
  - intros pre a mid b post Hcl Hpair.
    exists (merge_into a b).
    assert (Hres : closure (shader_merge_closures sd)
                   = pre ++ merge_into a b :: mid ++ post).
    { rewrite shader_merge_closures_merge_all, Hcl.
      apply merge_all_pair. exact Hpair. }
    split; [exact Hres|]. repeat split.
    unfold num_closure. rewrite Hres, Hcl.
    rewrite !length_app. simpl. rewrite !length_app. simpl. lia.
Qed.

(** The statement of C3 at an array of five closures whose second and
    fourth are diffuse lobes with the same parameters. *)
Lemma shader_merge_closures_pair_witness :
  exists merged,
    closure
      (shader_merge_closures (CO := constant_density_ops)
         (shader_data_of
            [lobe 40 1 1 1; lobe 2 1 1 1; lobe 9 1 1 (1 # 2);
             lobe 2 (1 # 2) (1 # 4) 1; lobe 9 1 1 (1 # 4)] 0))
    = [lobe 40 1 1 1; merged; lobe 9 1 1 (1 # 2); lobe 9 1 1 (1 # 4)]
    /\ weight merged
       = float3_add (make_float3 1 1 1) (make_float3 (1 # 2) (1 # 2) (1 # 2))
    /\ sample_weight merged = (1 + (1 # 4))%Q.
Proof.
  destruct (shader_merge_closures_pair (CO := constant_density_ops)
              (shader_data_of
                 [lobe 40 1 1 1; lobe 2 1 1 1; lobe 9 1 1 (1 # 2);
                  lobe 2 (1 # 2) (1 # 4) 1; lobe 9 1 1 (1 # 4)] 0))
    as [_ H].
  destruct (H [lobe 40 1 1 1] (lobe 2 1 1 1) [lobe 9 1 1 (1 # 2)]
              (lobe 2 (1 # 2) (1 # 4) 1) [lobe 9 1 1 (1 # 4)])
    as (merged & Hc & Hw & Hs & _).
  - reflexivity.
  - unfold sole_mergeable_pair, merge_free. split; [reflexivity|].
    split; [|split].
    + repeat (constructor; [repeat (constructor; [reflexivity|]); constructor|]).
      constructor.
    + repeat (constructor; [reflexivity|]). constructor.
    + repeat (constructor; [reflexivity|]). constructor.
  - exists merged. split; [exact Hc|]. split; [exact Hw|exact Hs].
Defined.

(* ===================================================================== *)
(** * Properties of render/image.cpp *)
(* ===================================================================== *)

Lemma ImageDataType_eqb_refl type : ImageDataType_eqb type type = true.
Proof. destruct type; reflexivity. Qed.

Lemma update_slot_lookup {A : Type} (f : ImageDataType -> list A) type slot v :
  (slot < length (f type))%nat ->
  update_slot f type slot v type !! slot = Some v.
Proof.
  intros H. unfold update_slot. rewrite ImageDataType_eqb_refl.
  apply list_lookup_insert_eq. exact H.
Qed.

(** C8 as stated fails: with an OIIO texture system set, a file image whose
    pixels cannot be loaded and whose handle is not good gets no 1x1 image
    and no device texture; only the (null) handle is recorded. *)
Lemma device_load_image_oiio_no_fallback :
  match
    device_load_image 1 0 1 1 sample_image_type_value unreadable
      no_good_handle 0 (manager_with_missing_image false true)
      IMAGE_DATA_TYPE_BYTE4 0 false
  with
  | Some mgr' =>
      tex_image mgr' IMAGE_DATA_TYPE_BYTE4 !! 0%nat = Some None
      /\ device mgr' = ∅
      /\ oiio_textures mgr' !! 1 = Some false
  | None => False
  end.
Proof. vm_compute. repeat split; reflexivity. Qed.

(** C8 (amended): for an image that is not handed to the OIIO texture
    system (no texture system, or builtin data), with the update not
    cancelled and the slot inside the device scene's vector, a failing
    [file_load_image] makes [device_load_image] store a 1x1 image holding
    the constant missing-texture components in the slot (four components
    for the 4-channel types, the red one alone for the single-channel
    types, scaled to the storage type) and clear [need_load]; the image is
    bound on the device by [tex_alloc] exactly when [pack_images] is off,
    and with [pack_images] on the device is left as it was.  For an image
    handed to the OIIO texture system the function stores no image and
    binds no texture. *)
Theorem device_load_image_missing
    (TEX_IMAGE_MISSING_R TEX_IMAGE_MISSING_G TEX_IMAGE_MISSING_B
       TEX_IMAGE_MISSING_A : Z)
    (image_type_value : ImageDataType -> Z)
    (read_image : Image -> ImageDataType -> Z -> option (Z * Z * Z * list Q))
    (oiio_handle_good : Image -> bool) (texture_limit : Z)
    (mgr : ImageManager) (type : ImageDataType) (slot : nat) (img : Image)
    (entry : option device_vector) :
  images mgr type !! slot = Some (Some img) ->
  (oiio_texture_system mgr && negb (builtin_data img) = false ->
   tex_image mgr type !! slot = Some entry ->
   read_image img type texture_limit = None ->
   exists mgr' tex_img,
     device_load_image TEX_IMAGE_MISSING_R TEX_IMAGE_MISSING_G
       TEX_IMAGE_MISSING_B TEX_IMAGE_MISSING_A image_type_value read_image
       oiio_handle_good texture_limit mgr type slot false = Some mgr'
     /\ tex_image mgr' type !! slot = Some (Some tex_img)
     /\ data_width tex_img = 1 /\ data_height tex_img = 1
     /\ data tex_img
        = missing_pixels TEX_IMAGE_MISSING_R TEX_IMAGE_MISSING_G
            TEX_IMAGE_MISSING_B TEX_IMAGE_MISSING_A type
     /\ images mgr' type !! slot = Some (Some (set_need_load img false))
     /\ (pack_images mgr = false ->
         device mgr'
           !! (name_from_type type,
               type_index_to_flattened_slot image_type_value mgr
                 (Z.of_nat slot) type)
         = Some {| tex_width := 1; tex_height := 1; tex_depth := 0;
                   tex_pixels :=
                     missing_pixels TEX_IMAGE_MISSING_R TEX_IMAGE_MISSING_G
                       TEX_IMAGE_MISSING_B TEX_IMAGE_MISSING_A type;
                   tex_interpolation := interpolation img;
                   tex_extension := extension img |})
     /\ (pack_images mgr = true -> device mgr' = device mgr))
  /\ (oiio_texture_system mgr && negb (builtin_data img) = true ->
      exists mgr',
        device_load_image TEX_IMAGE_MISSING_R TEX_IMAGE_MISSING_G
          TEX_IMAGE_MISSING_B TEX_IMAGE_MISSING_A image_type_value read_image
          oiio_handle_good texture_limit mgr type slot false = Some mgr'
        /\ tex_image mgr' = tex_image mgr
        /\ device mgr' = device mgr).
Proof.
  intros Himg. split.
  - intros Hoiio Htex Hread.
    pose proof (lookup_lt_Some _ _ _ Himg) as Hlt_img.
    pose proof (lookup_lt_Some _ _ _ Htex) as Hlt_tex.
    unfold device_load_image. rewrite Himg, Hoiio.
    replace (length (tex_image mgr type) <=? slot)%nat with false
      by (symmetry; apply Nat.leb_gt; exact Hlt_tex).
    rewrite andb_false_r, Htex.
    unfold file_load_image. rewrite Hread.
    set (v0 := default new_device_vector entry).
    unfold tex_free.
    destruct (device_pointer v0) eqn:Hptr; cbn [negb];
      destruct (pack_images mgr) eqn:Hpack; cbn [negb tex_alloc];
      do 2 eapply ex_intro.
    all: split; [reflexivity|].
    all: cbn [tex_image images device].
    all: rewrite !update_slot_lookup by assumption.
    all: repeat split; try reflexivity; try discriminate.
    all: intros _; cbn [missing_image resize_fill data_width data_height
                        data_depth data].
    all: apply lookup_insert_eq.
  - intros Hoiio. unfold device_load_image. rewrite Himg, Hoiio.
    eexists. split; [reflexivity|]. split; reflexivity.
Qed.

(** The statement of C8 (amended) for the unreadable byte4 image with the
    missing colour (1, 0, 1, 1) and [pack_images] off. *)
Lemma device_load_image_missing_witness :
  exists mgr' tex_img,
    device_load_image 1 0 1 1 sample_image_type_value unreadable
      no_good_handle 0 (manager_with_missing_image false false)
      IMAGE_DATA_TYPE_BYTE4 0 false = Some mgr'
    /\ tex_image mgr' IMAGE_DATA_TYPE_BYTE4 !! 0%nat = Some (Some tex_img)
    /\ data tex_img = [255; 0; 255; 255]%Q
    /\ is_Some (device mgr' !! ("byte4"%string, 1)).
Proof.
  destruct (device_load_image_missing 1 0 1 1 sample_image_type_value
              unreadable no_good_handle 0
              (manager_with_missing_image false false)
              IMAGE_DATA_TYPE_BYTE4 0 missing_file_image None)
    as [H _]; [reflexivity|].
  destruct (H eq_refl eq_refl eq_refl)
    as (mgr' & tex_img & Hrun & Hslot & _ & _ & Hdata & _ & Hbound & _).
  exists mgr', tex_img. split; [exact Hrun|]. split; [exact Hslot|].
  split; [exact Hdata|]. eexists. apply Hbound. reflexivity.
Defined.

(* ===================================================================== *)
(** * Properties of device/device_cpu.cpp: task submission *)
(* ===================================================================== *)

Lemma push_each (pool : list Task.CPUDeviceTask) (subs : list Task.DeviceTask) :
  fold_left (fun pool sub => pool ++ [Task.Build_CPUDeviceTask sub]) subs pool
  = pool ++ map Task.Build_CPUDeviceTask subs.
Proof.
  revert pool. induction subs as [|sub subs IH]; intros pool; simpl.
  - rewrite app_nil_r. reflexivity.
  - rewrite IH, <- app_assoc. reflexivity.
Qed.

Lemma slice_width (u n i : Z) :
  0 <= u -> 0 < n -> 0 <= i -> u <= 256 * n ->
  0 <= u * (i + 1) / n - u * i / n <= 256.
Proof.
  intros Hu Hn Hi Hcap.
  pose proof (Z.div_mod (u * (i + 1)) n ltac:(lia)) as H1.
  pose proof (Z.mod_pos_bound (u * (i + 1)) n Hn) as B1.
  pose proof (Z.div_mod (u * i) n ltac:(lia)) as H0.
  pose proof (Z.mod_pos_bound (u * i) n Hn) as B0.
  assert (Hmono : u * i / n <= u * (i + 1) / n)
    by (apply Z.div_le_mono; nia).
  split; [lia|]. nia.
Qed.

Lemma capped_count (u num : Z) :
  0 <= u -> 0 < num ->
  0 < Z.max num ((u + 256 - 1) / 256)
  /\ u <= 256 * Z.max num ((u + 256 - 1) / 256).
Proof.
  intros Hu Hnum.
  pose proof (Z.div_mod (u + 256 - 1) 256 ltac:(lia)) as H.
  pose proof (Z.mod_pos_bound (u + 256 - 1) 256 ltac:(lia)) as B.
  lia.
Qed.

(** C9: [task_add] appends one [CPUDeviceTask] per sub-task to the task
    pool, in order and behind the entries already queued.  For a SHADER
    task the sub-tasks are those of a split with a cap of 256, and each
    covers at most 256 pixels; for any other task the sub-tasks are those of
    an uncapped split, and there are exactly as many as worker threads. *)
Theorem task_add_split (num_threads : Z) (task_pool : list Task.CPUDeviceTask)
    (t : Task.DeviceTask) :
  0 < num_threads ->
  exists subs,
    Task.task_add num_threads task_pool t
    = task_pool ++ map Task.Build_CPUDeviceTask subs
    /\ (Task.type t = Task.SHADER ->
        subs = Task.split t num_threads 256
        /\ (0 <= Task.shader_w t ->
            Forall (fun sub => 0 <= Task.shader_w sub <= 256) subs))
    /\ (Task.type t <> Task.SHADER ->
        subs = Task.split t num_threads 0
        /\ Z.of_nat (length subs) = num_threads).
Proof.
  intros Hn. unfold Task.task_add. rewrite push_each.
  eexists. split; [reflexivity|]. split.
  - intros Ht. rewrite Ht. cbn [Task.is_shader]. split; [reflexivity|].
    intros Hw.
    unfold Task.split, Task.get_subtask_count, Task.units.
    rewrite Ht. cbn [Task.is_shader Z.eqb].
    destruct (capped_count (Task.shader_w t) num_threads Hw Hn) as [Hpos Hcap].
    apply Forall_forall. intros sub Hsub.
    apply list_elem_of_fmap in Hsub as (i & -> & Hi).
    unfold Task.sub_task, Task.units. rewrite Ht.
    cbn [Task.is_shader Task.shader_w].
    apply slice_width; lia.
  - intros Ht.
    assert (Hs : Task.is_shader (Task.type t) = false)
      by (destruct (Task.type t); [reflexivity|reflexivity|contradiction]).
    rewrite Hs. split; [reflexivity|].
    unfold Task.split, Task.get_subtask_count. cbn [Z.eqb].
    rewrite length_map, length_seq. lia.
Qed.

(** The statement of C9 at a shader task of 767 pixels on one worker
    thread, and at a film conversion task on eight. *)
Lemma task_add_split_witness :
  (exists subs,
     Task.task_add 1 [] shader_task_767 = map Task.Build_CPUDeviceTask subs
     /\ Forall (fun sub => 0 <= Task.shader_w sub <= 256) subs)
  /\ (exists subs,
        Task.task_add 8 [] film_task_64x48 = map Task.Build_CPUDeviceTask subs
        /\ Z.of_nat (length subs) = 8).
Proof.
  split.
  - destruct (task_add_split 1 [] shader_task_767) as (subs & Hadd & Hs & _);
      [lia|].
    exists subs. split; [exact Hadd|].
    apply Hs; [reflexivity|simpl; lia].
  - destruct (task_add_split 8 [] film_task_64x48) as (subs & Hadd & _ & Ho);
      [lia|].
    exists subs. split; [exact Hadd|]. apply Ho. discriminate.
Defined.

(* ===================================================================== *)
(** * Properties of kernel_path_state.h: counters, RNG cursor, ray type *)
(* ===================================================================== *)

Lemma int_wrap_small z : - 2 ^ 31 <= z < 2 ^ 31 -> int_wrap z = z.
Proof. intros H. unfold int_wrap. rewrite Z.mod_small; lia. Qed.

Lemma int_wrap_range z : - 2 ^ 31 <= int_wrap z < 2 ^ 31.
Proof.
  unfold int_wrap.
  pose proof (Z.mod_pos_bound (z + 2 ^ 31) (2 ^ 32) ltac:(lia)). lia.
Qed.

Lemma int_wrap_add_l a b : int_wrap (int_wrap a + b) = int_wrap (a + b).
Proof.
  unfold int_wrap.
  replace ((a + 2 ^ 31) mod 2 ^ 32 - 2 ^ 31 + b + 2 ^ 31)
    with ((a + 2 ^ 31) mod 2 ^ 32 + b) by lia.
  rewrite Zplus_mod_idemp_l. f_equal. f_equal. lia.
Qed.

Lemma int_wrap_idemp a : int_wrap (int_wrap a) = int_wrap a.
Proof. apply int_wrap_small, int_wrap_range. Qed.

Ltac unfold_setters :=
  cbn [flag rng_offset bounce diffuse_bounce glossy_bounce transmission_bounce
       transparent_bounce volume_bounce volume_bounds_bounce
       denoising_feature_weight
       set_flag set_rng_offset set_bounce set_diffuse_bounce
       set_glossy_bounce set_transmission_bounce set_transparent_bounce
       set_volume_bounce set_volume_bounds_bounce flag_or flag_clear].

Ltac destruct_ifs :=
  repeat match goal with
         | |- context [if ?b then _ else _] => destruct b eqn:?
         end.

(** The counters after one transition, by the kind of the label. *)
Lemma path_state_next_counters `{KT : kernel_types}
    (integrator : KernelIntegrator) (state : PathState) (label : Z) :
  let state' := path_state_next integrator state label in
  if is_transparent_label label then
    transparent_bounce state' = int_add (transparent_bounce state) 1
    /\ bounce state' = bounce state
    /\ diffuse_bounce state' = diffuse_bounce state
    /\ glossy_bounce state' = glossy_bounce state
    /\ transmission_bounce state' = transmission_bounce state
    /\ volume_bounce state' = volume_bounce state
    /\ rng_offset state' = rng_offset state
  else
    transparent_bounce state' = transparent_bounce state
    /\ bounce state' = int_add (bounce state) 1
    /\ rng_offset state' = int_add (rng_offset state) PRNG_BOUNCE_NUM
    /\ ((diffuse_bounce state' = int_add (diffuse_bounce state) 1
         /\ glossy_bounce state' = glossy_bounce state
         /\ transmission_bounce state' = transmission_bounce state
         /\ volume_bounce state' = volume_bounce state)
        \/ (diffuse_bounce state' = diffuse_bounce state
            /\ glossy_bounce state' = int_add (glossy_bounce state) 1
            /\ transmission_bounce state' = transmission_bounce state
            /\ volume_bounce state' = volume_bounce state)
        \/ (diffuse_bounce state' = diffuse_bounce state
            /\ glossy_bounce state' = glossy_bounce state
            /\ transmission_bounce state' = int_add (transmission_bounce state) 1
            /\ volume_bounce state' = volume_bounce state)
        \/ (diffuse_bounce state' = diffuse_bounce state
            /\ glossy_bounce state' = glossy_bounce state
            /\ transmission_bounce state' = transmission_bounce state
            /\ volume_bounce state' = int_add (volume_bounce state) 1)).
Proof.
  unfold is_transparent_label, path_state_next.
  destruct (truthy (Z.land label LABEL_TRANSPARENT)); cbv zeta.
  - destruct_ifs; unfold_setters; repeat split; reflexivity.
  - destruct_ifs; unfold_setters;
      (split; [reflexivity|split; [reflexivity|split; [reflexivity|]]]);
      first [ left; repeat split; reflexivity
            | right; left; repeat split; reflexivity
            | right; right; left; repeat split; reflexivity
            | right; right; right; repeat split; reflexivity ].
Qed.

Lemma path_state_run_counters_exact `{KT : kernel_types}
    (integrator : KernelIntegrator) (labels : list Z) :
  forall (state : PathState) (nr nt : Z),
  0 <= nr -> 0 <= nt ->
  nr + nt + Z.of_nat (length labels) < 2 ^ 31 ->
  counters_exact state nr nt ->
  counters_exact (path_state_run integrator state labels)
    (nr + Z.of_nat (scatter_events labels))
    (nt + Z.of_nat (transparent_passes labels)).
Proof.
  induction labels as [|l labels IH]; intros state nr nt Hnr Hnt Hlen Hc.
  - unfold scatter_events, transparent_passes; simpl.
    rewrite !Z.add_0_r. exact Hc.
  - simpl length in Hlen. simpl.
    pose proof (path_state_next_counters integrator state l) as Hstep.
    cbv zeta in Hstep.
    unfold scatter_events, transparent_passes in *. simpl List.filter.
    destruct Hc as (Hb & Ht & Hd & Hg & Htr & Hv & Hsum).
    destruct (is_transparent_label l); simpl negb; cbv iota.
    + destruct Hstep as (Ht' & Hb' & Hd' & Hg' & Htr' & Hv' & _).
      simpl length.
      replace (nt + Z.of_nat (S (length (List.filter is_transparent_label labels))))
        with ((nt + 1) + Z.of_nat (length (List.filter is_transparent_label labels)))
        by lia.
      apply IH; try lia.
      unfold counters_exact, int_add in *.
      rewrite Ht', Hb', Hd', Hg', Htr', Hv', Ht.
      rewrite int_wrap_small by lia. repeat split; lia.
    + destruct Hstep as (Ht' & Hb' & _ & Hcases).
      simpl length.
      replace (nr + Z.of_nat (S (length (List.filter
                 (fun l0 => negb (is_transparent_label l0)) labels))))
        with ((nr + 1) + Z.of_nat (length (List.filter
                 (fun l0 => negb (is_transparent_label l0)) labels)))
        by lia.
      apply IH; try lia.
      unfold counters_exact, int_add in *.
      rewrite Ht', Hb', Hb.
      rewrite (int_wrap_small (nr + 1)) by lia.
      destruct Hcases as [(E1 & E2 & E3 & E4)|[(E1 & E2 & E3 & E4)
                         |[(E1 & E2 & E3 & E4)|(E1 & E2 & E3 & E4)]]];
        rewrite E1, E2, E3, E4;
        rewrite int_wrap_small by lia; repeat split; lia.
Qed.

(** X1: along any path of fewer than 2^31 transitions that starts at
    [path_state_init], the bounce counter is the number of scattering
    events, the transparent counter is the number of transparent passes,
    and the diffuse, glossy, transmission and volume counters are
    nonnegative and add up to the bounce counter. *)
Theorem path_state_run_counts `{KT : kernel_types}
    (integrator : KernelIntegrator) (PRNG_BASE_NUM : Z) (FLT_MAX : Q)
    (aa_samples pass_denoising rng_hash sample : Z) (labels : list Z) :
  Z.of_nat (length labels) < 2 ^ 31 ->
  let s :=
    path_state_run integrator
      (path_state_init PRNG_BASE_NUM FLT_MAX aa_samples pass_denoising
         rng_hash sample) labels in
  bounce s = Z.of_nat (scatter_events labels)
  /\ transparent_bounce s = Z.of_nat (transparent_passes labels)
  /\ 0 <= diffuse_bounce s /\ 0 <= glossy_bounce s
  /\ 0 <= transmission_bounce s /\ 0 <= volume_bounce s
  /\ diffuse_bounce s + glossy_bounce s + transmission_bounce s
     + volume_bounce s = bounce s.
Proof.
  intros Hlen s.
  pose proof (path_state_run_counters_exact integrator labels
                (path_state_init PRNG_BASE_NUM FLT_MAX aa_samples
                   pass_denoising rng_hash sample) 0 0
                ltac:(lia) ltac:(lia) ltac:(lia)) as H.
  destruct H as (Hb & Ht & Hd & Hg & Htr & Hv & Hsum).
  { unfold counters_exact; simpl. repeat split; lia. }
  fold s in Hb, Ht, Hd, Hg, Htr, Hv, Hsum.
  rewrite Z.add_0_l in *.
  repeat split; try assumption. rewrite Hb. exact Hsum.
Qed.

(** The statement of X1 on a path of five transitions: a diffuse
    reflection, a transparent pass, a glossy reflection, a volume scatter
    and a singular transmission. *)
Lemma path_state_run_counts_witness :
  bounce
    (path_state_run (KT := sample_kernel_types) sample_integrator
       (path_state_init (KT := sample_kernel_types) 4 1000 16 0 0 0)
       [2 + 4; 32; 2 + 8; 64; 1 + 16]) = 4
  /\ transparent_bounce
       (path_state_run (KT := sample_kernel_types) sample_integrator
          (path_state_init (KT := sample_kernel_types) 4 1000 16 0 0 0)
          [2 + 4; 32; 2 + 8; 64; 1 + 16]) = 1.
Proof.
  pose proof (path_state_run_counts (KT := sample_kernel_types)
                sample_integrator 4 1000 16 0 0 0
                [2 + 4; 32; 2 + 8; 64; 1 + 16]
                ltac:(simpl; lia)) as H.
  cbv zeta in H. destruct H as (Hb & Ht & _).
  split; [exact Hb | exact Ht].
Defined.

Lemma path_state_run_rng_offset `{KT : kernel_types}
    (integrator : KernelIntegrator) (labels : list Z) :
  forall state : PathState,
  int_wrap (rng_offset state) = rng_offset state ->
  rng_offset (path_state_run integrator state labels)
  = int_wrap (rng_offset state
              + PRNG_BOUNCE_NUM * Z.of_nat (scatter_events labels)).
Proof.
  induction labels as [|l labels IH]; intros state Hr.
  - unfold scatter_events; simpl. rewrite Z.mul_0_r, Z.add_0_r.
    symmetry; exact Hr.
  - simpl.
    pose proof (path_state_next_counters integrator state l) as Hstep.
    cbv zeta in Hstep.
    unfold scatter_events in *. simpl List.filter.
    destruct (is_transparent_label l); simpl negb; cbv iota.
    + destruct Hstep as (_ & _ & _ & _ & _ & _ & Hr').
      rewrite IH by (rewrite Hr'; exact Hr). rewrite Hr'. reflexivity.
    + destruct Hstep as (_ & _ & Hr' & _).
      rewrite IH by (rewrite Hr'; apply int_wrap_idemp).
      rewrite Hr'. unfold int_add. rewrite int_wrap_add_l.
      simpl length. f_equal. lia.
Qed.

(** X2: along any path that starts at [path_state_init], the RNG cursor is
    the base dimension advanced by [PRNG_BOUNCE_NUM] for each scattering
    event, in [int] arithmetic; transparent passes consume no dimension. *)
Theorem path_state_run_rng `{KT : kernel_types}
    (integrator : KernelIntegrator) (PRNG_BASE_NUM : Z) (FLT_MAX : Q)
    (aa_samples pass_denoising rng_hash sample : Z) (labels : list Z) :
  - 2 ^ 31 <= PRNG_BASE_NUM < 2 ^ 31 ->
  rng_offset
    (path_state_run integrator
       (path_state_init PRNG_BASE_NUM FLT_MAX aa_samples pass_denoising
          rng_hash sample) labels)
  = int_wrap (PRNG_BASE_NUM
              + PRNG_BOUNCE_NUM * Z.of_nat (scatter_events labels)).
Proof.
  intros Hbase.
  rewrite path_state_run_rng_offset by (simpl; apply int_wrap_small; exact Hbase).
  reflexivity.
Qed.

(** The statement of X2 on the path of five transitions: four scattering
    events advance the cursor from 4 to 36. *)
Lemma path_state_run_rng_witness :
  rng_offset
    (path_state_run (KT := sample_kernel_types) sample_integrator
       (path_state_init (KT := sample_kernel_types) 4 1000 16 0 0 0)
       [2 + 4; 32; 2 + 8; 64; 1 + 16]) = 36.
Proof.
  rewrite (path_state_run_rng (KT := sample_kernel_types) sample_integrator
             4 1000 16 0 0 0 [2 + 4; 32; 2 + 8; 64; 1 + 16])
    by (split; [discriminate | reflexivity]).
  reflexivity.
Defined.

Lemma land_lor_clear f m a :
  Z.land f a = 0 -> Z.land a m = 0 -> Z.land (Z.lor f m) a = 0.
Proof.
  intros H H0. rewrite Z.land_lor_distr_l, H, (Z.land_comm m a), H0.
  reflexivity.
Qed.

Lemma land_clear_clear f m a :
  Z.land f a = 0 -> Z.land (Z.land f (Z.lnot m)) a = 0.
Proof.
  intros H. rewrite <- Z.land_assoc, (Z.land_comm (Z.lnot m) a), Z.land_assoc, H.
  apply Z.land_0_l.
Qed.

Lemma land_clear_member f m a :
  Z.land m a = a -> Z.land (Z.land f (Z.lnot m)) a = 0.
Proof.
  intros H. apply Z.bits_inj'. intros n Hn.
  rewrite !Z.land_spec, Z.lnot_spec, Z.bits_0 by lia.
  assert (Hb : Z.testbit (Z.land m a) n = Z.testbit a n) by (rewrite H; reflexivity).
  rewrite Z.land_spec in Hb.
  destruct (Z.testbit f n), (Z.testbit m n), (Z.testbit a n); simpl in *; congruence.
Qed.

Lemma mask_of_member a ms : In a ms -> Z.land (mask_of ms) a = a.
Proof.
  induction ms as [|m ms IH]; simpl; [tauto|].
  intros [->|Hin].
  - apply Z.bits_inj'. intros n Hn. rewrite Z.land_spec, Z.lor_spec.
    destruct (Z.testbit a n), (Z.testbit (mask_of ms) n); reflexivity.
  - specialize (IH Hin). apply Z.bits_inj'. intros n Hn.
    assert (Hb : Z.testbit (Z.land (mask_of ms) a) n = Z.testbit a n)
      by (rewrite IH; reflexivity).
    rewrite Z.land_spec in Hb. rewrite Z.land_spec, Z.lor_spec.
    destruct (Z.testbit a n), (Z.testbit (mask_of ms) n), (Z.testbit m n);
      simpl in *; congruence.
Qed.

Ltac split_camera H :=
  unfold camera_flag_distinct, set_path_ray_flags in H;
  repeat (apply Forall_cons in H; destruct H as [? H]).

Ltac camera_clear :=
  repeat first
    [ assumption
    | apply land_clear_clear
    | apply land_lor_clear;
      [|first [assumption
              | apply land_mask_of;
                repeat (constructor; [assumption|]); constructor]] ].

(** A transition leaves a cleared camera flag cleared. *)
Lemma path_state_next_keeps_camera_clear `{KT : kernel_types}
    (integrator : KernelIntegrator) (state : PathState) (label : Z) :
  camera_flag_distinct ->
  Z.land (flag state) PATH_RAY_CAMERA = 0 ->
  Z.land (flag (path_state_next integrator state label)) PATH_RAY_CAMERA = 0.
Proof.
  intros Hd Hs. split_camera Hd.
  unfold path_state_next.
  destruct_ifs; unfold_setters; camera_clear.
Qed.

(** A scattering event clears the camera flag. *)
Lemma path_state_next_clears_camera `{KT : kernel_types}
    (integrator : KernelIntegrator) (state : PathState) (label : Z) :
  camera_flag_distinct ->
  is_transparent_label label = false ->
  Z.land (flag (path_state_next integrator state label)) PATH_RAY_CAMERA = 0.
Proof.
  intros Hd Hl. split_camera Hd.
  unfold is_transparent_label in Hl.
  unfold path_state_next. rewrite Hl.
  destruct_ifs; unfold_setters;
    repeat first
      [ apply land_clear_member; apply mask_of_member; simpl; tauto
      | apply land_clear_clear
      | apply land_lor_clear;
        [|first [assumption
                | apply land_mask_of;
                  repeat (constructor; [assumption|]); constructor]] ].
Qed.

(** X3: the camera flag marks the primary segment only.  After a path with
    at least one scattering event the flag is clear, whatever the state the
    path started from and whatever transitions follow the event.  The
    enumerators enter through one assumption: the camera flag shares no bit
    with the flags that [path_state_next] sets. *)
Theorem camera_flag_primary_only `{KT : kernel_types}
    (integrator : KernelIntegrator) (labels : list Z) (state : PathState) :
  camera_flag_distinct ->
  (0 < scatter_events labels)%nat ->
  Z.land (flag (path_state_run integrator state labels)) PATH_RAY_CAMERA = 0.
Proof.
  intros Hd. revert state.
  assert (Hkeep : forall ls s,
             Z.land (flag s) PATH_RAY_CAMERA = 0 ->
             Z.land (flag (path_state_run integrator s ls)) PATH_RAY_CAMERA = 0).
  { induction ls as [|l ls IH]; intros s Hs; simpl; [exact Hs|].
    apply IH. apply path_state_next_keeps_camera_clear; assumption. }
  induction labels as [|l labels IH]; intros state Hn.
  - unfold scatter_events in Hn; simpl in Hn. lia.
  - simpl. unfold scatter_events in Hn, IH. simpl List.filter in Hn.
    destruct (is_transparent_label l) eqn:Hl; simpl negb in Hn; cbv iota in Hn.
    + apply IH. exact Hn.
    + apply Hkeep. apply path_state_next_clears_camera; assumption.
Qed.

(** The statement of X3 on a camera ray that passes a transparent surface,
    reflects diffusely and passes another transparent surface. *)
Lemma camera_flag_primary_only_witness :
  Z.land
    (flag (path_state_run (KT := sample_kernel_types) sample_integrator
             camera_state [32; 2 + 4; 32]))
    (PATH_RAY_CAMERA (kernel_types := sample_kernel_types)) = 0.
Proof.
  apply (camera_flag_primary_only (KT := sample_kernel_types)).
  - unfold camera_flag_distinct, set_path_ray_flags.
    repeat (constructor; [reflexivity|]). constructor.
  - unfold scatter_events; simpl. lia.
Defined.

(** Case analysis on the bits at position [n] of the words of a goal
    between boolean expressions, under a hypothesis [Hb] on those bits. *)
Ltac bit_cases Hb n :=
  cbn [andb orb negb] in Hb |- *;
  rewrite ?andb_false_r, ?andb_true_r, ?orb_true_r, ?orb_false_r in Hb |- *;
  cbn [andb orb negb] in Hb |- *;
  first
    [ discriminate Hb
    | reflexivity
    | match type of Hb with
      | context [Z.testbit ?X n] =>
          destruct (Z.testbit X n); bit_cases Hb n
      end
    | match goal with
      | |- context [Z.testbit ?X n] =>
          destruct (Z.testbit X n); bit_cases Hb n
      end ].

(** X4: the ray-type flags after a scattering event are decided by the
    label alone: two states that take the same non-transparent label agree
    afterwards on the reflect, transmit, volume-scatter, camera,
    transparent, diffuse, glossy, singular and MIS-skip flags, whatever
    their flags were before.  The enumerators enter through one assumption:
    the shadow-info flag, which is cleared depending on the state, shares no
    bit with these flags. *)
Theorem ray_type_flags_from_label `{KT : kernel_types}
    (integrator : KernelIntegrator) (s1 s2 : PathState) (label : Z) :
  Z.land PATH_RAY_STORE_SHADOW_INFO (mask_of ray_type_flags) = 0 ->
  Z.land label LABEL_TRANSPARENT = 0 ->
  Z.land (flag (path_state_next integrator s1 label)) (mask_of ray_type_flags)
  = Z.land (flag (path_state_next integrator s2 label)) (mask_of ray_type_flags).
Proof.
  intros Hsh Hl%truthy_false.
  unfold path_state_next. rewrite Hl. cbv zeta.
  apply Z.bits_inj'. intros n Hn.
  assert (Hb : Z.testbit (Z.land PATH_RAY_STORE_SHADOW_INFO
                            (mask_of ray_type_flags)) n = false)
    by (rewrite Hsh; apply Z.bits_0).
  revert Hb. unfold ray_type_flags, mask_of. simpl fold_right.
  destruct_ifs; unfold_setters;
    repeat rewrite ?Z.land_spec, ?Z.lor_spec, ?Z.lnot_spec, ?Z.bits_0 by exact Hn;
    intros Hb; bit_cases Hb n.
Qed.

(** The statement of X4 on a camera ray and a ray after three bounces that
    both reflect diffusely. *)
Lemma ray_type_flags_from_label_witness :
  Z.land
    (flag (path_state_next (KT := sample_kernel_types) sample_integrator
             camera_state (2 + 4)))
    (mask_of (ray_type_flags (KT := sample_kernel_types)))
  = Z.land
      (flag (path_state_next (KT := sample_kernel_types) sample_integrator
               third_bounce_state (2 + 4)))
      (mask_of (ray_type_flags (KT := sample_kernel_types))).
Proof.
  apply (ray_type_flags_from_label (KT := sample_kernel_types));
    reflexivity.
Defined.

Lemma path_state_volume_run_spec `{KT : kernel_types}
    (VOLUME_BOUNDS_MAX : Z) (state : PathState) :
  0 <= VOLUME_BOUNDS_MAX < 2 ^ 31 - 1 ->
  volume_bounds_bounce state = 0 ->
  forall n : nat,
  if Z.of_nat n <=? VOLUME_BOUNDS_MAX then
    exists state',
      path_state_volume_run VOLUME_BOUNDS_MAX n state = Some state'
      /\ volume_bounds_bounce state' = Z.of_nat n
      /\ rng_offset state'
         = (if Z.of_nat n <=? 1 then rng_offset state
            else int_wrap (rng_offset state
                           + PRNG_BOUNCE_NUM * (Z.of_nat n - 1)))
  else path_state_volume_run VOLUME_BOUNDS_MAX n state = None.
Proof.
  intros Hmax H0 n. induction n as [|n IH].
  - change (Z.of_nat 0) with 0.
    destruct (Z.leb_spec 0 VOLUME_BOUNDS_MAX); [|lia].
    exists state. split; [reflexivity|]. split; [exact H0|reflexivity].
  - cbn [path_state_volume_run].
    destruct (Z.leb_spec (Z.of_nat n) VOLUME_BOUNDS_MAX) as [Hle|Hgt].
    + destruct IH as (s' & Hrun & Hv & Hr). rewrite Hrun.
      unfold path_state_volume_next. unfold_setters. rewrite Hv.
      unfold int_add. rewrite int_wrap_small by lia.
      replace (Z.of_nat n + 1) with (Z.of_nat (S n)) by lia.
      destruct (Z.leb_spec (Z.of_nat (S n)) VOLUME_BOUNDS_MAX) as [Hle'|Hgt'].
      * destruct (Z.gtb_spec (Z.of_nat (S n)) VOLUME_BOUNDS_MAX); [lia|].
        eexists. split; [reflexivity|]. split.
        { destruct (Z.of_nat (S n) >? 1); reflexivity. }
        destruct (Z.gtb_spec (Z.of_nat (S n)) 1) as [Hg|Hg];
          destruct (Z.leb_spec (Z.of_nat (S n)) 1); try lia; unfold_setters.
        -- rewrite Hr. destruct (Z.leb_spec (Z.of_nat n) 1).
           ++ f_equal. replace (Z.of_nat (S n) - 1) with 1 by lia. lia.
           ++ rewrite int_wrap_add_l. f_equal.
              replace (Z.of_nat (S n) - 1) with (Z.of_nat n - 1 + 1) by lia.
              ring.
        -- rewrite Hr. destruct (Z.leb_spec (Z.of_nat n) 1); [reflexivity|lia].
      * destruct (Z.gtb_spec (Z.of_nat (S n)) VOLUME_BOUNDS_MAX); [|lia].
        reflexivity.
    + rewrite IH.
      destruct (Z.leb_spec (Z.of_nat (S n)) VOLUME_BOUNDS_MAX); [lia|].
      reflexivity.
Qed.

(** X5: a path that starts with a bounds counter of 0 crosses at most
    [VOLUME_BOUNDS_MAX] bounding meshes: [n] consecutive calls of
    [path_state_volume_next] all return true exactly when [n] is at most
    [VOLUME_BOUNDS_MAX].  The counter is then [n], and the RNG cursor has
    advanced by [PRNG_BOUNCE_NUM] for every call but the first. *)
Theorem path_state_volume_run_bound `{KT : kernel_types}
    (VOLUME_BOUNDS_MAX : Z) (state : PathState) (n : nat) :
  0 <= VOLUME_BOUNDS_MAX < 2 ^ 31 - 1 ->
  volume_bounds_bounce state = 0 ->
  (is_Some (path_state_volume_run VOLUME_BOUNDS_MAX n state)
   <-> Z.of_nat n <= VOLUME_BOUNDS_MAX)
  /\ (forall state',
        path_state_volume_run VOLUME_BOUNDS_MAX n state = Some state' ->
        volume_bounds_bounce state' = Z.of_nat n
        /\ rng_offset state'
           = (if Z.of_nat n <=? 1 then rng_offset state
              else int_wrap (rng_offset state
                             + PRNG_BOUNCE_NUM * (Z.of_nat n - 1)))).
Proof.
  intros Hmax H0.
  pose proof (path_state_volume_run_spec VOLUME_BOUNDS_MAX state Hmax H0 n) as H.
  destruct (Z.leb_spec (Z.of_nat n) VOLUME_BOUNDS_MAX) as [Hle|Hgt].
  - destruct H as (s' & Hrun & Hv & Hr). split.
    + split; [intros _; exact Hle | intros _; rewrite Hrun; eexists; reflexivity].
    + intros state' Hs. rewrite Hrun in Hs. injection Hs as <-.
      split; assumption.
  - split.
    + split; [intros [s' Hs]; congruence | lia].
    + intros state' Hs. congruence.
Qed.

(** The statement of X5 at a camera ray with a maximum of 3: three
    crossings are allowed and move the cursor from 4 to 20, a fourth is
    not. *)
Lemma path_state_volume_run_bound_witness :
  (exists state',
      path_state_volume_run (KT := sample_kernel_types) 3 3 camera_state
      = Some state'
      /\ rng_offset state' = 20)
  /\ ~ is_Some (path_state_volume_run (KT := sample_kernel_types) 3 4
                  camera_state).
Proof.
  split.
  - destruct (path_state_volume_run_bound (KT := sample_kernel_types) 3
                camera_state 3 ltac:(lia) eq_refl) as [[_ Hsome] Hval].
    destruct (Hsome ltac:(simpl; lia)) as [s' Hs].
    exists s'. split; [exact Hs|].
    destruct (Hval s' Hs) as [_ Hr]. rewrite Hr. reflexivity.
  - destruct (path_state_volume_run_bound (KT := sample_kernel_types) 3
                camera_state 4 ltac:(lia) eq_refl) as [[Hle _] _].
    intros Hs. specialize (Hle Hs). simpl in Hle. lia.
Defined.

Lemma uint_wrap_land z : uint_wrap z = Z.land z (Z.ones 32).
Proof. unfold uint_wrap. rewrite Z.land_ones by lia. reflexivity. Qed.

Lemma uint_wrap_range z : 0 <= uint_wrap z < 2 ^ 32.
Proof. unfold uint_wrap. apply Z.mod_pos_bound. lia. Qed.

(** X6: the visibility word of a ray.  It is a [uint]; when the state is
    not a volume scatter, a word with a transmit bit has neither a diffuse
    nor a glossy bit; when the state is a volume scatter, the word has the
    diffuse bits; and every bit of it is a bit of the state's flags inside
    [PATH_RAY_ALL_VISIBILITY] or a diffuse bit. *)
Theorem path_state_ray_visibility_bits `{KT : kernel_types}
    (PATH_RAY_ALL_VISIBILITY : Z) (state : PathState) :
  let v := path_state_ray_visibility PATH_RAY_ALL_VISIBILITY state in
  0 <= v < 2 ^ 32
  /\ (Z.land (flag state) PATH_RAY_VOLUME_SCATTER = 0 ->
      Z.land v PATH_RAY_TRANSMIT <> 0 ->
      Z.land v (Z.lor PATH_RAY_DIFFUSE PATH_RAY_GLOSSY) = 0)
  /\ (Z.land (flag state) PATH_RAY_VOLUME_SCATTER <> 0 ->
      flag_set v (uint_wrap PATH_RAY_DIFFUSE))
  /\ flags_kept v
       (Z.lor (Z.land (flag state) PATH_RAY_ALL_VISIBILITY) PATH_RAY_DIFFUSE).
Proof.
  intros v. subst v. unfold path_state_ray_visibility.
  set (f0 := uint_wrap (Z.land (flag state) PATH_RAY_ALL_VISIBILITY)).
  assert (Hbit : forall z n, 0 <= n ->
             Z.testbit (uint_wrap z) n = Z.testbit z n && (n <? 32)).
  { intros z0 n Hn. rewrite uint_wrap_land, Z.land_spec.
    rewrite Z.testbit_ones_nonneg by lia. reflexivity. }
  assert (Hf0 : forall n, 0 <= n ->
             Z.testbit f0 n
             = Z.testbit (flag state) n
               && Z.testbit PATH_RAY_ALL_VISIBILITY n && (n <? 32)).
  { intros n Hn. unfold f0. rewrite Hbit, Z.land_spec by lia. reflexivity. }
  assert (Hlt : forall n, 0 <= n -> (n <? 32) = false -> Z.testbit f0 n = false).
  { intros n Hn H32. rewrite Hf0, H32 by lia. apply andb_false_r. }
  assert (Hno : Z.land f0 (uint_wrap PATH_RAY_TRANSMIT) = 0 ->
                Z.land f0 PATH_RAY_TRANSMIT = 0).
  { intros H. apply Z.bits_inj'. intros n Hn.
    assert (Hb : Z.testbit (Z.land f0 (uint_wrap PATH_RAY_TRANSMIT)) n = false)
      by (rewrite H; apply Z.bits_0).
    rewrite Z.land_spec, Hbit in Hb by lia.
    rewrite Z.land_spec, Z.bits_0.
    destruct (n <? 32) eqn:H32.
    - rewrite andb_true_r in Hb. exact Hb.
    - rewrite Hlt by (lia || assumption). reflexivity. }
  split; [|split; [|split]].
  - (* range *)
    match goal with |- 0 <= ?v < _ => assert (Hv : uint_wrap v = v) end.
    { rewrite uint_wrap_land. apply Z.bits_inj'. intros n Hn.
      rewrite Z.land_spec, Z.testbit_ones_nonneg by lia.
      destruct (n <? 32) eqn:H32; [apply andb_true_r|].
      rewrite andb_false_r.
      destruct_ifs;
        rewrite ?Z.lor_spec, ?Z.land_spec, ?Hbit, ?H32, ?Hlt by (lia || assumption);
        rewrite ?andb_false_r; reflexivity. }
    rewrite <- Hv. apply uint_wrap_range.
  - intros Hvol Htr. rewrite Hvol in *. change (truthy 0) with false in *.
    cbv iota in *.
    destruct (truthy (Z.land f0 (uint_wrap PATH_RAY_TRANSMIT))) eqn:Ht.
    + apply Z.bits_inj'. intros n Hn.
      rewrite !Z.land_spec, Hbit, Z.lnot_spec, Z.bits_0 by lia.
      destruct (Z.testbit (Z.lor PATH_RAY_DIFFUSE PATH_RAY_GLOSSY) n);
        simpl; rewrite ?andb_false_r; reflexivity.
    + apply truthy_false in Ht. apply Hno in Ht. contradiction.
  - intros Hvol%truthy_true. rewrite Hvol. unfold flag_set.
    apply Z.bits_inj'. intros n Hn. rewrite Z.land_spec, Z.lor_spec.
    destruct (Z.testbit (uint_wrap PATH_RAY_DIFFUSE) n);
      rewrite ?orb_true_r, ?andb_false_r; reflexivity.
  - unfold flags_kept. intros n Hn.
    rewrite Z.lor_spec, Z.land_spec.
    destruct_ifs;
      rewrite ?Z.lor_spec, ?Z.land_spec, ?Hbit, ?Hf0 by lia;
      destruct (Z.testbit (flag state) n),
        (Z.testbit PATH_RAY_ALL_VISIBILITY n),
        (Z.testbit PATH_RAY_DIFFUSE n), (n <? 32); simpl;
      try reflexivity; try discriminate; rewrite ?andb_false_r; try discriminate.
Qed.
(** The statement of X6 at a transmitted glossy ray, whose visibility word
    keeps the transmit bit only, and at a volume-scattered ray. *)
Lemma path_state_ray_visibility_bits_witness :
  Z.land
    (path_state_ray_visibility (KT := sample_kernel_types) 2047
       (set_flag third_bounce_state (4 + 16)))
    (Z.lor (PATH_RAY_DIFFUSE (kernel_types := sample_kernel_types))
       (PATH_RAY_GLOSSY (kernel_types := sample_kernel_types))) = 0
  /\ flag_set
       (path_state_ray_visibility (KT := sample_kernel_types) 2047
          (set_flag third_bounce_state 1024))
       (uint_wrap (PATH_RAY_DIFFUSE (kernel_types := sample_kernel_types))).
Proof.
  split.
  - apply (path_state_ray_visibility_bits (KT := sample_kernel_types) 2047
             (set_flag third_bounce_state (4 + 16))).
    + reflexivity.
    + discriminate.
  - apply (path_state_ray_visibility_bits (KT := sample_kernel_types) 2047
             (set_flag third_bounce_state 1024)).
    discriminate.
Defined.

(** X7: the temporary bounce modification for shader evaluation is undone
    by its inverse: increasing and then decreasing the bounce counter, or
    decreasing and then increasing it, gives the state back, for every
    counter value of the [int] range. *)
Theorem path_state_modify_bounce_round_trip (state : PathState) :
  - 2 ^ 31 <= bounce state < 2 ^ 31 ->
  path_state_modify_bounce (path_state_modify_bounce state true) false = state
  /\ path_state_modify_bounce (path_state_modify_bounce state false) true
     = state.
Proof.
  intros Hr.
  destruct state as [f rh ro sa ns bounce0 db gb tb tpb vb vbb dfw mrp rp mw wa].
  unfold path_state_modify_bounce, set_bounce. simpl in *.
  unfold int_add, int_sub.
  replace (int_wrap (int_wrap (bounce0 + 1) - 1)) with bounce0.
  2:{ replace (int_wrap (bounce0 + 1) - 1) with (int_wrap (bounce0 + 1) + (-1))
        by lia.
      rewrite int_wrap_add_l. rewrite int_wrap_small; lia. }
  replace (int_wrap (int_wrap (bounce0 - 1) + 1)) with bounce0.
  2:{ rewrite int_wrap_add_l. rewrite int_wrap_small; lia. }
  split; reflexivity.
Qed.

(** The statement of X7 at a ray after three bounces. *)
Lemma path_state_modify_bounce_round_trip_witness :
  path_state_modify_bounce (path_state_modify_bounce third_bounce_state true)
    false = third_bounce_state.
Proof.
  apply (path_state_modify_bounce_round_trip third_bounce_state).
  simpl. lia.
Defined.

(** X8: directly after a transparent pass the regular bounce limits play
    no part in the termination: whatever the bounce, diffuse, glossy,
    transmission and volume counters and the shader's overrides are, the
    probability is 0 when the incremented transparent counter has reached
    the transparent maximum, 1 when it is below the maximum and at most the
    transparent minimum, and the throughput average otherwise.  The
    enumerators enter through one assumption: the transparent flag is not
    the empty mask. *)
Theorem terminate_probability_after_transparent `{KT : kernel_types}
    (integrator : KernelIntegrator) (state : PathState) (label : Z)
    (sd : ShaderData) (throughput : float3) :
  PATH_RAY_TRANSPARENT <> 0 ->
  Z.land label LABEL_TRANSPARENT <> 0 ->
  let n := int_add (transparent_bounce state) 1 in
  path_state_terminate_probability integrator
    (path_state_next integrator state label) sd throughput
  = if n >=? transparent_max_bounce integrator then 0%Q
    else if n <=? transparent_min_bounce integrator then 1%Q
    else average throughput.
Proof.
  intros Hne Hl%truthy_true n. subst n.
  unfold path_state_next. rewrite Hl.
  assert (Hset : forall f m,
             truthy (Z.land (Z.lor (Z.lor f PATH_RAY_TRANSPARENT) m)
                       PATH_RAY_TRANSPARENT) = true).
  { intros f m. apply truthy_true.
    rewrite land_lor_keep; [exact Hne|].
    apply Z.bits_inj'. intros k Hk. rewrite Z.land_spec, Z.lor_spec.
    destruct (Z.testbit PATH_RAY_TRANSPARENT k);
      rewrite ?orb_true_r, ?andb_false_r; reflexivity. }
  unfold path_state_terminate_probability.
  destruct (negb (truthy (transparent_shadows integrator))); unfold_setters.
  - rewrite Hset. reflexivity.
  - specialize (Hset (flag state) 0). rewrite Z.lor_0_r in Hset.
    rewrite Hset. reflexivity.
Qed.

(** The statement of X8 at a ray that has used up its glossy bounces and
    then passes a transparent surface: the probability is 1. *)
Lemma terminate_probability_after_transparent_witness :
  path_state_terminate_probability (KT := sample_kernel_types)
    sample_integrator
    (path_state_next (KT := sample_kernel_types) sample_integrator
       (set_glossy_bounce third_bounce_state 4) 32)
    plain_shader_data (make_float3 (1 # 2) (1 # 2) (1 # 2)) = 1%Q.
Proof.
  rewrite (terminate_probability_after_transparent (KT := sample_kernel_types)
             sample_integrator (set_glossy_bounce third_bounce_state 4) 32
             plain_shader_data (make_float3 (1 # 2) (1 # 2) (1 # 2)))
    by discriminate.
  reflexivity.
Defined.

(* ===================================================================== *)
(** * Properties of kernel_shader.h: colour queries under merging *)
(* ===================================================================== *)

Section KindSums.
Context `{KT : kernel_types} `{CO : closure_ops}.

Lemma kind_weight_cons is_kind sc cl :
  kind_weight is_kind (sc :: cl)
  = if is_kind (type sc)
    then float3_add (weight sc) (kind_weight is_kind cl)
    else kind_weight is_kind cl.
Proof.
  unfold kind_weight. simpl. destruct (is_kind (type sc)); reflexivity.
Qed.

(** The query loop adds the weights of the closures of its kind. *)
Lemma closure_weight_sum_spec is_kind cl :
  forall eval,
    float3_eq (closure_weight_sum is_kind cl eval)
      (float3_add eval (kind_weight is_kind cl)).
Proof.
  induction cl as [|sc cl IH]; intros eval.
  - unfold kind_weight, float3_eq; simpl. repeat split; ring.
  - cbn [closure_weight_sum]. rewrite kind_weight_cons.
    destruct (is_kind (type sc)).
    + destruct (IH (float3_add eval (weight sc))) as (Hx & Hy & Hz).
      unfold float3_eq in *; simpl in *. repeat split; lra.
    + apply IH.
Qed.

Lemma transparency_sum_closure_weight_sum cl :
  forall eval,
    transparency_sum cl eval
    = closure_weight_sum (fun t => t =? CLOSURE_BSDF_TRANSPARENT_ID) cl eval.
Proof.
  induction cl as [|sc cl IH]; intros eval; simpl; [reflexivity|apply IH].
Qed.

Lemma mergeable_type sci scj : mergeable sci scj = true -> type sci = type scj.
Proof.
  unfold mergeable. intros H. apply andb_true_iff in H as [H _].
  apply Z.eqb_eq. exact H.
Qed.

Lemma absorb_type sci rest : type (absorb sci rest).1 = type sci.
Proof.
  revert sci. induction rest as [|scj rest IH]; intros sci; simpl.
  - reflexivity.
  - destruct (mergeable sci scj).
    + rewrite IH. reflexivity.
    + specialize (IH sci). destruct (absorb sci rest). exact IH.
Qed.

(** One scan conserves the summed weight of every kind. *)
Lemma absorb_kind_weight is_kind sci rest :
  float3_eq
    (kind_weight is_kind ((absorb sci rest).1 :: (absorb sci rest).2))
    (kind_weight is_kind (sci :: rest)).
Proof.
  revert sci. induction rest as [|scj rest IH]; intros sci.
  - simpl. apply float3_eq_refl.
  - cbn [absorb]. destruct (mergeable sci scj) eqn:Hm.
    + apply mergeable_type in Hm.
      specialize (IH (merge_into sci scj)).
      rewrite !kind_weight_cons in *. rewrite absorb_type in *.
      cbn [type merge_into] in IH |- *. rewrite <- Hm.
      destruct (is_kind (type sci)).
      * destruct IH as (Hx & Hy & Hz).
        unfold float3_eq in *; simpl in *. repeat split; lra.
      * exact IH.
    + specialize (IH sci).
      pose proof (absorb_type sci rest) as Ht.
      destruct (absorb sci rest) as [s r]. cbn [fst snd] in *.
      rewrite !kind_weight_cons in *. rewrite Ht in *.
      destruct (is_kind (type sci)), (is_kind (type scj));
        destruct IH as (Hx & Hy & Hz);
        unfold float3_eq in *; simpl in *; repeat split; lra.
Qed.

Lemma merge_all_kind_weight is_kind fuel :
  forall cl,
    float3_eq (kind_weight is_kind (merge_all fuel cl)) (kind_weight is_kind cl).
Proof.
  induction fuel as [|fuel IH]; intros cl.
  - apply float3_eq_refl.
  - destruct cl as [|sci rest]; [apply float3_eq_refl|].
    cbn [merge_all].
    pose proof (absorb_kind_weight is_kind sci rest) as Ha.
    destruct (absorb sci rest) as [s r]. cbn [fst snd] in Ha.
    eapply float3_eq_trans; [|exact Ha].
    rewrite !kind_weight_cons.
    specialize (IH r). destruct IH as (Hx & Hy & Hz).
    destruct (is_kind (type s)); unfold float3_eq in *; simpl in *;
      repeat split; lra.
Qed.

(** Merging conserves the result of every query loop. *)
Lemma merge_closure_weight_sum is_kind (sd : ShaderData) :
  float3_eq
    (closure_weight_sum is_kind (closure (shader_merge_closures sd))
       (make_float3 0 0 0))
    (closure_weight_sum is_kind (closure sd) (make_float3 0 0 0)).
Proof.
  rewrite shader_merge_closures_merge_all.
  eapply float3_eq_trans; [apply closure_weight_sum_spec|].
  apply float3_eq_sym.
  eapply float3_eq_trans; [apply closure_weight_sum_spec|].
  pose proof (merge_all_kind_weight is_kind (length (closure sd)) (closure sd))
    as (Hx & Hy & Hz).
  unfold float3_eq in *; simpl in *. repeat split; lra.
Qed.
End KindSums.

(** X9: merging closures changes no colour that the render passes read
    from the array: the diffuse, glossy, transmission, subsurface and
    holdout colours, the transparency and the alpha of the merged shading
    point are those of the unmerged one, channel by channel. *)
Theorem shader_merge_closures_keeps_colours
    `{KT : kernel_types} `{CO : closure_ops} `{CK : closure_kinds}
    (sd : ShaderData) :
  float3_eq (shader_bsdf_diffuse (shader_merge_closures sd))
    (shader_bsdf_diffuse sd)
  /\ float3_eq (shader_bsdf_glossy (shader_merge_closures sd))
       (shader_bsdf_glossy sd)
  /\ float3_eq (shader_bsdf_transmission (shader_merge_closures sd))
       (shader_bsdf_transmission sd)
  /\ float3_eq (shader_bsdf_subsurface (shader_merge_closures sd))
       (shader_bsdf_subsurface sd)
  /\ float3_eq (shader_holdout_eval (shader_merge_closures sd))
       (shader_holdout_eval sd)
  /\ float3_eq (shader_bsdf_transparency (shader_merge_closures sd))
       (shader_bsdf_transparency sd)
  /\ float3_eq (shader_bsdf_alpha (shader_merge_closures sd))
       (shader_bsdf_alpha sd).
Proof.
  assert (Ht : float3_eq (shader_bsdf_transparency (shader_merge_closures sd))
                 (shader_bsdf_transparency sd)).
  { unfold shader_bsdf_transparency.
    change (shader_flag (shader_merge_closures sd)) with (shader_flag sd).
    destruct (truthy (Z.land (shader_flag sd) SD_SHADER_HAS_ONLY_VOLUME));
      [apply float3_eq_refl|].
    rewrite !transparency_sum_closure_weight_sum.
    apply merge_closure_weight_sum. }
  repeat split; try apply merge_closure_weight_sum; try apply Ht.
  all: unfold shader_bsdf_alpha; destruct Ht as (Hx & Hy & Hz); simpl.
  - rewrite Hx. reflexivity.
  - rewrite Hy. reflexivity.
  - rewrite Hz. reflexivity.
Qed.
Lemma transparency_sum_disabled `{KT : kernel_types} cl :
  float3_eq (transparency_sum (map disable_transparent cl) (make_float3 0 0 0))
    (make_float3 0 0 0).
Proof.
  assert (H : forall eval,
             float3_eq eval (make_float3 0 0 0) ->
             float3_eq (transparency_sum (map disable_transparent cl) eval)
               (make_float3 0 0 0)).
  { induction cl as [|sc cl IH]; intros eval He; simpl; [exact He|].
    apply IH. unfold disable_transparent.
    destruct (type sc =? CLOSURE_BSDF_TRANSPARENT_ID) eqn:Ht.
    - cbn [type weight]. rewrite Ht.
      destruct He as (Hx & Hy & Hz).
      unfold float3_eq in *; simpl in *. repeat split; lra.
    - rewrite Ht. exact He. }
  apply H. apply float3_eq_refl.
Qed.

(** X10: [shader_bsdf_disable_transparency] makes the shading point opaque
    and touches nothing else: the array keeps its length and its types,
    every closure that is not transparent stays as it is at its index, and
    unless the shader has only a volume the transparency becomes 0 and the
    alpha 1 in every channel; doing it twice is doing it once. *)
Theorem shader_bsdf_disable_transparency_opaque `{KT : kernel_types}
    (sd : ShaderData) :
  let sd' := shader_bsdf_disable_transparency sd in
  num_closure sd' = num_closure sd
  /\ map type (closure sd') = map type (closure sd)
  /\ (forall i sc,
        closure sd !! i = Some sc ->
        type sc <> CLOSURE_BSDF_TRANSPARENT_ID ->
        closure sd' !! i = Some sc)
  /\ (Z.land (shader_flag sd) SD_SHADER_HAS_ONLY_VOLUME = 0 ->
      float3_eq (shader_bsdf_transparency sd') (make_float3 0 0 0)
      /\ float3_eq (shader_bsdf_alpha sd') (make_float3 1 1 1))
  /\ shader_bsdf_disable_transparency sd' = sd'.
Proof.
  intros sd'. subst sd'. unfold shader_bsdf_disable_transparency, num_closure.
  cbn [closure set_closure shader_flag].
  split; [apply length_map|]. split; [|split; [|split]].
  - rewrite map_map. apply map_ext. intros sc. unfold disable_transparent.
    destruct (type sc =? CLOSURE_BSDF_TRANSPARENT_ID); reflexivity.
  - intros i sc Hi Ht.
    change (map disable_transparent (closure sd))
      with (disable_transparent <$> closure sd).
    rewrite list_lookup_fmap, Hi. simpl. f_equal.
    unfold disable_transparent.
    destruct (Z.eqb_spec (type sc) CLOSURE_BSDF_TRANSPARENT_ID);
      [contradiction|reflexivity].
  - intros Hvol.
    assert (Ht : float3_eq
                   (shader_bsdf_transparency
                      (set_closure sd (map disable_transparent (closure sd))))
                   (make_float3 0 0 0)).
    { unfold shader_bsdf_transparency. cbn [closure set_closure shader_flag].
      rewrite Hvol. change (truthy 0) with false. cbv iota.
      apply transparency_sum_disabled. }
    split; [exact Ht|].
    unfold shader_bsdf_alpha. destruct Ht as (Hx & Hy & Hz). simpl in *.
    unfold float3_eq; simpl. rewrite Hx, Hy, Hz. repeat split; reflexivity.
  - unfold set_closure; simpl. f_equal.
    rewrite map_map. apply map_ext. intros sc. unfold disable_transparent.
    destruct (type sc =? CLOSURE_BSDF_TRANSPARENT_ID) eqn:Ht.
    + cbn [type]. rewrite Ht. reflexivity.
    + rewrite Ht. reflexivity.
Qed.

(** The statement of X10 at a diffuse lobe next to a transparent closure. *)
Lemma shader_bsdf_disable_transparency_opaque_witness :
  closure
    (shader_bsdf_disable_transparency (KT := sample_kernel_types)
       (shader_data_of [lobe 2 1 1 1; lobe 30 (1 # 2) (1 # 2) 1] 0))
    !! 0%nat = Some (lobe 2 1 1 1)
  /\ float3_eq
       (shader_bsdf_alpha (KT := sample_kernel_types)
          (shader_bsdf_disable_transparency (KT := sample_kernel_types)
             (shader_data_of [lobe 2 1 1 1; lobe 30 (1 # 2) (1 # 2) 1] 0)))
       (make_float3 1 1 1).
Proof.
  pose proof (shader_bsdf_disable_transparency_opaque (KT := sample_kernel_types)
                (shader_data_of [lobe 2 1 1 1; lobe 30 (1 # 2) (1 # 2) 1] 0))
    as H.
  cbv zeta in H. destruct H as (_ & _ & Hkeep & Hopaque & _).
  split.
  - apply Hkeep; [reflexivity|discriminate].
  - apply Hopaque. reflexivity.
Defined.
(* ===================================================================== *)
(** * Properties of kernel_shader.h: picking, sampling and evaluation *)
(* ===================================================================== *)

Section PickFacts.
Context `{KT : kernel_types} `{CO : closure_ops}.

(** The scan stops inside the array as soon as the running sum of the
    BSDF sample weights, which ends at [sum + bsdf_weight cl], reaches
    [r]. *)
Lemma pick_closure_reaches cl r :
  forall sampled sum,
    Exists (fun sc => CLOSURE_IS_BSDF (type sc) = true) cl ->
    (r <= bsdf_sample_weight_sum cl sum)%Q ->
    (pick_closure cl r sampled sum < sampled + length cl)%nat.
Proof.
  induction cl as [|sc cl IH]; intros sampled sum Hex Hr.
  - inversion Hex.
  - cbn [pick_closure bsdf_sample_weight_sum length] in *.
    destruct (CLOSURE_IS_BSDF (type sc)) eqn:Hb.
    + destruct (Qle_bool r (sum + sample_weight sc)) eqn:Hle; [lia|].
      destruct (decide (Exists (fun c => CLOSURE_IS_BSDF (type c) = true) cl))
        as [Hex'|Hno].
      * specialize (IH (S sampled) (sum + sample_weight sc)%Q Hex' Hr). lia.
      * exfalso. apply Qle_bool_false in Hle.
        assert (Hsum : bsdf_sample_weight_sum cl (sum + sample_weight sc)
                       = (sum + sample_weight sc)%Q).
        { clear -Hno. revert Hno. generalize (sum + sample_weight sc)%Q.
          induction cl as [|c cl IHc]; intros q Hno; simpl; [reflexivity|].
          destruct (CLOSURE_IS_BSDF (type c)) eqn:Hc.
          - exfalso. apply Hno. left. exact Hc.
          - apply IHc. intros H. apply Hno. right. exact H. }
        rewrite Hsum in Hr. apply (Qlt_not_le _ _ Hle Hr).
    + apply Exists_cons in Hex as [Hex|Hex]; [congruence|].
      specialize (IH (S sampled) sum Hex Hr). lia.
Qed.
End PickFacts.

(** X11: in exact arithmetic the scan of [shader_bsdf_sample] always picks
    a closure when there is one to pick.  When the array holds more than
    one closure, at least one of them a BSDF, the total BSDF sample weight
    is nonnegative and [randb_closure] is at most 1, the picked index lies
    inside the array and the closure there is a BSDF. *)
Theorem shader_bsdf_sample_picks_bsdf `{KT : kernel_types} `{CO : closure_ops}
    (sd : ShaderData) :
  (1 < num_closure sd)%nat ->
  Exists (fun sc => CLOSURE_IS_BSDF (type sc) = true) (closure sd) ->
  (0 <= bsdf_sample_weight_sum (closure sd) 0)%Q ->
  (randb_closure sd <= 1)%Q ->
  exists sc,
    closure sd !! sampled_index sd = Some sc
    /\ CLOSURE_IS_BSDF (type sc) = true.
Proof.
  intros Hn Hex Hsum Hr.
  assert (Hlt : (sampled_index sd < num_closure sd)%nat).
  { unfold sampled_index. apply Nat.ltb_lt in Hn. rewrite Hn.
    apply (pick_closure_reaches (closure sd) _ 0%nat 0%Q Hex).
    rewrite <- (Qmult_1_l (bsdf_sample_weight_sum (closure sd) 0)) at 2.
    apply Qmult_le_compat_r; assumption. }
  destruct (lookup_lt_is_Some_2 (closure sd) (sampled_index sd) Hlt) as [sc Hsc].
  exists sc. split; [exact Hsc|].
  revert Hsc. unfold sampled_index. apply Nat.ltb_lt in Hn. rewrite Hn.
  intros Hsc. eapply pick_closure_is_bsdf. rewrite Nat.sub_0_r. exact Hsc.
Qed.

(** The statement of X11 at an emission closure followed by two diffuse
    lobes, with [randb_closure] 1: the last lobe is picked. *)
Lemma shader_bsdf_sample_picks_bsdf_witness :
  exists sc,
    closure (shader_data_of [lobe 40 1 1 1; lobe 2 1 1 1; lobe 2 1 3 1] 1)
      !! sampled_index (KT := sample_kernel_types)
           (shader_data_of [lobe 40 1 1 1; lobe 2 1 1 1; lobe 2 1 3 1] 1)
    = Some sc
    /\ CLOSURE_IS_BSDF (kernel_types := sample_kernel_types) (type sc) = true.
Proof.
  apply (shader_bsdf_sample_picks_bsdf (KT := sample_kernel_types)
           (CO := constant_density_ops)).
  - unfold num_closure; simpl. lia.
  - right. left. reflexivity.
  - vm_compute. discriminate.
  - vm_compute. discriminate.
Defined.
Lemma Qle_bool_compat a b : (a == b)%Q -> Qle_bool a 0 = Qle_bool b 0.
Proof.
  intros H. destruct (Qle_bool a 0) eqn:Ha, (Qle_bool b 0) eqn:Hb;
    try reflexivity.
  - apply Qle_bool_iff in Ha. rewrite H in Ha. apply Qle_bool_iff in Ha.
    congruence.
  - apply Qle_bool_iff in Hb. rewrite <- H in Hb. apply Qle_bool_iff in Hb.
    congruence.
Qed.

(** X12: sampling and evaluation agree on the pdf.  When more than one
    closure is present, a closure is picked, its sample has a nonzero pdf,
    and the closure evaluates in the sampled direction to the pdf it was
    sampled with, the pdf returned by [shader_bsdf_sample] is the pdf that
    [_shader_bsdf_multi_eval] computes for that direction when no closure is
    skipped, which is the pdf [shader_bsdf_eval] weights light samples
    with. *)
Theorem shader_bsdf_sample_pdf_matches_eval
    `{KT : kernel_types} `{CO : closure_ops}
    (use_light_pass : Z) (sd : ShaderData) (randu randv : Q)
    (bsdf_eval0 result_eval : BsdfEval) (omega_in0 : float3)
    (domega_in0 : differential3) (sc : ShaderClosure) :
  (1 < num_closure sd)%nat ->
  closure sd !! sampled_index sd = Some sc ->
  let s := bsdf_sample sd sc randu randv omega_in0 domega_in0 in
  (~ bs_pdf s == 0)%Q ->
  ((bsdf_eval sd sc (bs_omega_in s)).2 == bs_pdf s)%Q ->
  exists out,
    shader_bsdf_sample use_light_pass sd randu randv bsdf_eval0 omega_in0
      domega_in0 = Some out
    /\ out_omega_in out = bs_omega_in s
    /\ (out_pdf out
        == (_shader_bsdf_multi_eval sd (bs_omega_in s) (-1) result_eval 0 0).2)%Q.
Proof.
  intros Hn Hsc s Hnz Hcons.
  pose proof (lookup_lt_Some _ _ _ Hsc) as Hlt.
  assert (Hbsdf : CLOSURE_IS_BSDF (type sc) = true).
  { revert Hsc. unfold sampled_index.
    apply Nat.ltb_lt in Hn. rewrite Hn.
    intros Hsc. eapply pick_closure_is_bsdf. rewrite Nat.sub_0_r. exact Hsc. }
  unfold shader_bsdf_sample.
  replace (sampled_index sd =? num_closure sd)%nat with false
    by (symmetry; apply Nat.eqb_neq; unfold num_closure; lia).
  rewrite andb_false_r, Hsc. fold s.
  assert (Hnzb : float_nonzero (bs_pdf s) = true).
  { unfold float_nonzero. destruct (Qeq_bool (bs_pdf s) 0) eqn:He; [|reflexivity].
    apply Qeq_bool_iff in He. contradiction. }
  rewrite Hnzb. apply Nat.ltb_lt in Hn. rewrite Hn.
  unfold _shader_bsdf_multi_eval.
  pose proof (take_drop_middle _ _ _ Hsc) as Hsplit.
  assert (Hlen : length (take (sampled_index sd) (closure sd)) = sampled_index sd).
  { rewrite length_take. lia. }
  set (pre := take (sampled_index sd) (closure sd)) in *.
  set (post := drop (S (sampled_index sd)) (closure sd)) in *.
  set (e1 := bsdf_eval_init (type sc) (float3_mul (bs_eval s) (weight sc))
               use_light_pass).
  destruct (multi_eval_loop_skip sd (bs_omega_in s) pre sc post
              (e1, (bs_pdf s * sample_weight sc)%Q, sample_weight sc))
    as [Hsp Hssw].
  rewrite Hlen, Hsplit in Hsp, Hssw.
  destruct (multi_eval_loop_others sd (bs_omega_in s) (-1) (closure sd) 0
              (result_eval, 0%Q, 0%Q) ltac:(lia)) as [Hsp' Hssw'].
  destruct (multi_eval_loop sd (bs_omega_in s) (Z.of_nat (sampled_index sd))
              (closure sd) 0
              (e1, (bs_pdf s * sample_weight sc)%Q, sample_weight sc))
    as [[e2 sp] ssw].
  destruct (multi_eval_loop sd (bs_omega_in s) (-1) (closure sd) 0
              (result_eval, 0%Q, 0%Q)) as [[e3 sp'] ssw'].
  cbn [fst snd] in Hsp, Hssw, Hsp', Hssw'.
  assert (Esp : (sp == sp')%Q).
  { rewrite Hsp, Hsp'. rewrite <- Hsplit.
    rewrite !bsdf_pdf_weight_app, bsdf_pdf_weight_cons, Hbsdf, Hcons. ring. }
  assert (Essw : (ssw == ssw')%Q).
  { rewrite Hssw, Hssw'. rewrite <- Hsplit.
    rewrite !bsdf_weight_app, bsdf_weight_cons, Hbsdf. ring. }
  eexists. split; [reflexivity|]. cbn [out_omega_in out_pdf snd].
  split; [reflexivity|].
  rewrite (Qle_bool_compat _ _ Essw).
  destruct (Qle_bool ssw' 0); cbn [negb]; [reflexivity|].
  rewrite Esp, Essw. reflexivity.
Qed.

(** The statement of X12 at the two lobes of density 1 and 1/2, whose
    sampled and evaluated pdfs coincide. *)
Lemma shader_bsdf_sample_pdf_matches_eval_witness :
  exists out,
    shader_bsdf_sample (KT := sample_kernel_types) (CO := constant_density_ops)
      0 (shader_data_of [lobe 2 1 1 1; lobe 2 1 1 (1 # 2)] 0) (1 # 4) (3 # 4)
      (make_float3 0 0 0) (make_float3 0 1 0) zero_differential = Some out
    /\ (out_pdf out
        == (_shader_bsdf_multi_eval (KT := sample_kernel_types)
              (CO := constant_density_ops)
              (shader_data_of [lobe 2 1 1 1; lobe 2 1 1 (1 # 2)] 0)
              (make_float3 0 0 1) (-1) (make_float3 0 0 0) 0 0).2)%Q.
Proof.
  destruct (shader_bsdf_sample_pdf_matches_eval (KT := sample_kernel_types)
              (CO := constant_density_ops) 0
              (shader_data_of [lobe 2 1 1 1; lobe 2 1 1 (1 # 2)] 0)
              (1 # 4) (3 # 4) (make_float3 0 0 0) (make_float3 0 0 0)
              (make_float3 0 1 0) zero_differential (lobe 2 1 1 1))
    as (out & Hout & _ & Hpdf).
  - unfold num_closure; simpl. lia.
  - reflexivity.
  - intros H. vm_compute in H. discriminate.
  - reflexivity.
  - exists out. split; [exact Hout|exact Hpdf].
Defined.

(** X13: with exactly one closure in the array [shader_bsdf_sample] is
    [shader_bsdf_sample_closure] on that closure: nothing is picked, the
    random number [randb_closure] and the closure's type and sample weight
    are not looked at, and the returned pdf is the closure's own. *)
Theorem shader_bsdf_sample_single_closure
    `{KT : kernel_types} `{CO : closure_ops}
    (use_light_pass : Z) (sd : ShaderData) (sc : ShaderClosure)
    (randu randv : Q) (bsdf_eval0 : BsdfEval) (omega_in0 : float3)
    (domega_in0 : differential3) :
  closure sd = [sc] ->
  shader_bsdf_sample use_light_pass sd randu randv bsdf_eval0 omega_in0
    domega_in0
  = Some (shader_bsdf_sample_closure use_light_pass sd sc randu randv
            bsdf_eval0 omega_in0 domega_in0).
Proof.
  intros Hcl.
  unfold shader_bsdf_sample, shader_bsdf_sample_closure, sampled_index,
    num_closure.
  rewrite Hcl. simpl.
  destruct (float_nonzero (bs_pdf (bsdf_sample sd sc randu randv omega_in0
                                     domega_in0))); reflexivity.
Qed.

(** The statement of X13 at a single emission closure, which is sampled
    although it is no BSDF. *)
Lemma shader_bsdf_sample_single_closure_witness :
  shader_bsdf_sample (KT := sample_kernel_types) (CO := constant_density_ops)
    0 (shader_data_of [lobe 40 1 1 (1 # 2)] (3 # 4)) (1 # 4) (3 # 4)
    (make_float3 0 0 0) (make_float3 0 1 0) zero_differential
  = Some (shader_bsdf_sample_closure (CO := constant_density_ops) 0
            (shader_data_of [lobe 40 1 1 (1 # 2)] (3 # 4))
            (lobe 40 1 1 (1 # 2)) (1 # 4) (3 # 4)
            (make_float3 0 0 0) (make_float3 0 1 0) zero_differential).
Proof.
  apply (shader_bsdf_sample_single_closure (KT := sample_kernel_types)
           (CO := constant_density_ops)).
  reflexivity.
Defined.

(** X14: the copy loop that closes the gap of a merged closure.  On an
    array of fixed capacity with [num] live closures, removing position [j]
    keeps the capacity, leaves [num - 1] live closures, and these are the
    old live closures without the one at [j], in their order. *)
Theorem remove_closure_deletes `{CO : closure_ops}
    (arr : list ShaderClosure) (num j : nat) :
  (j < num <= length arr)%nat ->
  length (remove_closure arr num j).1 = length arr
  /\ (remove_closure arr num j).2 = (num - 1)%nat
  /\ take (remove_closure arr num j).2 (remove_closure arr num j).1
     = take j arr ++ drop (S j) (take num arr).
Proof.
  intros [Hj Hnum]. unfold remove_closure. cbn [fst snd].
  assert (Hsplit : exists pre scj tail stale,
             arr = pre ++ scj :: tail ++ stale
             /\ length pre = j /\ length tail = (num - (j + 1))%nat).
  { destruct (lookup_lt_is_Some_2 arr j ltac:(lia)) as [scj Hscj].
    exists (take j arr), scj, (take (num - (j + 1)) (drop (S j) arr)),
      (drop (num - (j + 1)) (drop (S j) arr)).
    split; [|split].
    - rewrite take_drop. symmetry. apply take_drop_middle. exact Hscj.
    - rewrite length_take. lia.
    - rewrite length_take, length_drop. lia. }
  destruct Hsplit as (pre & scj & tail & stale & -> & Hpre & Htail).
  subst j. rewrite <- Htail. rewrite shift_down_spec.
  split; [|split; [reflexivity|]].
  - rewrite !length_app. simpl. rewrite !length_app. simpl. lia.
  - assert (Hl : take (num - 1) (pre ++ tail ++ default scj (last tail) :: stale)
                 = pre ++ tail).
    { replace (num - 1)%nat with (length (pre ++ tail))
        by (rewrite length_app; lia).
      rewrite app_assoc. apply take_app_length. }
    assert (Hr1 : take num (pre ++ scj :: tail ++ stale) = pre ++ scj :: tail).
    { replace num with (length (pre ++ scj :: tail))
        by (rewrite length_app; simpl; lia).
      replace (pre ++ scj :: tail ++ stale) with ((pre ++ scj :: tail) ++ stale)
        by (rewrite <- app_assoc; reflexivity).
      apply take_app_length. }
    assert (Hr2 : drop (S (length pre)) (pre ++ scj :: tail) = tail).
    { replace (S (length pre)) with (length (pre ++ [scj]))
        by (rewrite length_app; simpl; lia).
      replace (pre ++ scj :: tail) with ((pre ++ [scj]) ++ tail)
        by (rewrite <- app_assoc; reflexivity).
      apply drop_app_length. }
    rewrite Hl, Hr1, Hr2, take_app_length. reflexivity.
Qed.

(** The statement of X14 at an array of capacity 4 with 3 live closures,
    whose second one is removed. *)
Lemma remove_closure_deletes_witness :
  take (remove_closure [lobe 2 1 1 1; lobe 9 1 1 1; lobe 21 1 1 1;
                        lobe 40 1 1 1] 3 1).2
    (remove_closure [lobe 2 1 1 1; lobe 9 1 1 1; lobe 21 1 1 1;
                     lobe 40 1 1 1] 3 1).1
  = [lobe 2 1 1 1; lobe 21 1 1 1].
Proof.
  destruct (remove_closure_deletes (CO := constant_density_ops)
              [lobe 2 1 1 1; lobe 9 1 1 1; lobe 21 1 1 1; lobe 40 1 1 1] 3 1
              ltac:(simpl; lia)) as (_ & _ & H).
  rewrite H. reflexivity.
Defined.
(** Without a skipped index, the evaluation loop of the path integrator
    accumulates what the branched loop accumulates with MIS switched off. *)
Lemma multi_eval_loop_branched `{KT : kernel_types} `{CO : closure_ops}
    `{MO : !mis_ops} (sd : ShaderData) (omega_in : float3) (light_pdf : Q)
    (cl : list ShaderClosure) :
  forall i acc,
    0 <= i ->
    (multi_eval_loop sd omega_in (-1) cl i acc).1.1
    = _shader_bsdf_multi_eval_branched sd omega_in cl acc.1.1 light_pdf false.
Proof.
  induction cl as [|sc cl IH]; intros i acc Hi.
  - reflexivity.
  - destruct acc as [[e sp] ssw].
    cbn [multi_eval_loop _shader_bsdf_multi_eval_branched fst].
    replace (i =? -1) with false by (symmetry; apply Z.eqb_neq; lia).
    destruct (CLOSURE_IS_BSDF (type sc)).
    + destruct (bsdf_eval sd sc omega_in) as [ev p].
      destruct (float_nonzero p); rewrite IH by lia; reflexivity.
    + rewrite IH by lia. reflexivity.
Qed.

(** X15: with MIS switched off, [shader_bsdf_eval] gives the same
    evaluation whether the integrator is the branched one or not: both
    loops accumulate, for every BSDF closure of nonzero pdf in array order,
    its evaluation times its weight with MIS weight 1. *)
Theorem shader_bsdf_eval_branched_agrees
    `{KT : kernel_types} `{CO : closure_ops} `{CK : closure_kinds}
    `{MO : !mis_ops} (use_light_pass branched1 branched2 : Z)
    (sd : ShaderData) (omega_in : float3) (light_pdf : Q) :
  shader_bsdf_eval use_light_pass branched1 sd omega_in light_pdf false
  = shader_bsdf_eval use_light_pass branched2 sd omega_in light_pdf false.
Proof.
  assert (H : forall b,
             shader_bsdf_eval use_light_pass b sd omega_in light_pdf false
             = _shader_bsdf_multi_eval_branched sd omega_in (closure sd)
                 (bsdf_eval_init NBUILTIN_CLOSURES (make_float3 0 0 0)
                    use_light_pass) light_pdf false).
  { intros b. unfold shader_bsdf_eval.
    destruct (truthy b); [reflexivity|].
    unfold _shader_bsdf_multi_eval.
    pose proof (multi_eval_loop_branched sd omega_in light_pdf (closure sd) 0
                  (bsdf_eval_init NBUILTIN_CLOSURES (make_float3 0 0 0)
                     use_light_pass, 0%Q, 0%Q) ltac:(lia)) as Hl.
    destruct (multi_eval_loop sd omega_in (-1) (closure sd) 0
                (bsdf_eval_init NBUILTIN_CLOSURES (make_float3 0 0 0)
                   use_light_pass, 0%Q, 0%Q)) as [[e sp] ssw].
    exact Hl. }
  rewrite (H branched1), (H branched2). reflexivity.
Qed.

(* ===================================================================== *)
(** * Properties of render/image.cpp: the image registry *)
(* ===================================================================== *)



Module RegistryFacts.
Import Registry.

Lemma image_equals_set_users img n key :
  image_equals (set_users img n) key = image_equals img key.
Proof. reflexivity. Qed.

Lemma image_equals_set_frame_reload img f key :
  image_equals (set_frame_reload img f) key = image_equals img key.
Proof. reflexivity. Qed.

Lemma image_equals_set_use_alpha_reload img a key :
  image_equals (set_use_alpha_reload img a) key = image_equals img key.
Proof. reflexivity. Qed.

(** The first loop returns the first slot whose image equals the key. *)
Lemma find_existing_Some imgs key :
  forall start slot img,
    find_existing imgs start key = Some (slot, img) ->
    exists k,
      slot = (start + k)%nat
      /\ imgs !! k = Some (Some img)
      /\ image_equals img key = true
      /\ forall j img', (j < k)%nat -> imgs !! j = Some (Some img') ->
                        image_equals img' key = false.
Proof.
  induction imgs as [|entry rest IH]; intros start slot img H; simpl in H.
  - discriminate.
  - destruct entry as [img0|].
    + destruct (image_equals img0 key) eqn:He.
      * injection H as <- <-. exists 0%nat.
        split; [lia|]. split; [reflexivity|]. split; [exact He|].
        intros j img' Hj. lia.
      * destruct (IH _ _ _ H) as (k & -> & Hk & Hm & Hfirst).
        exists (S k). split; [lia|]. split; [exact Hk|]. split; [exact Hm|].
        intros [|j] img' Hj Hl; simpl in Hl.
        -- injection Hl as <-. exact He.
        -- apply (Hfirst j img'); [lia|exact Hl].
    + destruct (IH _ _ _ H) as (k & -> & Hk & Hm & Hfirst).
      exists (S k). split; [lia|]. split; [exact Hk|]. split; [exact Hm|].
      intros [|j] img' Hj Hl; simpl in Hl.
      * discriminate.
      * apply (Hfirst j img'); [lia|exact Hl].
Qed.



(** The second loop returns the first free slot, or the size. *)
Lemma find_free_slot_spec imgs :
  forall start,
    exists k,
      find_free_slot imgs start = (start + k)%nat
      /\ (k <= length imgs)%nat
      /\ (forall j, (j < k)%nat -> exists img, imgs !! j = Some (Some img))
      /\ ((k < length imgs)%nat -> imgs !! k = Some None).
Proof.
  induction imgs as [|entry rest IH]; intros start.
  - exists 0%nat. simpl. split; [lia|]. split; [lia|].
    split; [intros j Hj; lia|intros H; lia].
  - destruct entry as [img|]; simpl.
    + destruct (IH (S start)) as (k & Hk & Hle & Hsome & Hnone).
      exists (S k). split; [lia|]. split; [lia|]. split.
      * intros [|j] Hj; simpl; [eexists; reflexivity|apply Hsome; lia].
      * intros Hlt. simpl. apply Hnone. lia.
    + exists 0%nat. split; [lia|]. split; [lia|].
      split; [intros j Hj; lia|intros _; reflexivity].
Qed.

Lemma images_set_cons entry imgs :
  images_set (entry :: imgs)
  = ((if entry is Some _ then 1 else 0) + images_set imgs)%nat.
Proof. unfold images_set. simpl. destruct entry; reflexivity. Qed.

Lemma images_set_le imgs : (images_set imgs <= length imgs)%nat.
Proof.
  induction imgs as [|e imgs IH]; [unfold images_set; simpl; lia|].
  rewrite images_set_cons. destruct e; simpl; lia.
Qed.

Lemma images_set_app_None imgs :
  images_set (imgs ++ [None]) = images_set imgs.
Proof.
  induction imgs as [|e imgs IH]; [reflexivity|].
  rewrite <- app_comm_cons, !images_set_cons, IH. reflexivity.
Qed.

Lemma images_set_full imgs :
  (forall j, (j < length imgs)%nat -> exists img, imgs !! j = Some (Some img)) ->
  images_set imgs = length imgs.
Proof.
  induction imgs as [|e imgs IH]; intros H; [reflexivity|].
  rewrite images_set_cons.
  destruct (H 0%nat ltac:(simpl; lia)) as [img Himg]. simpl in Himg.
  injection Himg as ->. simpl. f_equal. apply IH.
  intros j Hj. apply (H (S j)). simpl. lia.
Qed.

(** The number of images set after a store into a slot. *)
Lemma images_set_insert imgs :
  forall slot old new,
    imgs !! slot = Some old ->
    (images_set (<[slot := new]> imgs) + (if old is Some _ then 1 else 0)
     = images_set imgs + (if new is Some _ then 1 else 0))%nat.
Proof.
  induction imgs as [|e imgs IH]; intros slot old new Hl.
  - discriminate.
  - destruct slot as [|slot]; simpl in Hl.
    + injection Hl as ->. simpl. rewrite !images_set_cons.
      destruct old, new; lia.
    + simpl. rewrite !images_set_cons. specialize (IH slot old new Hl). lia.
Qed.

Lemma update_slot_same {A : Type} (f : ImageDataType -> list A) type slot v :
  update_slot f type slot v type = <[slot := v]> (f type).
Proof. unfold update_slot. rewrite ImageDataType_eqb_refl. reflexivity. Qed.

Lemma ImageDataType_eqb_eq a b : ImageDataType_eqb a b = true <-> a = b.
Proof. destruct a, b; simpl; split; congruence. Qed.

Lemma ImageDataType_cases (a b : ImageDataType) : a = b \/ a <> b.
Proof.
  destruct (ImageDataType_eqb a b) eqn:He.
  - left. apply ImageDataType_eqb_eq. exact He.
  - right. intros ->. rewrite ImageDataType_eqb_refl in He. discriminate.
Qed.

Lemma update_slot_other {A : Type} (f : ImageDataType -> list A) type slot v t :
  t <> type -> update_slot f type slot v t = f t.
Proof.
  intros Hne. unfold update_slot.
  destruct (ImageDataType_eqb t type) eqn:He; [|reflexivity].
  apply ImageDataType_eqb_eq in He. contradiction.
Qed.

End RegistryFacts.
Section AddImageFacts.
Import Registry RegistryFacts.
Variable image_type_value : ImageDataType -> Z.
Variable get_image_metadata : string -> Z -> Z -> ImageDataType * bool.
Variables TEX_NUM_BYTE4_CUDA TEX_NUM_FLOAT4_CUDA : Z.

(** The three ways [add_image] ends: an image that equals the key exists
    and gets one more user; the limit is reached and nothing changes; or a
    new image is stored in the first free slot. *)
Lemma add_image_cases (mgr : ImageManager) (key : ImageKey) (animated : bool)
    (frame : Q) (use_alpha srgb : bool) :
  let type := key_type get_image_metadata mgr key in
  let res :=
    add_image image_type_value get_image_metadata TEX_NUM_BYTE4_CUDA
      TEX_NUM_FLOAT4_CUDA mgr key animated frame use_alpha srgb in
  (exists slot img img',
      find_existing (images mgr type) 0 key = Some (slot, img)
      /\ flat_slot res.1
         = type_index_to_flattened_slot image_type_value mgr (Z.of_nat slot) type
      /\ res.2 = set_images mgr (update_slot (images mgr) type slot (Some img'))
      /\ image_equals img' key = true
      /\ users img' = int_add (users img) 1)
  \/ (find_existing (images mgr type) 0 key = None
      /\ flat_slot res.1 = -1 /\ res.2 = mgr)
  \/ (exists img,
        let slot := find_free_slot (images mgr type) 0 in
        let imgs :=
          if (slot =? length (images mgr type))%nat
          then images mgr type ++ [None] else images mgr type in
        find_existing (images mgr type) 0 key = None
        /\ flat_slot res.1
           = type_index_to_flattened_slot image_type_value mgr (Z.of_nat slot)
               type
        /\ image_equals img key = true
        /\ users img = 1
        /\ images res.2
           = (fun t => if ImageDataType_eqb t type
                       then <[slot := Some img]> imgs else images mgr t)
        /\ tex_num_images res.2
           = (fun t => if ImageDataType_eqb t type
                       then int_add (tex_num_images mgr t) 1
                       else tex_num_images mgr t)
        /\ need_update res.2 = true
        /\ has_half_images res.2 = has_half_images mgr
        /\ cuda_fermi_limits res.2 = cuda_fermi_limits mgr
        /\ max_num_images res.2 = max_num_images mgr).
Proof.
  intros type res. subst type res. unfold add_image, key_type.
  destruct (get_image_metadata (key_filename key) (key_builtin_data key)
              (key_generated_data key)) as [ty lin].
  cbn [fst].
  destruct (find_existing (images mgr (filed_type mgr ty)) 0 key)
    as [[slot img]|] eqn:Hfind.
  - left. eexists slot, img, _. split; [reflexivity|].
    split; [reflexivity|]. split; [reflexivity|].
    destruct (find_existing_Some _ _ _ _ _ Hfind) as (k & _ & _ & Hm & _).
    split.
    + rewrite image_equals_set_users.
      destruct (negb (eqb _ use_alpha)), (negb (Qeq_bool (Registry.frame img) frame));
        rewrite ?image_equals_set_use_alpha_reload,
          ?image_equals_set_frame_reload; exact Hm.
    + cbn [users set_users]. f_equal.
      destruct (negb (eqb _ use_alpha)), (negb (Qeq_bool (Registry.frame img) frame));
        reflexivity.
  - destruct (over_limit TEX_NUM_BYTE4_CUDA TEX_NUM_FLOAT4_CUDA mgr).
    + right. left. repeat split; reflexivity.
    + right. right. eexists. cbv zeta.
      split; [reflexivity|]. split; [reflexivity|].
      split; [|repeat split; reflexivity].
      unfold image_equals. cbn.
      rewrite bool_decide_eq_true_2 by reflexivity.
      rewrite !Z.eqb_refl. reflexivity.
Qed.
End AddImageFacts.
Section RegistryInvariants.
Import Registry RegistryFacts.
Variable image_type_value : ImageDataType -> Z.
Variable get_image_metadata : string -> Z -> Z -> ImageDataType * bool.
Variables TEX_NUM_BYTE4_CUDA TEX_NUM_FLOAT4_CUDA : Z.

(** One [add_image] keeps the counters exact and the vectors covered, and
    lengthens no vector by more than one slot. *)
Lemma add_image_invariant (mgr : ImageManager) (dscene : DeviceImages)
    (key : ImageKey) (animated : bool) (frame : Q) (use_alpha srgb : bool) :
  let mgr' :=
    (add_image image_type_value get_image_metadata TEX_NUM_BYTE4_CUDA
       TEX_NUM_FLOAT4_CUDA mgr key animated frame use_alpha srgb).2 in
  counts_consistent mgr ->
  (forall type, Z.of_nat (length (images mgr type)) < 2 ^ 31 - 1) ->
  counts_consistent mgr'
  /\ (slots_covered mgr dscene -> slots_covered mgr' dscene)
  /\ (no_free_slot mgr -> no_free_slot mgr')
  /\ (forall type,
        (length (images mgr type) <= length (images mgr' type)
         <= length (images mgr type) + 1)%nat).
Proof.
  intros mgr' Hcount Hbound.
  pose proof (add_image_cases image_type_value get_image_metadata
                TEX_NUM_BYTE4_CUDA TEX_NUM_FLOAT4_CUDA mgr key animated frame
                use_alpha srgb) as Hc.
  cbv zeta in Hc. fold mgr' in Hc.
  set (type0 := key_type get_image_metadata mgr key) in *.
  destruct Hc as [(slot & img & img' & Hfind & _ & Hm & _ & _)
                 |[(_ & _ & Hm)|(img & Hc)]].
  - (* an existing image *)
    destruct (find_existing_Some _ _ _ _ _ Hfind) as (k & Hk & Hl & _).
    simpl in Hk. subst k.
    assert (Hlen : forall type,
               length (images mgr' type) = length (images mgr type)).
    { intros type. rewrite Hm. cbn [images set_images]. unfold update_slot.
      destruct (ImageDataType_eqb type type0); [apply length_insert|reflexivity]. }
    assert (Hset : forall type,
               images_set (images mgr' type) = images_set (images mgr type)).
    { intros type. rewrite Hm. cbn [images set_images]. unfold update_slot.
      destruct (ImageDataType_eqb type type0) eqn:He; [|reflexivity].
      apply ImageDataType_eqb_eq in He. subst type.
      pose proof (images_set_insert _ slot _ (Some img') Hl) as Hi.
      cbv iota beta in Hi. lia. }
    assert (Hnum : tex_num_images mgr' = tex_num_images mgr)
      by (rewrite Hm; reflexivity).
    split; [|split; [|split]].
    + intros type. rewrite Hnum, Hset. apply Hcount.
    + intros Hcov type. rewrite Hnum, Hlen. apply Hcov.
    + intros Hfull type. rewrite Hm. cbn [images set_images]. unfold update_slot.
      destruct (ImageDataType_eqb type type0) eqn:He; [|apply Hfull].
      apply Forall_insert; [apply Hfull|eexists; reflexivity].
    + intros type. rewrite Hlen. lia.
  - (* the limit is reached *)
    rewrite Hm. split; [exact Hcount|]. split; [tauto|]. split; [tauto|].
    intros type. lia.
  - (* a new image *)
    cbv zeta in Hc.
    destruct Hc as (_ & _ & _ & _ & Himgs & Hnum & _).
    destruct (find_free_slot_spec (images mgr type0) 0)
      as (k & Hk & Hle & Hsome & Hfree).
    simpl in Hk. rewrite Hk in Himgs.
    assert (Hother : forall type, type <> type0 ->
               images mgr' type = images mgr type
               /\ tex_num_images mgr' type = tex_num_images mgr type).
    { intros type Hne. rewrite Himgs, Hnum.
      destruct (ImageDataType_eqb type type0) eqn:He; [|split; reflexivity].
      apply ImageDataType_eqb_eq in He. contradiction. }
    assert (Hnum0 : tex_num_images mgr' type0
                    = tex_num_images mgr type0 + 1).
    { rewrite Hnum, ImageDataType_eqb_refl. unfold int_add.
      apply int_wrap_small. rewrite Hcount.
      pose proof (images_set_le (images mgr type0)).
      specialize (Hbound type0). lia. }
    assert (Hat : images mgr' type0
                  = <[k := Some img]>
                      (if (k =? length (images mgr type0))%nat
                       then images mgr type0 ++ [None] else images mgr type0)).
    { rewrite Himgs, ImageDataType_eqb_refl. reflexivity. }
    assert (Hset0 : images_set (images mgr' type0)
                    = S (images_set (images mgr type0))).
    { rewrite Hat.
      destruct (Nat.eqb_spec k (length (images mgr type0))) as [Hfull|Hgap].
      - pose proof (images_set_insert (images mgr type0 ++ [None]) k None
                      (Some img)) as Hi.
        rewrite images_set_app_None in Hi. cbv iota beta in Hi.
        rewrite Nat.add_0_r in Hi. rewrite Hi; [lia|].
        apply list_lookup_middle. exact Hfull.
      - pose proof (images_set_insert (images mgr type0) k None (Some img)
                      (Hfree ltac:(lia))) as Hi.
        cbv iota beta in Hi. lia. }
    assert (Hlen0 : length (images mgr' type0)
                    = if (k =? length (images mgr type0))%nat
                      then S (length (images mgr type0))
                      else length (images mgr type0)).
    { rewrite Hat, length_insert.
      destruct (k =? length (images mgr type0))%nat; [|reflexivity].
      rewrite length_app. simpl. lia. }
    split; [|split; [|split]].
    + intros type. destruct (ImageDataType_cases type type0) as [->|Hne].
      * rewrite Hnum0, Hset0, Hcount. lia.
      * destruct (Hother type Hne) as [-> ->]. apply Hcount.
    + intros Hcov type. destruct (ImageDataType_cases type type0) as [->|Hne].
      * rewrite Hnum0, Hlen0. specialize (Hcov type0).
        destruct (Nat.eqb_spec k (length (images mgr type0))) as [Hfull|Hgap];
          [|lia].
        assert (Hall : images_set (images mgr type0)
                       = length (images mgr type0)).
        { apply images_set_full. intros j Hj. apply Hsome. lia. }
        rewrite Hcount, Hall. lia.
      * destruct (Hother type Hne) as [-> ->]. apply Hcov.
    + intros Hfull type. destruct (ImageDataType_cases type type0) as [->|Hne].
      * rewrite Hat.
        destruct (Nat.eqb_spec k (length (images mgr type0))) as [Hk'|Hk'].
        -- rewrite insert_app_r_alt by lia. rewrite Hk', Nat.sub_diag.
           apply Forall_app. split; [apply Hfull|].
           constructor; [eexists; reflexivity|constructor].
        -- apply Forall_insert; [apply Hfull|eexists; reflexivity].
      * destruct (Hother type Hne) as [-> _]. apply Hfull.
    + intros type. destruct (ImageDataType_cases type type0) as [->|Hne].
      * rewrite Hlen0.
        destruct (k =? length (images mgr type0))%nat; lia.
      * destruct (Hother type Hne) as [-> _]. lia.
Qed.
End RegistryInvariants.
Section RegistrySequences.
Import Registry RegistryFacts.
Variable image_type_value : ImageDataType -> Z.
Variable get_image_metadata : string -> Z -> Z -> ImageDataType * bool.
Variables TEX_NUM_BYTE4_CUDA TEX_NUM_FLOAT4_CUDA : Z.

Lemma add_images_invariant (dscene : DeviceImages) (reqs : list AddRequest) :
  forall mgr : ImageManager,
  let mgr' :=
    add_images image_type_value get_image_metadata TEX_NUM_BYTE4_CUDA
      TEX_NUM_FLOAT4_CUDA mgr reqs in
  counts_consistent mgr ->
  (forall type,
     Z.of_nat (length (images mgr type)) + Z.of_nat (length reqs) < 2 ^ 31) ->
  counts_consistent mgr'
  /\ (slots_covered mgr dscene -> slots_covered mgr' dscene)
  /\ (no_free_slot mgr -> no_free_slot mgr')
  /\ (forall type,
        (length (images mgr' type) <= length (images mgr type) + length reqs)%nat).
Proof.
  induction reqs as [|req reqs IH]; intros mgr mgr' Hcount Hbound.
  - subst mgr'. simpl. split; [exact Hcount|]. split; [tauto|].
    split; [tauto|]. intros type. lia.
  - subst mgr'. unfold add_images. cbn [fold_left].
    fold (add_images image_type_value get_image_metadata TEX_NUM_BYTE4_CUDA
            TEX_NUM_FLOAT4_CUDA).
    destruct (add_image_invariant image_type_value get_image_metadata
                TEX_NUM_BYTE4_CUDA TEX_NUM_FLOAT4_CUDA mgr dscene
                (req_key req) (req_animated req) (req_frame req)
                (req_use_alpha req) (req_srgb req) Hcount)
      as (Hc1 & Hcov1 & Hfull1 & Hlen1).
    { intros type. specialize (Hbound type). simpl length in Hbound. lia. }
    set (mgr1 := (add_image image_type_value get_image_metadata
                    TEX_NUM_BYTE4_CUDA TEX_NUM_FLOAT4_CUDA mgr (req_key req)
                    (req_animated req) (req_frame req) (req_use_alpha req)
                    (req_srgb req)).2) in *.
    destruct (IH mgr1 Hc1) as (Hc2 & Hcov2 & Hfull2 & Hlen2).
    { intros type. specialize (Hbound type). specialize (Hlen1 type).
      simpl length in Hbound. lia. }
    cbv zeta in Hc2, Hcov2, Hfull2, Hlen2.
    split; [exact Hc2|]. split; [tauto|]. split; [tauto|].
    intros type. specialize (Hlen1 type). specialize (Hlen2 type).
    simpl length. unfold add_images in *. lia.
Qed.

(** The device vectors after [device_prepare_update]. *)
Lemma device_prepare_update_length (mgr : ImageManager) (dscene : DeviceImages)
    (type : ImageDataType) :
  0 <= tex_num_images mgr type < 2 ^ 64 ->
  Z.of_nat (length (device_prepare_update mgr dscene type))
  = Z.max (Z.of_nat (length (dscene type))) (tex_num_images mgr type)
  /\ take (length (dscene type)) (device_prepare_update mgr dscene type)
     = dscene type.
Proof.
  intros Hn. unfold device_prepare_update, size_t_wrap.
  rewrite Z.mod_small by lia.
  destruct (Z.leb_spec (Z.of_nat (length (dscene type)))
              (tex_num_images mgr type)) as [Hle|Hgt].
  - split.
    + rewrite length_resize. lia.
    + rewrite resize_ge by lia. apply take_app_length.
  - split; [lia|]. apply firstn_all.
Qed.
End RegistrySequences.

(** X18: registering images keeps the books of the manager.  When every
    counter [tex_num_images] is the number of images set in the vector of
    its type, it still is after any sequence of [add_image] calls; and when
    every vector of images is no longer than the device vector or the
    counter of its type, it still is.  No vector grows by more than the
    number of calls. *)
Theorem add_images_keeps_books
    (image_type_value : ImageDataType -> Z)
    (get_image_metadata : string -> Z -> Z -> ImageDataType * bool)
    (TEX_NUM_BYTE4_CUDA TEX_NUM_FLOAT4_CUDA : Z)
    (mgr : Registry.ImageManager) (dscene : Registry.DeviceImages)
    (reqs : list Registry.AddRequest) :
  let mgr' :=
    Registry.add_images image_type_value get_image_metadata
      TEX_NUM_BYTE4_CUDA TEX_NUM_FLOAT4_CUDA mgr reqs in
  Registry.counts_consistent mgr ->
  Registry.slots_covered mgr dscene ->
  (forall type,
     Z.of_nat (length (Registry.images mgr type)) + Z.of_nat (length reqs)
     < 2 ^ 31) ->
  Registry.counts_consistent mgr'
  /\ Registry.slots_covered mgr' dscene
  /\ forall type,
       (length (Registry.images mgr' type)
        <= length (Registry.images mgr type) + length reqs)%nat.
Proof.
  intros mgr' Hcount Hcov Hbound.
  destruct (add_images_invariant image_type_value get_image_metadata
              TEX_NUM_BYTE4_CUDA TEX_NUM_FLOAT4_CUDA dscene reqs mgr Hcount
              Hbound) as (H1 & H2 & _ & H4).
  split; [exact H1|]. split; [apply H2; exact Hcov|exact H4].
Qed.

(** X19: [device_prepare_update] makes room for every registered image.
    When the counters are the numbers of images set and every vector of
    images is no longer than the device vector or the counter of its type,
    then afterwards every slot that holds an image is a slot of the device
    vector of its type; the device vectors only grow, by null entries. *)
Theorem device_prepare_update_covers
    (mgr : Registry.ImageManager) (dscene : Registry.DeviceImages) :
  Registry.counts_consistent mgr ->
  Registry.slots_covered mgr dscene ->
  (forall type, Z.of_nat (length (Registry.images mgr type)) < 2 ^ 31) ->
  Registry.slots_inside mgr (Registry.device_prepare_update mgr dscene)
  /\ (forall type slot img,
        Registry.images mgr type !! slot = Some (Some img) ->
        is_Some (Registry.device_prepare_update mgr dscene type !! slot))
  /\ (forall type,
        take (length (dscene type))
          (Registry.device_prepare_update mgr dscene type) = dscene type).
Proof.
  intros Hcount Hcov Hbound.
  assert (Hn : forall type, 0 <= Registry.tex_num_images mgr type < 2 ^ 64).
  { intros type. rewrite Hcount.
    pose proof (RegistryFacts.images_set_le (Registry.images mgr type)).
    specialize (Hbound type). lia. }
  assert (Hin : Registry.slots_inside mgr
                  (Registry.device_prepare_update mgr dscene)).
  { intros type.
    destruct (device_prepare_update_length mgr dscene type (Hn type)) as [Hl _].
    specialize (Hcov type). lia. }
  split; [exact Hin|]. split.
  - intros type slot img Hl. apply lookup_lt_is_Some.
    apply lookup_lt_Some in Hl. specialize (Hin type). lia.
  - intros type. apply device_prepare_update_length. apply Hn.
Qed.

(** The statement of X18 at a new CPU manager and three requests, two of
    them for the same file. *)
Lemma add_images_keeps_books_witness :
  Registry.counts_consistent
    (Registry.add_images sample_image_type_value sample_metadata 5 5
       fresh_cpu_manager [wood_request; noise_request; wood_request]).
Proof.
  apply (add_images_keeps_books sample_image_type_value sample_metadata 5 5
           fresh_cpu_manager no_device_images
           [wood_request; noise_request; wood_request]).
  - intros type. reflexivity.
  - intros type. simpl. lia.
  - intros type. simpl. lia.
Defined.

(** The statement of X19 at the manager that holds the three requests and
    no device images yet. *)
Lemma device_prepare_update_covers_witness :
  Registry.slots_inside
    (Registry.add_images sample_image_type_value sample_metadata 5 5
       fresh_cpu_manager [wood_request; noise_request; wood_request])
    (Registry.device_prepare_update
       (Registry.add_images sample_image_type_value sample_metadata 5 5
          fresh_cpu_manager [wood_request; noise_request; wood_request])
       no_device_images).
Proof.
  apply (device_prepare_update_covers
           (Registry.add_images sample_image_type_value sample_metadata 5 5
              fresh_cpu_manager [wood_request; noise_request; wood_request])
           no_device_images).
  - intros type. destruct type; reflexivity.
  - intros type. destruct type; vm_compute; discriminate.
  - intros type. destruct type; vm_compute; reflexivity.
Defined.

(** X20: a manager fresh from its constructor never leaves a gap.  After
    any sequence of [add_image] calls on a new manager, every counter is
    the number of images set, no vector of images has a free slot, and
    [device_prepare_update] gives every device vector a slot for each
    registered image, whatever the device vectors were. *)
Theorem new_manager_add_images
    (image_type_value : ImageDataType -> Z)
    (get_image_metadata : string -> Z -> Z -> ImageDataType * bool)
    (TEX_NUM_BYTE4_CUDA TEX_NUM_FLOAT4_CUDA TEX_NUM_MAX : Z)
    (info : Registry.DeviceInfo) (mgr0 : Registry.ImageManager)
    (reqs : list Registry.AddRequest) (dscene : Registry.DeviceImages) :
  Registry.new_ImageManager TEX_NUM_MAX info = Some mgr0 ->
  Z.of_nat (length reqs) < 2 ^ 31 ->
  let mgr :=
    Registry.add_images image_type_value get_image_metadata
      TEX_NUM_BYTE4_CUDA TEX_NUM_FLOAT4_CUDA mgr0 reqs in
  Registry.counts_consistent mgr
  /\ Registry.no_free_slot mgr
  /\ Registry.slots_inside mgr (Registry.device_prepare_update mgr dscene).
Proof.
  intros Hnew Hlen mgr.
  assert (Hempty : forall type, Registry.images mgr0 type = []
                                /\ Registry.tex_num_images mgr0 type = 0).
  { unfold Registry.new_ImageManager in Hnew.
    destruct info as [ty hb md]. cbn in Hnew.
    destruct ty; [| | | | |destruct md as [|[ty2 hb2 md2] md]; [discriminate|];
                           cbn in Hnew; destruct ty2];
      try destruct hb; cbn in Hnew;
      injection Hnew as <-; intros type; split; reflexivity. }
  destruct (add_images_invariant image_type_value get_image_metadata
              TEX_NUM_BYTE4_CUDA TEX_NUM_FLOAT4_CUDA dscene reqs mgr0)
    as (Hcount & _ & Hfull & Hgrow).
  { intros type. destruct (Hempty type) as [-> ->]. reflexivity. }
  { intros type. destruct (Hempty type) as [-> _]. simpl. lia. }
  fold mgr in Hcount, Hfull, Hgrow.
  assert (Hfull' : Registry.no_free_slot mgr).
  { apply Hfull. intros type. destruct (Hempty type) as [-> _]. constructor. }
  split; [exact Hcount|]. split; [exact Hfull'|].
  intros type.
  assert (Hall : Registry.images_set (Registry.images mgr type)
                 = length (Registry.images mgr type)).
  { apply RegistryFacts.images_set_full. intros j Hj.
    destruct (lookup_lt_is_Some_2 _ _ Hj) as [entry Hentry].
    pose proof (Hfull' type) as Hf. rewrite Forall_forall in Hf.
    destruct (Hf entry (list_elem_of_lookup_2 _ _ _ Hentry)) as [img ->].
    exists img. exact Hentry. }
  assert (Hn : 0 <= Registry.tex_num_images mgr type < 2 ^ 64).
  { rewrite Hcount, Hall. specialize (Hgrow type).
    destruct (Hempty type) as [He _]. rewrite He in Hgrow. simpl in Hgrow. lia. }
  destruct (device_prepare_update_length mgr dscene type Hn) as [Hl _].
  rewrite Hcount, Hall in Hl. lia.
Qed.

(** The statement of X20 at a CPU device and the three requests. *)
Lemma new_manager_add_images_witness :
  Registry.no_free_slot
    (Registry.add_images sample_image_type_value sample_metadata 5 5
       fresh_cpu_manager [wood_request; noise_request; wood_request]).
Proof.
  apply (new_manager_add_images sample_image_type_value sample_metadata 5 5
           1024 cpu_info fresh_cpu_manager
           [wood_request; noise_request; wood_request] no_device_images).
  - reflexivity.
  - simpl. lia.
Defined.
(** X21: [device_free_image] on a slot that holds an image empties that
    slot and nothing else.  The image vector has a null entry there and is
    otherwise unchanged, the counter of the type drops by one and stays the
    number of images set, the device vectors keep their lengths, so every
    image slot that was inside its device vector still is; the device
    vector entry of the slot becomes null unless the image is an OIIO file
    image, for which the device scene is not touched; and no texture bound
    on the CPU device is unbound. *)
Theorem device_free_image_releases
    (oiio_texture_system : bool) (mgr : Registry.ImageManager)
    (dscene : Registry.DeviceImages) (device : CPUDevice)
    (type : ImageDataType) (slot : nat) (img : Registry.Image) :
  Registry.images mgr type !! slot = Some (Some img) ->
  Registry.counts_consistent mgr ->
  Z.of_nat (length (Registry.images mgr type)) < 2 ^ 31 ->
  exists mgr' dscene',
    Registry.device_free_image oiio_texture_system mgr dscene device type slot
    = Some (mgr', dscene', device)
    /\ Registry.images mgr' type = <[slot := None]> (Registry.images mgr type)
    /\ (forall t, t <> type -> Registry.images mgr' t = Registry.images mgr t)
    /\ Registry.tex_num_images mgr' type
       = Registry.tex_num_images mgr type - 1
    /\ Registry.counts_consistent mgr'
    /\ (forall t, length (dscene' t) = length (dscene t))
    /\ (Registry.slots_inside mgr dscene -> Registry.slots_inside mgr' dscene')
    /\ (forall t,
          dscene' t
          = if oiio_texture_system && (Registry.builtin_data img =? 0)
            then dscene t else update_slot dscene type slot None t).
Proof.
  intros Hl Hcount Hbound.
  unfold Registry.device_free_image. rewrite Hl.
  assert (Hupd : forall t,
             length (update_slot dscene type slot None t) = length (dscene t)).
  { intros t. unfold update_slot.
    destruct (ImageDataType_eqb t type); [apply length_insert|reflexivity]. }
  assert (Hfree : forall v, (tex_free device v).1 = device).
  { intros v. unfold tex_free. destruct (device_pointer v); reflexivity. }
  assert (Hout : dscene type !! slot = None ->
                 forall t, dscene t = update_slot dscene type slot None t).
  { intros Hd t. unfold update_slot.
    destruct (ImageDataType_eqb t type) eqn:He; [|reflexivity].
    apply RegistryFacts.ImageDataType_eqb_eq in He. subst t.
    symmetry. apply list_insert_ge. apply lookup_ge_None. exact Hd. }
  set (mgr' :=
         Registry.set_tex_num_images
           (Registry.set_images mgr
              (update_slot (Registry.images mgr) type slot None))
           (fun t =>
              if ImageDataType_eqb t type
              then int_sub
                     (Registry.tex_num_images
                        (Registry.set_images mgr
                           (update_slot (Registry.images mgr) type slot None))
                        t) 1
              else Registry.tex_num_images
                     (Registry.set_images mgr
                        (update_slot (Registry.images mgr) type slot None)) t)).
  assert (Himgs : Registry.images mgr' type
                  = <[slot := None]> (Registry.images mgr type)).
  { subst mgr'. cbn [Registry.images Registry.set_tex_num_images
                     Registry.set_images].
    apply RegistryFacts.update_slot_same. }
  assert (Hother : forall t, t <> type ->
             Registry.images mgr' t = Registry.images mgr t).
  { intros t Hne. subst mgr'.
    cbn [Registry.images Registry.set_tex_num_images Registry.set_images].
    apply RegistryFacts.update_slot_other. exact Hne. }
  pose proof (RegistryFacts.images_set_insert _ slot _ None Hl) as Hset.
  cbv iota beta in Hset.
  assert (Hnum : Registry.tex_num_images mgr' type
                 = Registry.tex_num_images mgr type - 1).
  { subst mgr'. cbn [Registry.tex_num_images Registry.set_tex_num_images
                     Registry.set_images].
    rewrite ImageDataType_eqb_refl. unfold int_sub.
    apply int_wrap_small. rewrite Hcount.
    pose proof (RegistryFacts.images_set_le (Registry.images mgr type)). lia. }
  assert (Hcount' : Registry.counts_consistent mgr').
  { intros t. destruct (RegistryFacts.ImageDataType_cases t type) as [->|Hne].
    - rewrite Hnum, Himgs, Hcount. lia.
    - rewrite (Hother t Hne). subst mgr'.
      cbn [Registry.tex_num_images Registry.set_tex_num_images
           Registry.set_images].
      destruct (ImageDataType_eqb t type) eqn:He; [|apply Hcount].
      apply RegistryFacts.ImageDataType_eqb_eq in He. contradiction. }
  assert (Hlen : forall t,
             length (Registry.images mgr' t) = length (Registry.images mgr t)).
  { intros t. destruct (RegistryFacts.ImageDataType_cases t type) as [->|Hne].
    - rewrite Himgs. apply length_insert.
    - rewrite (Hother t Hne). reflexivity. }
  assert (Hfinish : forall dscene',
             (forall t, length (dscene' t) = length (dscene t)) ->
             (forall t,
                dscene' t
                = if oiio_texture_system && (Registry.builtin_data img =? 0)
                  then dscene t else update_slot dscene type slot None t) ->
             Registry.images mgr' type
             = <[slot := None]> (Registry.images mgr type)
             /\ (forall t, t <> type ->
                   Registry.images mgr' t = Registry.images mgr t)
             /\ Registry.tex_num_images mgr' type
                = Registry.tex_num_images mgr type - 1
             /\ Registry.counts_consistent mgr'
             /\ (forall t, length (dscene' t) = length (dscene t))
             /\ (Registry.slots_inside mgr dscene ->
                 Registry.slots_inside mgr' dscene')
             /\ (forall t,
                   dscene' t
                   = if oiio_texture_system
                        && (Registry.builtin_data img =? 0)
                     then dscene t else update_slot dscene type slot None t)).
  { intros dscene' Hd Hd'. repeat split; try assumption.
    intros Hin t. rewrite Hlen, Hd. apply Hin. }
  destruct (oiio_texture_system && (Registry.builtin_data img =? 0)) eqn:Ho.
  - exists mgr', dscene. split; [reflexivity|].
    apply Hfinish; intros t; reflexivity.
  - destruct (dscene type !! slot) as [[v|]|] eqn:Hd.
    + destruct (device_pointer v).
      * exists mgr', (update_slot dscene type slot None).
        rewrite Hfree. split; [reflexivity|].
        apply Hfinish; [exact Hupd|intros t; reflexivity].
      * exists mgr', (update_slot dscene type slot None).
        split; [reflexivity|].
        apply Hfinish; [exact Hupd|intros t; reflexivity].
    + exists mgr', (update_slot dscene type slot None).
      split; [reflexivity|].
      apply Hfinish; [exact Hupd|intros t; reflexivity].
    + exists mgr', dscene. split; [reflexivity|].
      apply Hfinish; [intros t; reflexivity|apply Hout; reflexivity].
Qed.

(** The statement of X21 at the manager that holds the file image, whose
    slot 0 of the byte4 images is freed. *)
Lemma device_free_image_releases_witness :
  exists mgr' dscene',
    Registry.device_free_image false
      (Registry.add_images sample_image_type_value sample_metadata 5 5
         fresh_cpu_manager [wood_request])
      no_device_images ∅ IMAGE_DATA_TYPE_BYTE4 0
    = Some (mgr', dscene', ∅)
    /\ Registry.tex_num_images mgr' IMAGE_DATA_TYPE_BYTE4 = 0.
Proof.
  destruct (device_free_image_releases false
              (Registry.add_images sample_image_type_value sample_metadata 5 5
                 fresh_cpu_manager [wood_request])
              no_device_images ∅ IMAGE_DATA_TYPE_BYTE4 0
              {| Registry.filename := "wood.png"; Registry.builtin_data := 0;
                 Registry.generated_data := 0; Registry.need_load := true;
                 Registry.animated := false; Registry.frame := 1;
                 Registry.interpolation := 1; Registry.extension := 0;
                 Registry.users := 1; Registry.use_alpha := true;
                 Registry.srgb := true |})
    as (mgr' & dscene' & Hfree & _ & _ & Hnum & _).
  - reflexivity.
  - intros type. destruct type; reflexivity.
  - simpl. lia.
  - exists mgr', dscene'. split; [exact Hfree|]. rewrite Hnum. reflexivity.
Defined.



(* ===================================================================== *)
(** * Properties of device/device_cpu.cpp: cryptomatte slots *)
(* ===================================================================== *)

Module CryptomatteFacts.
Import Cryptomatte.






Lemma leftover_sum (l : list (Q * Q)) :
  forall acc,
    (fold_left (fun leftover it => leftover + it.1) l acc
     == acc + entry_weight l)%Q.
Proof.
  unfold entry_weight. induction l as [|e l IH]; intros acc; simpl; [ring|].
  rewrite IH. ring.
Qed.





End CryptomatteFacts.


(** X24: a pixel whose coverage weights are all zero writes nothing, and
    clears nothing: [kernel_write_id_slots] returns before it initialises
    the slots, so the slots keep what they held. *)
Theorem flatten_pixel_zero_weights (ID_NONE : Q)
    (sort : list (Q * Q) -> list (Q * Q)) (num_slots : nat)
    (pixel : list (Q * Q)) (buffer : list Cryptomatte.Slot) :
  (0 < num_slots)%nat ->
  Forall (fun e : Q * Q => (e.1 == 0)%Q)
    (sort (map (fun it => (it.2, it.1)) pixel)) ->
  Cryptomatte.flatten_pixel ID_NONE sort num_slots pixel buffer = Some buffer.
Proof.
  intros Hn Hzero.
  assert (Hwrite : forall l i,
             Forall (fun e : Q * Q => (e.1 == 0)%Q) l ->
             Cryptomatte.write_sorted ID_NONE l i buffer = buffer).
  { induction l as [|[w id] l IH]; intros i Hl; [reflexivity|].
    apply Forall_cons in Hl as [Hw Hl]. cbn [Cryptomatte.write_sorted].
    unfold Cryptomatte.kernel_write_id_slots, float_is_zero.
    cbn [fst] in Hw. apply Qeq_bool_iff in Hw. rewrite Hw.
    apply IH. exact Hl. }
  unfold Cryptomatte.flatten_pixel.
  destruct pixel as [|p pixel]; [reflexivity|].
  set (sorted := sort (map (fun it => (it.2, it.1)) (p :: pixel))) in *.
  destruct (num_slots <? length sorted)%nat.
  - destruct num_slots as [|last]; [lia|].
    f_equal. apply Hwrite. apply Forall_take.
    assert (Hleft : (fold_left (fun leftover it => (leftover + it.1)%Q)
                       (drop (S last) sorted) 0 == 0)%Q).
    { rewrite CryptomatteFacts.leftover_sum.
      assert (Hd : Forall (fun e : Q * Q => (e.1 == 0)%Q)
                     (drop (S last) sorted)) by (apply Forall_drop; exact Hzero).
      clear -Hd. unfold Cryptomatte.entry_weight.
      induction Hd as [|e l He _ IH]; simpl; [reflexivity|].
      rewrite He, IH. reflexivity. }
    apply Forall_alter; [exact Hzero|].
    intros e _ He. cbn [fst]. rewrite He, Hleft. reflexivity.
  - f_equal. apply Hwrite. apply Forall_take. exact Hzero.
Qed.

(** The statement of X24 at a pixel of two ids with weight 0 and slots
    that hold an older id. *)
Lemma flatten_pixel_zero_weights_witness :
  Cryptomatte.flatten_pixel 0 Cryptomatte.insertion_sort 2
    [(1, 0); (2, 0)]%Q [(7, 1 # 2); (0, 0)]%Q
  = Some [(7, 1 # 2); (0, 0)]%Q.
Proof.
  apply (flatten_pixel_zero_weights 0 Cryptomatte.insertion_sort 2
           [(1, 0); (2, 0)]%Q [(7, 1 # 2); (0, 0)]%Q).
  - lia.
  - vm_compute. repeat (constructor; [reflexivity|]). constructor.
Defined.
(* ===================================================================== *)
(** * Properties of device/device_cpu.cpp: the sample loops *)
(* ===================================================================== *)

Module SampleLoopFacts.
Import SampleLoops.

Lemma seqZ_S (m : Z) (n : nat) :
  seqZ m (Z.of_nat (S n)) = m :: seqZ (m + 1) (Z.of_nat n).
Proof.
  rewrite Nat2Z.inj_succ. rewrite seqZ_cons by lia.
  f_equal. f_equal; lia.
Qed.

Lemma calls_of_S (tile : RenderTile) (start : Z) (n : nat) :
  calls_of tile start (S n)
  = map (fun p => (start, p.1, p.2)) (tile_pixels tile)
    ++ calls_of tile (start + 1) n.
Proof. unfold calls_of. rewrite seqZ_S. reflexivity. Qed.

(** The loop, started at [sample] with [n] samples to go. *)
Lemma sample_loop_spec (cancelled : Z -> bool) (need_finish_queue : bool)
    (n : nat) :
  forall sample tile calls,
    - 2 ^ 31 <= sample ->
    sample + Z.of_nat n < 2 ^ 31 ->
    let done :=
      if need_finish_queue then n else uncancelled_prefix cancelled sample n in
    sample_loop cancelled need_finish_queue n sample (sample + Z.of_nat n)
      tile calls
    = (match done with
       | O => tile
       | S _ => set_sample tile (sample + Z.of_nat done)
       end,
       calls ++ calls_of tile sample done).
Proof.
  induction n as [|n IH]; intros sample tile calls Hlo Hhi done.
  - subst done. simpl. destruct need_finish_queue; simpl;
      unfold calls_of; simpl; rewrite app_nil_r; reflexivity.
  - cbn [sample_loop].
    destruct (Z.ltb_spec sample (sample + Z.of_nat (S n))); [|lia].
    assert (Hnext : int_add sample 1 = sample + 1).
    { unfold int_add. apply int_wrap_small. lia. }
    replace (sample + Z.of_nat (S n)) with (sample + 1 + Z.of_nat n) by lia.
    subst done.
    destruct need_finish_queue.
    + rewrite andb_false_r, Hnext.
      specialize (IH (sample + 1)
                    (set_sample tile (sample + 1))
                    (calls ++ map (fun p => (sample, p.1, p.2))
                                (tile_pixels tile)) ltac:(lia) ltac:(lia)).
      cbv zeta in IH. rewrite IH.
      rewrite calls_of_S, <- app_assoc. f_equal.
      destruct n as [|n]; unfold set_sample; simpl; f_equal; lia.
    + rewrite andb_true_r. cbn [uncancelled_prefix].
      destruct (cancelled sample).
      * unfold calls_of; simpl. rewrite app_nil_r. reflexivity.
      * rewrite Hnext.
        specialize (IH (sample + 1)
                      (set_sample tile (sample + 1))
                      (calls ++ map (fun p => (sample, p.1, p.2))
                                  (tile_pixels tile)) ltac:(lia) ltac:(lia)).
        cbv zeta in IH. rewrite IH.
        rewrite calls_of_S, <- app_assoc. f_equal.
        destruct (uncancelled_prefix cancelled (sample + 1) n) as [|d];
          unfold set_sample; simpl; f_equal; lia.
Qed.

Lemma uncancelled_prefix_le cancelled (n : nat) :
  forall start, (uncancelled_prefix cancelled start n <= n)%nat.
Proof.
  induction n as [|n IH]; intros start; simpl; [lia|].
  destruct (cancelled start); [lia|]. specialize (IH (start + 1)). lia.
Qed.

(** The pixels of a tile: each pixel of the rectangle once. *)
Lemma tile_pixels_spec (tile : RenderTile) :
  NoDup (tile_pixels tile)
  /\ forall px py,
       (px, py) ∈ tile_pixels tile
       <-> x tile <= px < x tile + w tile /\ y tile <= py < y tile + h tile.
Proof.
  unfold tile_pixels. split.
  - generalize (NoDup_seqZ (y tile) (h tile)).
    generalize (seqZ (y tile) (h tile)) as rows.
    induction rows as [|r rows IH]; intros Hnd; simpl; [constructor|].
    apply NoDup_cons in Hnd as [Hr Hnd].
    apply NoDup_app. split; [|split].
    + apply NoDup_fmap_2; [|apply NoDup_seqZ].
      intros a b Hab. congruence.
    + intros [px py] Hin Hin'.
      apply list_elem_of_fmap in Hin as (a & [= -> ->] & _).
      apply list_elem_of_In, in_flat_map in Hin' as (r' & Hr' & Hin').
      apply in_map_iff in Hin' as (b & [= _ <-] & _).
      apply Hr. apply list_elem_of_In. exact Hr'.
    + apply IH. exact Hnd.
  - intros px py. rewrite list_elem_of_In, in_flat_map. split.
    + intros (r & Hr & Hin).
      apply in_map_iff in Hin as (a & [= <- <-] & Ha).
      apply list_elem_of_In, elem_of_seqZ in Hr.
      apply list_elem_of_In, elem_of_seqZ in Ha. lia.
    + intros [Hx Hy]. exists py. split.
      * apply list_elem_of_In, elem_of_seqZ. lia.
      * apply in_map_iff. exists px. split; [reflexivity|].
        apply list_elem_of_In, elem_of_seqZ. lia.
Qed.
End SampleLoopFacts.
(** X25: the samples [thread_path_trace] renders on a tile.  For a tile
    whose sample range lies in the [int] range, the kernel is called for
    the samples from [start_sample] on up to the first one at whose start a
    cancellation is seen, or for all [num_samples] of them when the queue
    must be finished; for each such sample it is called on every pixel of
    the tile rectangle exactly once, row by row, and on no other pixel.
    The tile's sample counter is left at the first sample not rendered,
    which is at most the end of the range; it is not touched when no sample
    is rendered. *)
Theorem trace_tile_samples (cancelled : Z -> bool) (need_finish_queue : bool)
    (tile : SampleLoops.RenderTile) :
  - 2 ^ 31 <= SampleLoops.start_sample tile ->
  0 <= SampleLoops.num_samples tile ->
  SampleLoops.start_sample tile + SampleLoops.num_samples tile < 2 ^ 31 ->
  let n := Z.to_nat (SampleLoops.num_samples tile) in
  let done :=
    if need_finish_queue then n
    else SampleLoops.uncancelled_prefix cancelled
           (SampleLoops.start_sample tile) n in
  let result := SampleLoops.trace_tile cancelled need_finish_queue tile in
  (done <= n)%nat
  /\ result.2 = SampleLoops.calls_of tile (SampleLoops.start_sample tile) done
  /\ SampleLoops.sample result.1
     = (if (done =? 0)%nat then SampleLoops.sample tile
        else SampleLoops.start_sample tile + Z.of_nat done)
  /\ NoDup (SampleLoops.tile_pixels tile)
  /\ forall px py,
       (px, py) ∈ SampleLoops.tile_pixels tile
       <-> SampleLoops.x tile <= px < SampleLoops.x tile + SampleLoops.w tile
           /\ SampleLoops.y tile <= py
              < SampleLoops.y tile + SampleLoops.h tile.
Proof.
  intros Hlo Hn Hhi n done result.
  assert (Hend : int_add (SampleLoops.start_sample tile)
                   (SampleLoops.num_samples tile)
                 = SampleLoops.start_sample tile + Z.of_nat n).
  { unfold int_add. rewrite int_wrap_small by lia. subst n. lia. }
  assert (Hres : result
                 = (match done with
                    | O => tile
                    | S _ =>
                        SampleLoops.set_sample tile
                          (SampleLoops.start_sample tile + Z.of_nat done)
                    end,
                    SampleLoops.calls_of tile (SampleLoops.start_sample tile)
                      done)).
  { subst result. unfold SampleLoops.trace_tile. rewrite Hend.
    replace (Z.to_nat (SampleLoops.start_sample tile + Z.of_nat n
                       - SampleLoops.start_sample tile)) with n by lia.
    rewrite (SampleLoopFacts.sample_loop_spec cancelled need_finish_queue n
               (SampleLoops.start_sample tile) tile [] Hlo ltac:(lia)).
    reflexivity. }
  split.
  { subst done. destruct need_finish_queue; [lia|].
    apply SampleLoopFacts.uncancelled_prefix_le. }
  rewrite Hres. cbn [fst snd].
  split; [reflexivity|]. split.
  { destruct done; reflexivity. }
  apply SampleLoopFacts.tile_pixels_spec.
Qed.

(** The statement of X25 at a tile of four samples, cancelled when the
    third is about to start: two samples of eight pixels are rendered. *)
Lemma trace_tile_samples_witness :
  SampleLoops.sample
    (SampleLoops.trace_tile (fun s => 10 <=? s) false
       SampleLoops.sample_tile).1 = 10
  /\ length
       (SampleLoops.trace_tile (fun s => 10 <=? s) false
          SampleLoops.sample_tile).2 = 16%nat.
Proof.
  destruct (trace_tile_samples (fun s => 10 <=? s) false
              SampleLoops.sample_tile ltac:(simpl; lia) ltac:(simpl; lia)
              ltac:(simpl; lia)) as (_ & Hcalls & Hsample & _).
  rewrite Hcalls, Hsample. split; reflexivity.
Defined.

Lemma shader_loop_spec (cancelled : Z -> bool) (shader_x shader_w : Z)
    (n : nat) :
  forall sample calls,
    - 2 ^ 31 <= sample ->
    sample + Z.of_nat n < 2 ^ 31 ->
    SampleLoops.shader_loop cancelled n sample (sample + Z.of_nat n) shader_x
      shader_w calls
    = calls
      ++ flat_map (fun s => map (fun px => (px, s)) (seqZ shader_x shader_w))
           (seqZ sample
              (Z.of_nat (SampleLoops.evaluated_samples cancelled sample n))).
Proof.
  induction n as [|n IH]; intros sample calls Hlo Hhi.
  - simpl. rewrite app_nil_r. reflexivity.
  - cbn [SampleLoops.shader_loop SampleLoops.evaluated_samples].
    destruct (Z.ltb_spec sample (sample + Z.of_nat (S n))); [|lia].
    destruct (cancelled sample).
    + change (Z.of_nat 1) with 1. rewrite (seqZ_cons sample 1) by lia.
      change (Z.pred 1) with 0.
      rewrite (seqZ_nil (Z.succ sample) 0) by lia. simpl.
      rewrite app_nil_r. reflexivity.
    + assert (Hnext : int_add sample 1 = sample + 1).
      { unfold int_add. apply int_wrap_small. lia. }
      rewrite Hnext.
      replace (sample + Z.of_nat (S n)) with (sample + 1 + Z.of_nat n) by lia.
      rewrite IH by lia.
      rewrite SampleLoopFacts.seqZ_S. cbn [flat_map].
      rewrite <- app_assoc. reflexivity.
Qed.

(** X26: the samples [thread_shader] evaluates.  The kernel is called for
    the samples from 0 on up to and including the first one after which a
    cancellation is seen, on every [x] of the task's range in order.  A
    task of at least one sample therefore evaluates sample 0 on the whole
    range even when it is cancelled from the start. *)
Theorem thread_shader_samples (cancelled : Z -> bool)
    (task : Task.DeviceTask) :
  0 <= Task.num_samples task < 2 ^ 31 ->
  let done :=
    SampleLoops.evaluated_samples cancelled 0
      (Z.to_nat (Task.num_samples task)) in
  SampleLoops.thread_shader cancelled task
  = flat_map
      (fun s =>
         map (fun px => (px, s)) (seqZ (Task.shader_x task) (Task.shader_w task)))
      (seqZ 0 (Z.of_nat done))
  /\ (1 <= Task.num_samples task -> (1 <= done)%nat)
  /\ Z.of_nat done <= Task.num_samples task.
Proof.
  intros Hn done. unfold SampleLoops.thread_shader.
  pose proof (shader_loop_spec cancelled (Task.shader_x task)
                (Task.shader_w task) (Z.to_nat (Task.num_samples task)) 0 []
                ltac:(lia) ltac:(lia)) as Hloop.
  rewrite Z.add_0_l, Z2Nat.id in Hloop by lia.
  split; [exact Hloop|].
  subst done. split.
  - intros H1.
    destruct (Z.to_nat (Task.num_samples task)) as [|n] eqn:Hk; [lia|].
    simpl. destruct (cancelled 0); lia.
  - assert (Hle : forall n start,
               (SampleLoops.evaluated_samples cancelled start n <= n)%nat).
    { induction n as [|n IH]; intros start; simpl; [lia|].
      destruct (cancelled start); [lia|]. specialize (IH (start + 1)). lia. }
    specialize (Hle (Z.to_nat (Task.num_samples task)) 0). lia.
Qed.

(** The statement of X26 at the shader task of 767 points and one sample,
    cancelled from the start. *)
Lemma thread_shader_samples_witness :
  length (SampleLoops.thread_shader (fun _ => true) shader_task_767)
  = 767%nat.
Proof.
  destruct (thread_shader_samples (fun _ => true) shader_task_767
              ltac:(simpl; lia)) as (Hcalls & _).
  rewrite Hcalls. vm_compute. reflexivity.
Defined.

(* ===================================================================== *)
(** * Properties of COM_MultiAddOperation.cpp *)
(* ===================================================================== *)

Module MultiAddFacts.
Import MultiAdd.

Lemma channel_sum_cons (channel : Color -> Q) (c : Color) (l : list Color) :
  channel_sum channel (c :: l) = (channel c + channel_sum channel l)%Q.
Proof. reflexivity. Qed.

Lemma channel_sum_perm (channel : Color -> Q) (l l' : list Color) :
  l ≡ₚ l' -> (channel_sum channel l == channel_sum channel l')%Q.
Proof.
  induction 1 as [|c l l' _ IH|c d l|l l' l'' _ IH1 _ IH2].
  - reflexivity.
  - rewrite !channel_sum_cons, IH. reflexivity.
  - rewrite !channel_sum_cons. ring.
  - rewrite IH1. exact IH2.
Qed.

(** After the first input the loop adds the three colour channels of every
    input and leaves alpha alone. *)
Lemma add_inputs_later (inputs : list Color) (i : nat) (output : Color) :
  let c := add_inputs inputs (S i) output in
  (red c == red output + channel_sum red inputs)%Q
  /\ (green c == green output + channel_sum green inputs)%Q
  /\ (blue c == blue output + channel_sum blue inputs)%Q
  /\ alpha c = alpha output.
Proof.
  revert i output.
  induction inputs as [|c0 rest IH]; intros i output.
  - cbn. unfold channel_sum. cbn. repeat split; ring.
  - cbn [add_inputs Nat.eqb].
    destruct (IH (S i)
      {| red := (red output + red c0)%Q; green := (green output + green c0)%Q;
         blue := (blue output + blue c0)%Q; alpha := alpha output |})
      as (Hr & Hg & Hb & Ha).
    cbn [red green blue alpha] in Hr, Hg, Hb, Ha.
    rewrite !channel_sum_cons.
    repeat split.
    + rewrite Hr. ring.
    + rewrite Hg. ring.
    + rewrite Hb. ring.
    + exact Ha.
Qed.

Lemma add_inputs_first (first : Color) (rest : list Color) (output : Color) :
  let c := add_inputs (first :: rest) 0 output in
  (red c == red first + channel_sum red rest)%Q
  /\ (green c == green first + channel_sum green rest)%Q
  /\ (blue c == blue first + channel_sum blue rest)%Q
  /\ alpha c = alpha first.
Proof.
  cbn [add_inputs Nat.eqb].
  exact (add_inputs_later rest 0
    {| red := red first; green := green first; blue := blue first;
       alpha := alpha first |}).
Qed.

End MultiAddFacts.

(** X27: the colour [MultiAddOperation::executePixelSampled] hands to
    [clampIfNeeded] takes its alpha from the first input alone, whatever
    the other inputs and the previous contents of the output are; its red,
    green and blue are the first input's plus the sums over the other
    inputs, so reordering the inputs after the first one changes
    nothing. *)
Theorem multi_add_inputs_order (first : MultiAdd.Color)
    (rest rest' : list MultiAdd.Color) (output output' : MultiAdd.Color)
    (Hperm : rest ≡ₚ rest') :
  let c := MultiAdd.add_inputs (first :: rest) 0 output in
  MultiAdd.alpha c = MultiAdd.alpha first
  /\ (MultiAdd.red c ==
      MultiAdd.red first + MultiAdd.channel_sum MultiAdd.red rest)%Q
  /\ (MultiAdd.green c ==
      MultiAdd.green first + MultiAdd.channel_sum MultiAdd.green rest)%Q
  /\ (MultiAdd.blue c ==
      MultiAdd.blue first + MultiAdd.channel_sum MultiAdd.blue rest)%Q
  /\ MultiAdd.same_color c
       (MultiAdd.add_inputs (first :: rest') 0 output').
Proof.
  intros c.
  destruct (MultiAddFacts.add_inputs_first first rest output)
    as (Hr & Hg & Hb & Ha).
  destruct (MultiAddFacts.add_inputs_first first rest' output')
    as (Hr' & Hg' & Hb' & Ha').
  fold c in Hr, Hg, Hb, Ha.
  split; [exact Ha|]. split; [exact Hr|]. split; [exact Hg|].
  split; [exact Hb|].
  unfold MultiAdd.same_color.
  split; [|split; [|split]].
  - rewrite Hr, Hr', (MultiAddFacts.channel_sum_perm _ _ _ Hperm). reflexivity.
  - rewrite Hg, Hg', (MultiAddFacts.channel_sum_perm _ _ _ Hperm). reflexivity.
  - rewrite Hb, Hb', (MultiAddFacts.channel_sum_perm _ _ _ Hperm). reflexivity.
  - rewrite Ha, Ha'. reflexivity.
Qed.

(** The statement of X27 at three inputs, the last two swapped, and two
    different previous outputs. *)
Lemma multi_add_inputs_order_witness :
  let first := MultiAdd.Build_Color (1#2) (1#4) 0 (3#4) in
  let c1 := MultiAdd.Build_Color (1#8) 1 (1#2) 1 in
  let c2 := MultiAdd.Build_Color 2 0 (1#3) (1#5) in
  let c := MultiAdd.add_inputs [first; c1; c2] 0 c2 in
  [c1; c2] ≡ₚ [c2; c1]
  /\ MultiAdd.alpha c = MultiAdd.alpha first
  /\ MultiAdd.same_color c (MultiAdd.add_inputs [first; c2; c1] 0 c1).
Proof.
  intros first c1 c2 c.
  assert (Hperm : [c1; c2] ≡ₚ [c2; c1]) by apply Permutation_swap.
  split; [exact Hperm|].
  destruct (multi_add_inputs_order first [c1; c2] [c2; c1] c2 c1 Hperm)
    as (Ha & _ & _ & _ & Hsame).
  split; [exact Ha | exact Hsame].
Defined.

(* ===================================================================== *)
(** * Properties of bvh_embree_traversal.h *)
(* ===================================================================== *)

(** X28: for a triangle hit (even [geomID]) [isect_to_ccl] turns Embree's
    barycentric pair (u, v) into (1 - u - v, u): a hit inside the triangle
    stays inside it, and Embree's pair is recovered from the result as
    (v', 1 - u' - v'). *)
Theorem isect_to_ccl_triangle_barycentric
    (RTC_INVALID_GEOMETRY_ID OBJECT_NONE : Z)
    (scene_user_data : Z -> Z) (instance_user_data : Z -> Z -> Z)
    (object_node prim_type : Z -> Z) (ray : Embree.CCLRay)
    (Htriangle : Z.land (Embree.geomID ray) 1 = 0)
    (Hinside : Embree.in_triangle (Embree.u ray) (Embree.v ray)) :
  let isect := Embree.isect_to_ccl RTC_INVALID_GEOMETRY_ID OBJECT_NONE
                 scene_user_data instance_user_data object_node prim_type
                 ray in
  Embree.in_triangle (Embree.isect_u isect) (Embree.isect_v isect)
  /\ (Embree.u ray == Embree.isect_v isect)%Q
  /\ (Embree.v ray == 1 - Embree.isect_u isect - Embree.isect_v isect)%Q.
Proof.
  unfold Embree.isect_to_ccl, Embree.in_triangle in *.
  cbn [Embree.isect_u Embree.isect_v].
  rewrite Htriangle. change (truthy 0) with false. cbv iota.
  destruct Hinside as (Hu & Hv & Huv).
  repeat split; lra.
Qed.

(** The statement of X28 at a hit on an instanced triangle with Embree's
    coordinates (1/4, 1/2). *)
Lemma isect_to_ccl_triangle_barycentric_witness :
  let ray := Embree.Build_CCLRay 6 4 7 (1#4) (1#2) 3 (make_float3 0 0 1) in
  let isect := Embree.isect_to_ccl (-1) (-1) (fun g => 10 * g)
                 (fun i g => i + g) (fun o => 100 * o) (fun p => 1) ray in
  Embree.in_triangle (Embree.isect_u isect) (Embree.isect_v isect)
  /\ (Embree.u ray == Embree.isect_v isect)%Q
  /\ (Embree.v ray == 1 - Embree.isect_u isect - Embree.isect_v isect)%Q.
Proof.
  intros ray isect.
  apply (isect_to_ccl_triangle_barycentric (-1) (-1) (fun g => 10 * g)
           (fun i g => i + g) (fun o => 100 * o) (fun p => 1) ray).
  - reflexivity.
  - unfold Embree.in_triangle, ray. cbn. repeat split; lra.
Defined.

(* ===================================================================== *)
(** * Properties of MOD_openvdb.c *)
(* ===================================================================== *)

Lemma land_lor_same (a m : Z) : Z.land (Z.lor a m) m = m.
Proof.
  apply Z.bits_inj'. intros n _.
  rewrite Z.land_spec, Z.lor_spec.
  destruct (Z.testbit a n), (Z.testbit m n); reflexivity.
Qed.

Lemma land_andnot_same (a m : Z) : Z.land (Z.land a (Z.lnot m)) m = 0.
Proof.
  apply Z.bits_inj'. intros n Hn.
  rewrite !Z.land_spec, Z.lnot_spec, Z.bits_0 by exact Hn.
  destruct (Z.testbit a n), (Z.testbit m n); reflexivity.
Qed.

Lemma flags_agree_outside_refl (mask a : Z) : flags_agree_outside mask a a.
Proof. intros n _ _. reflexivity. Qed.

Lemma flags_agree_outside_lor (mask a : Z) :
  flags_agree_outside mask a (Z.lor a mask).
Proof.
  intros n _ Hn. rewrite Z.lor_spec, Hn. apply orb_false_r.
Qed.

Lemma flags_agree_outside_andnot (mask a : Z) :
  flags_agree_outside mask a (Z.land a (Z.lnot mask)).
Proof.
  intros n Hpos Hn. rewrite Z.land_spec, Z.lnot_spec, Hn by exact Hpos.
  apply andb_true_r.
Qed.

Lemma land_subset_zero (a b m : Z) :
  Z.land (Z.lor a b) m = 0 -> Z.land a m = 0.
Proof.
  intros H. apply Z.bits_inj'. intros n Hn.
  apply (f_equal (fun t => Z.testbit t n)) in H.
  rewrite Z.land_spec, Z.lor_spec, Z.bits_0 in H.
  rewrite Z.land_spec, Z.bits_0.
  destruct (Z.testbit a n), (Z.testbit b n), (Z.testbit m n);
    simpl in *; congruence.
Qed.

Lemma land_lor_disjoint (a b m : Z) :
  Z.land b m = 0 -> Z.land (Z.lor a b) m = Z.land a m.
Proof.
  intros H. apply Z.bits_inj'. intros n Hn.
  apply (f_equal (fun t => Z.testbit t n)) in H.
  rewrite Z.land_spec, Z.bits_0 in H.
  rewrite !Z.land_spec, Z.lor_spec.
  destruct (Z.testbit a n), (Z.testbit b n), (Z.testbit m n);
    simpl in *; congruence.
Qed.

Lemma land_andnot_zero (a b m : Z) :
  Z.land a m = 0 -> Z.land (Z.land a (Z.lnot b)) m = 0.
Proof.
  intros H. apply Z.bits_inj'. intros n Hn.
  apply (f_equal (fun t => Z.testbit t n)) in H.
  rewrite Z.land_spec, Z.bits_0 in H.
  rewrite !Z.land_spec, Z.lnot_spec, Z.bits_0 by exact Hn.
  destruct (Z.testbit a n), (Z.testbit b n), (Z.testbit m n);
    simpl in *; congruence.
Qed.

(** X29: [applyModifier] of the OpenVDB modifier leaves no trace of its
    temporary settings.  Given that the render flag is a non-empty mask
    disjoint from [MOD_OPENVDB_HIDE_VOLUME]: whatever the smoke modifier
    does to the data, the simplify level on return is the one on entry,
    every flag outside [MOD_OPENVDB_IS_RENDER] is as on entry (the
    hide-volume and now-rendering overrides are undone), and the render
    flag is set on return exactly when the call was made with
    [MOD_APPLY_RENDER]. *)
Theorem applyModifier_restores_settings
    (MOD_APPLY_RENDER MOD_OPENVDB_SPARSE_RENDER MOD_OPENVDB_HIDE_VOLUME
     MOD_OPENVDB_SIMPLIFY_RENDER MOD_OPENVDB_IS_RENDER
     MOD_OPENVDB_NOW_RENDERING MOD_OPENVDB_HIDE_UNSELECTED SELECT : Z)
    (is_rendering : bool) (read_grid_names : string -> option (list string))
    (DerivedMesh : Type)
    (modwrap_applyModifier :
       OpenVDB.OpenVDBModifierData -> Z ->
       OpenVDB.OpenVDBModifierData * DerivedMesh)
    (vdbmd : OpenVDB.OpenVDBModifierData) (ob_flag flag : Z)
    (Hrender : MOD_OPENVDB_IS_RENDER <> 0)
    (Hhide : Z.land MOD_OPENVDB_HIDE_VOLUME MOD_OPENVDB_IS_RENDER = 0) :
  let vdbmd' :=
    fst (OpenVDB.applyModifier MOD_APPLY_RENDER MOD_OPENVDB_SPARSE_RENDER
           MOD_OPENVDB_HIDE_VOLUME MOD_OPENVDB_SIMPLIFY_RENDER
           MOD_OPENVDB_IS_RENDER MOD_OPENVDB_NOW_RENDERING
           MOD_OPENVDB_HIDE_UNSELECTED SELECT is_rendering read_grid_names
           DerivedMesh modwrap_applyModifier vdbmd ob_flag flag) in
  OpenVDB.simplify vdbmd' = OpenVDB.simplify vdbmd
  /\ flags_agree_outside MOD_OPENVDB_IS_RENDER
       (OpenVDB.flags vdbmd) (OpenVDB.flags vdbmd')
  /\ truthy (Z.land (OpenVDB.flags vdbmd') MOD_OPENVDB_IS_RENDER)
     = truthy (Z.land flag MOD_APPLY_RENDER).
Proof.
  unfold OpenVDB.applyModifier.
  set (loaded := match read_grid_names _ with
                 | Some names => _ | None => _ end).
  assert (Hloaded : OpenVDB.flags loaded = OpenVDB.flags vdbmd).
  { unfold loaded. destruct (read_grid_names _); reflexivity. }
  clearbody loaded.
  destruct (truthy (Z.land flag MOD_APPLY_RENDER)) eqn:Eapply.
  - destruct (truthy (Z.land (OpenVDB.flags loaded)
                        MOD_OPENVDB_SPARSE_RENDER)) eqn:Esparse;
      cbn [OpenVDB.flags OpenVDB.set_flags];
      destruct (negb (truthy (Z.land _ MOD_OPENVDB_SIMPLIFY_RENDER)))
        eqn:Esimplify;
      cbn [OpenVDB.flags OpenVDB.set_flags OpenVDB.set_simplify];
      destruct (negb (truthy (Z.land _ MOD_OPENVDB_IS_RENDER))) eqn:Eis;
      destruct (modwrap_applyModifier _ _) as [after r_dm];
      cbn [fst OpenVDB.flags OpenVDB.simplify OpenVDB.set_flags
           OpenVDB.set_simplify];
      (split; [reflexivity|]);
      (split; [first [apply flags_agree_outside_lor
                     |apply flags_agree_outside_refl]|]);
      rewrite ?land_lor_same;
      try (apply truthy_true; exact Hrender);
      apply negb_false_iff in Eis; rewrite Hloaded in Eis.
    + rewrite land_lor_disjoint in Eis by exact Hhide. exact Eis.
    + rewrite land_lor_disjoint in Eis by exact Hhide. exact Eis.
    + apply truthy_true in Eis. apply truthy_true. intros Hzero.
      apply Eis. apply land_andnot_zero. exact Hzero.
    + apply truthy_true in Eis. apply truthy_true. intros Hzero.
      apply Eis. apply land_andnot_zero. exact Hzero.
  - destruct is_rendering;
      cbn [OpenVDB.flags OpenVDB.set_flags];
      destruct (truthy (Z.land _ MOD_OPENVDB_HIDE_UNSELECTED)
                && negb (truthy (Z.land ob_flag SELECT))) eqn:Eunselected;
      cbn [OpenVDB.flags OpenVDB.set_flags];
      destruct (truthy (Z.land _ MOD_OPENVDB_IS_RENDER)) eqn:Eis;
      destruct (modwrap_applyModifier _ _) as [after r_dm];
      cbn [fst OpenVDB.flags OpenVDB.simplify OpenVDB.set_flags
           OpenVDB.set_simplify];
      (split; [reflexivity|]);
      (split; [first [apply flags_agree_outside_andnot
                     |apply flags_agree_outside_refl]|]);
      rewrite ?land_andnot_same; try reflexivity;
      apply truthy_false in Eis; apply truthy_false;
      rewrite Hloaded in Eis;
      repeat apply land_subset_zero in Eis; exact Eis.
Qed.

(** The statement of X29 at a render call on data with sparse rendering
    and a simplify level of 3, with a smoke modifier that overwrites both
    fields. *)
Lemma applyModifier_restores_settings_witness :
  let vdbmd' :=
    fst (OpenVDB.applyModifier 1 2 4 8 16 32 64 1 true (fun _ => None)
           unit OpenVDB.scrambling_smoke OpenVDB.sample_vdbmd 0 1) in
  OpenVDB.simplify vdbmd' = 3
  /\ flags_agree_outside 16 2 (OpenVDB.flags vdbmd')
  /\ truthy (Z.land (OpenVDB.flags vdbmd') 16) = true.
Proof.
  apply (applyModifier_restores_settings 1 2 4 8 16 32 64 1 true
           (fun _ => None) unit OpenVDB.scrambling_smoke
           OpenVDB.sample_vdbmd 0 1).
  - lia.
  - reflexivity.
Defined.
